(** * The offline chat outbox of the farmer assistant, and its resync pass

    A shallow embedding of [services/offlineService.ts],
    [services/userProfileService.ts], the persistence effects of [App.tsx]
    and [context/LanguageContext.tsx], the drain pass
    [syncOfflineMessages] of [App.tsx] and [sendMessage] of
    [components/features/AIChat.tsx], followed by the properties the
    specification states about them.

    Layout: the platform (JSON text, [localStorage], clock, console), the
    application's types and their JSON views, the services, the drain pass
    (as the loop the source writes and as the event-driven machine an
    [async] function is), the chat component, and then the lemmas. *)

From Stdlib Require Import ZArith Ascii String List Lia.
From stdpp Require Import base option gmap strings list pretty.

Set Warnings "-register-all".


(* ===================================================================== *)
(** * Platform: the properties of an object *)
(* ===================================================================== *)

(** An object keeps its properties in the order they were created, one per
    key.  (JavaScript lists the keys that are array indices first; the
    objects below are read by the names of their fields, so that the order
    is not observed.) *)
Module Props.
Section Props.
Context {V : Type}.

(** [o[k]]. *)
Fixpoint get (k : string) (ms : list (string * V)) : option V :=
  match ms with
  | [] => None
  | (k', v) :: ms' => if String.eqb k k' then Some v else get k ms'
  end.

(** [o[k] = v]: in place when the key exists, at the end otherwise. *)
Fixpoint set (k : string) (v : V) (ms : list (string * V))
  : list (string * V) :=
  match ms with
  | [] => [(k, v)]
  | (k', v') :: ms' =>
      if String.eqb k k' then (k, v) :: ms' else (k', v') :: set k v ms'
  end.

Definition keys (ms : list (string * V)) : list string := map fst ms.

(** [{ ...base, ...ext }], on the properties of [base]. *)
Definition spread (base ext : list (string * V)) : list (string * V) :=
  fold_left (fun acc kv => set kv.1 kv.2 acc) ext base.
End Props.
End Props.

(* ===================================================================== *)
(** * Platform: JSON text *)
(* ===================================================================== *)

(** [JSON.stringify] and [JSON.parse] are the platform's.  They are modelled
    on strings of 8-bit code units, for the whole JSON grammar: a number is
    kept as its literal (a JS number is a double; nothing below computes
    with one), and an escape [\uXXXX] above [00ff] is outside the model. *)
Module JSON.

Inductive json : Type :=
| JNull
| JBool (b : bool)
| JNumber (lit : string)
| JString (s : string)
| JArray (items : list json)
| JObject (members : list (string * json)).

Definition quote : ascii := "034"%char.
Definition backslash : ascii := "092"%char.

(** ** Printing *)

Definition hex_digit (n : N) : ascii :=
  match n with
  | 0%N => "0" | 1%N => "1" | 2%N => "2" | 3%N => "3" | 4%N => "4"
  | 5%N => "5" | 6%N => "6" | 7%N => "7" | 8%N => "8" | 9%N => "9"
  | 10%N => "a" | 11%N => "b" | 12%N => "c" | 13%N => "d" | 14%N => "e"
  | _ => "f"
  end%char.

(** QuoteJSONString, one code unit. *)
Definition escape_char (c : ascii) : string :=
  let n := N_of_ascii c in
  if Ascii.eqb c quote then String backslash (String quote EmptyString)
  else if Ascii.eqb c backslash then String backslash (String backslash EmptyString)
  else if N.eqb n 8 then String backslash "b"
  else if N.eqb n 9 then String backslash "t"
  else if N.eqb n 10 then String backslash "n"
  else if N.eqb n 12 then String backslash "f"
  else if N.eqb n 13 then String backslash "r"
  else if N.ltb n 32 then
    String backslash
      (String "u" (String "0" (String "0"
        (String (hex_digit (N.div n 16))
          (String (hex_digit (N.modulo n 16)) EmptyString)))))
  else String c EmptyString.

Fixpoint escape (s : string) : string :=
  match s with
  | EmptyString => EmptyString
  | String c s' => escape_char c +:+ escape s'
  end.

Definition print_string (s : string) : string :=
  String quote (escape s +:+ String quote EmptyString).

Section Join.
Context {A : Type} (f : A -> string).

(** The elements of an array or object, separated by commas. *)
Fixpoint join_commas (l : list A) : string :=
  match l with
  | [] => EmptyString
  | [x] => f x
  | x :: l' => f x +:+ "," +:+ join_commas l'
  end.
End Join.

Fixpoint print (v : json) : string :=
  match v with
  | JNull => "null"
  | JBool true => "true"
  | JBool false => "false"
  | JNumber lit => lit
  | JString s => print_string s
  | JArray l => "[" +:+ join_commas print l +:+ "]"
  | JObject ms =>
      "{" +:+ join_commas (fun kv => print_string kv.1 +:+ ":" +:+ print kv.2) ms +:+ "}"
  end.

(** [JSON.stringify(v)] for a value that is not [undefined]. *)
Definition stringify (v : json) : string := print v.

(** ** Parsing *)

Definition is_ws (c : ascii) : bool :=
  let n := N_of_ascii c in
  N.eqb n 32 || N.eqb n 9 || N.eqb n 10 || N.eqb n 13.

Fixpoint skip_ws (s : string) : string :=
  match s with
  | String c s' => if is_ws c then skip_ws s' else s
  | EmptyString => s
  end.

Definition is_digit (c : ascii) : bool :=
  let n := N_of_ascii c in N.leb 48 n && N.leb n 57.

Definition hex_val (c : ascii) : option N :=
  let n := N_of_ascii c in
  if N.leb 48 n && N.leb n 57 then Some (n - 48)%N
  else if N.leb 97 n && N.leb n 102 then Some (n - 87)%N
  else if N.leb 65 n && N.leb n 70 then Some (n - 55)%N
  else None.

Definition unescape (c : ascii) : option ascii :=
  if Ascii.eqb c quote then Some quote
  else if Ascii.eqb c backslash then Some backslash
  else if Ascii.eqb c "/" then Some "/"%char
  else if Ascii.eqb c "b" then Some "008"%char
  else if Ascii.eqb c "t" then Some "009"%char
  else if Ascii.eqb c "n" then Some "010"%char
  else if Ascii.eqb c "f" then Some "012"%char
  else if Ascii.eqb c "r" then Some "013"%char
  else None.

(** The characters of a string literal, after its opening quote; the rest
    starts after the closing quote. *)
Fixpoint parse_chars (s : string) : option (string * string) :=
  match s with
  | EmptyString => None
  | String c s1 =>
      if Ascii.eqb c quote then Some (EmptyString, s1)
      else if Ascii.eqb c backslash then
        match s1 with
        | String "u" (String h3 (String h2 (String h1 (String h0 s5)))) =>
            a3 ← hex_val h3; a2 ← hex_val h2; a1 ← hex_val h1; a0 ← hex_val h0;
            let code := (((a3 * 16 + a2) * 16 + a1) * 16 + a0)%N in
            if N.ltb code 256
            then '(str, rest) ← parse_chars s5; Some (String (ascii_of_N code) str, rest)
            else None
        | String e s2 =>
            c' ← unescape e;
            '(str, rest) ← parse_chars s2; Some (String c' str, rest)
        | EmptyString => None
        end
      else if N.ltb (N_of_ascii c) 32 then None
      else '(str, rest) ← parse_chars s1; Some (String c str, rest)
  end.

(** Number literals: an optional minus sign; an integer part that is 0 or
    starts with a digit from 1 to 9; an optional fraction (a dot and
    digits); an optional exponent (e or E, an optional sign, digits). *)
Fixpoint all_digits (s : string) : bool :=
  match s with
  | EmptyString => true
  | String c s' => is_digit c && all_digits s'
  end.

Definition nonempty_digits (s : string) : bool :=
  match s with EmptyString => false | _ => all_digits s end.

Definition valid_exponent (s : string) : bool :=
  match s with
  | String "+" s' | String "-" s' => nonempty_digits s'
  | _ => nonempty_digits s
  end.

(** After the integer part. *)
Fixpoint valid_fraction_digits (s : string) : bool :=
  match s with
  | EmptyString => true
  | String c s' =>
      if is_digit c then valid_fraction_digits s'
      else (Ascii.eqb c "e" || Ascii.eqb c "E") && valid_exponent s'
  end.

Definition valid_after_int (s : string) : bool :=
  match s with
  | EmptyString => true
  | String "." (String d s') => is_digit d && valid_fraction_digits s'
  | String c s' => (Ascii.eqb c "e" || Ascii.eqb c "E") && valid_exponent s'
  end.

Fixpoint valid_int_tail (s : string) : bool :=
  match s with
  | String c s' => if is_digit c then valid_int_tail s' else valid_after_int s
  | EmptyString => true
  end.

Definition valid_unsigned (s : string) : bool :=
  match s with
  | String "0" s' => valid_after_int s'
  | String c s' => is_digit c && valid_int_tail s'
  | EmptyString => false
  end.

Definition valid_number (s : string) : bool :=
  match s with
  | String "-" s' => valid_unsigned s'
  | _ => valid_unsigned s
  end.

Definition is_num_char (c : ascii) : bool :=
  is_digit c || Ascii.eqb c "-" || Ascii.eqb c "+" || Ascii.eqb c "."
  || Ascii.eqb c "e" || Ascii.eqb c "E".

Fixpoint span_number (s : string) : string * string :=
  match s with
  | String c s' =>
      if is_num_char c
      then let '(tok, rest) := span_number s' in (String c tok, rest)
      else (EmptyString, s)
  | EmptyString => (EmptyString, EmptyString)
  end.

Fixpoint strip_prefix (p s : string) : option string :=
  match p, s with
  | EmptyString, _ => Some s
  | String a p', String b s' => if Ascii.eqb a b then strip_prefix p' s' else None
  | _, _ => None
  end.

(** A later member with the key of an earlier one replaces its value. *)
Definition build_object (ms : list (string * json)) : list (string * json) :=
  Props.spread [] ms.

Fixpoint parse_value (fuel : nat) (s : string) : option (json * string) :=
  match fuel with
  | O => None
  | S fuel' =>
      match skip_ws s with
      | EmptyString => None
      | String c rest =>
          if Ascii.eqb c "n" then r ← strip_prefix "ull" rest; Some (JNull, r)
          else if Ascii.eqb c "t" then r ← strip_prefix "rue" rest; Some (JBool true, r)
          else if Ascii.eqb c "f" then r ← strip_prefix "alse" rest; Some (JBool false, r)
          else if Ascii.eqb c quote then
            '(str, r) ← parse_chars rest; Some (JString str, r)
          else if Ascii.eqb c "[" then
            match skip_ws rest with
            | EmptyString => None
            | String c' r =>
                if Ascii.eqb c' "]" then Some (JArray [], r)
                else '(l, r) ← parse_items fuel' rest; Some (JArray l, r)
            end
          else if Ascii.eqb c "{" then
            match skip_ws rest with
            | EmptyString => None
            | String c' r =>
                if Ascii.eqb c' "}" then Some (JObject [], r)
                else '(ms, r) ← parse_members fuel' rest;
                     Some (JObject (build_object ms), r)
            end
          else if is_digit c || Ascii.eqb c "-" then
            let '(tok, r) := span_number (String c rest) in
            if valid_number tok then Some (JNumber tok, r) else None
          else None
      end
  end
with parse_items (fuel : nat) (s : string) : option (list json * string) :=
  match fuel with
  | O => None
  | S fuel' =>
      '(v, r) ← parse_value fuel' s;
      match skip_ws r with
      | EmptyString => None
      | String c r' =>
          if Ascii.eqb c "," then
            '(vs, r'') ← parse_items fuel' r'; Some (v :: vs, r'')
          else if Ascii.eqb c "]" then Some ([v], r')
          else None
      end
  end
with parse_members (fuel : nat) (s : string)
  : option (list (string * json) * string) :=
  match fuel with
  | O => None
  | S fuel' =>
      match skip_ws s with
      | EmptyString => None
      | String c r0 =>
          if Ascii.eqb c quote then
            '(k, r1) ← parse_chars r0;
            match skip_ws r1 with
            | EmptyString => None
            | String c1 r2 =>
                if Ascii.eqb c1 ":" then
                  '(v, r3) ← parse_value fuel' r2;
                  match skip_ws r3 with
                  | EmptyString => None
                  | String c3 r4 =>
                      if Ascii.eqb c3 "," then
                        '(ms, r5) ← parse_members fuel' r4; Some ((k, v) :: ms, r5)
                      else if Ascii.eqb c3 "}" then Some ([(k, v)], r4)
                      else None
                  end
                else None
            end
          else None
      end
  end.

(** [JSON.parse(text)]; [None] is the [SyntaxError] it throws. *)
Definition parse (text : string) : option json :=
  '(v, rest) ← parse_value (String.length text) text;
  match skip_ws rest with
  | EmptyString => Some v
  | _ => None
  end.

(** The values [JSON.stringify] can print and [JSON.parse] gives back:
    number literals are literals, an object has one member per key. *)
Fixpoint wf (v : json) : bool :=
  match v with
  | JNumber lit => valid_number lit
  | JArray l => forallb wf l
  | JObject ms =>
      bool_decide (NoDup (Props.keys ms)) && forallb (fun kv => wf kv.2) ms
  | _ => true
  end.

(** ** What the printer writes, as the parser sees it *)

Fixpoint all_num_chars (s : string) : bool :=
  match s with
  | EmptyString => true
  | String c s' => is_num_char c && all_num_chars s'
  end.

(** What may follow a value for its text to end where the value ends. *)
Definition follow_ok (rest : string) : Prop :=
  match rest with
  | EmptyString => True
  | String c _ => is_num_char c = false
  end.

(** The first character of the text of a value. *)
Definition head_char (c : ascii) : bool :=
  is_digit c || Ascii.eqb c "-" || Ascii.eqb c "n" || Ascii.eqb c "t"
  || Ascii.eqb c "f" || Ascii.eqb c quote || Ascii.eqb c "[" || Ascii.eqb c "{".

Definition print_member (kv : string * json) : string :=
  print_string kv.1 +:+ ":" +:+ print kv.2.

(** [parse_value] reads the text of [v] back, given fuel for its length. *)
Definition reads_back (v : json) : Prop :=
  wf v = true -> forall fuel rest,
  String.length (print v) <= fuel -> follow_ok rest ->
  parse_value fuel (print v +:+ rest) = Some (v, rest).

End JSON.

(* ===================================================================== *)
(** * Platform: the browser *)
(* ===================================================================== *)

Module Platform.
Import JSON.

(** A [File]: its name, its MIME type and its bytes. *)
Record File := { name : string; type : string; bytes : string }.

(** What the code does to the world around it, in the order it does it. *)
Inductive Effect :=
| GetItem (key : string)
| SetItem (key value : string)
| RemoveItem (key : string)
| ConsoleError (message : string)
| DispatchStorageEvent (key : string)
| SendChatMessage (prompt : string) (file : option File) (lang : string).

(** [localStorage] holds strings under string keys.  [quota key value]
    tells whether the store accepts the write; [setItem] throws when it
    does not.  [clock] lists the readings [new Date().toISOString()]
    returns, one per call. *)
Record World := {
  localStorage : gmap string string;
  quota : string -> string -> bool;
  clock : nat -> string;
  ticks : nat;
  trace : list Effect;
}.

(** Code that runs against the world.  [None] is where a run leaves the
    model: a stored value that is JSON but not of the TypeScript type the
    reader casts it to, or an event for a stream nobody consumes. *)
Definition M (A : Type) : Type := World -> option (A * World).

#[global] Instance M_ret : MRet M := fun A a w => Some (a, w).
#[global] Instance M_bind : MBind M := fun A B f m w =>
  match m w with
  | Some (a, w') => f a w'
  | None => None
  end.

Definition stuck {A} : M A := fun _ => None.

(** Changes of the world. *)
Definition record (e : Effect) (w : World) : World :=
  {| localStorage := localStorage w; quota := quota w; clock := clock w;
     ticks := ticks w; trace := trace w ++ [e] |}.

Definition store (key value : string) (w : World) : World :=
  {| localStorage := <[key := value]> (localStorage w); quota := quota w;
     clock := clock w; ticks := ticks w; trace := trace w |}.

Definition erase (key : string) (w : World) : World :=
  {| localStorage := delete key (localStorage w); quota := quota w;
     clock := clock w; ticks := ticks w; trace := trace w |}.

Definition tick (w : World) : World :=
  {| localStorage := localStorage w; quota := quota w; clock := clock w;
     ticks := S (ticks w); trace := trace w |}.

Definition gets {A} (f : World -> A) : M A := fun w => Some (f w, w).
Definition modify (f : World -> World) : M unit := fun w => Some (tt, f w).

Definition emit (e : Effect) : M unit := modify (record e).

(** [localStorage.getItem(key)]: the string, or [None] for [null]. *)
Definition getItem (key : string) : M (option string) :=
  emit (GetItem key);; gets (fun w => localStorage w !! key).

(** [localStorage.setItem(key, value)]: [true] when the write is done,
    [false] when it throws. *)
Definition setItem (key value : string) : M bool :=
  emit (SetItem key value);;
  accepted ← gets (fun w => quota w key value);
  if accepted : bool then modify (store key value);; mret true
  else mret false.

(** [localStorage.removeItem(key)]. *)
Definition removeItem (key : string) : M unit :=
  emit (RemoveItem key);; modify (erase key).

(** [new Date().toISOString()]. *)
Definition now : M string :=
  reading ← gets (fun w => clock w (ticks w));
  modify tick;;
  mret reading.

(** [console.error(message, ...)]. *)
Definition console_error (message : string) : M unit :=
  emit (ConsoleError message).

(** [window.dispatchEvent(new StorageEvent('storage', { key }))]. *)
Definition dispatchStorageEvent (key : string) : M unit :=
  emit (DispatchStorageEvent key).

(** ** Values  *)

(** [v?.data]; [None] is [undefined]. *)
Definition optional_data (v : json) : option json :=
  match v with
  | JObject ms => Props.get "data" ms
  | _ => None
  end.

(** The mantissa of a number literal holds no digit but 0. *)
Fixpoint zero_literal (lit : string) : bool :=
  match lit with
  | EmptyString => true
  | String c lit' =>
      if Ascii.eqb c "e" || Ascii.eqb c "E" then true
      else if is_digit c && negb (Ascii.eqb c "0") then false
      else zero_literal lit'
  end.

(** A value the language treats as false in a condition. *)
Definition falsy (v : option json) : bool :=
  match v with
  | None | Some JNull | Some (JBool false) | Some (JString EmptyString) => true
  | Some (JNumber lit) => zero_literal lit
  | Some _ => false
  end.

(** [v || []]. *)
Definition or_empty_array (v : option json) : json :=
  if falsy v then JArray [] else default JNull v.

(** ** Numbers read from text *)

(** A [number] that is [NaN] or an integer.  An integer stands for the
    double nearest to it: the integer itself below 2^53 in magnitude, an
    infinity from 2^1024 - 2^970 on.  Numbers with a fraction are not
    modelled. *)
Inductive number := NaN | Integer (z : Z).

(** The white space [parseInt] skips, among the code units below 256: tab,
    line feed, vertical tab, form feed, carriage return, space and the
    no-break space. *)
Definition is_space (c : ascii) : bool :=
  Ascii.eqb c "009" || Ascii.eqb c "010" || Ascii.eqb c "011" || Ascii.eqb c "012"
  || Ascii.eqb c "013" || Ascii.eqb c " " || Ascii.eqb c "160".

Fixpoint skip_space (s : string) : string :=
  match s with
  | String c s' => if is_space c then skip_space s' else s
  | EmptyString => s
  end.

Definition digit_value (c : ascii) : Z := Z.of_nat (nat_of_ascii c) - 48.

(** The value of the longest run of decimal digits [s] begins with, after
    the digits of [acc]. *)
Fixpoint read_digits (acc : Z) (s : string) : Z :=
  match s with
  | String c s' =>
      if is_digit c then read_digits (10 * acc + digit_value c) s' else acc
  | EmptyString => acc
  end.

(** [parseInt(s, 10)]. *)
Definition parseInt (s : string) : number :=
  let s1 := skip_space s in
  let '(negative, s2) :=
    match s1 with
    | String c r =>
        if Ascii.eqb c "-" then (true, r)
        else if Ascii.eqb c "+" then (false, r)
        else (false, s1)
    | EmptyString => (false, s1)
    end in
  match s2 with
  | String c _ =>
      if is_digit c
      then Integer (if negative : bool then - read_digits 0 s2 else read_digits 0 s2)
      else NaN
  | EmptyString => NaN
  end.

(** [x.toString()]: "NaN", the decimal digits of a whole number below 2^53
    in magnitude, "Infinity" or "-Infinity".  In between the text is made
    of the digits of the nearest double, with an exponent from 10^21 on;
    this is left out ([None]). *)
Definition toString (x : number) : option string :=
  match x with
  | NaN => Some "NaN"
  | Integer z =>
      if (Z.abs z <? 2 ^ 53)%Z then Some (pretty z)
      else if (2 ^ 1024 - 2 ^ 970 <=? z)%Z then Some "Infinity"
      else if (z <=? - (2 ^ 1024 - 2 ^ 970))%Z then Some "-Infinity"
      else None
  end.

End Platform.

(* ===================================================================== *)
(** * The application's types ([types.ts]) and their JSON views *)
(* ===================================================================== *)

(** [keyof typeof languages]; the table [languages] of [i18n] is not part
    of the sources at hand, so a language code is any string. *)
Definition LanguageCode : Type := string.

(** A field of type [string | undefined]: an absent member. *)
Definition optional_member (k : string) (v : option string)
  : list (string * JSON.json) :=
  match v with
  | Some s => [(k, JSON.JString s)]
  | None => []
  end.

(** Reading [o.k] at type [string]. *)
Definition string_member (k : string) (ms : list (string * JSON.json))
  : option string :=
  match Props.get k ms with
  | Some (JSON.JString s) => Some s
  | _ => None
  end.

(** Reading [o.k] at type [string | undefined]; the outer [None] is a type
    error. *)
Definition optional_string_member (k : string) (ms : list (string * JSON.json))
  : option (option string) :=
  match Props.get k ms with
  | None => Some None
  | Some (JSON.JString s) => Some (Some s)
  | Some _ => None
  end.

(** Reading [o.k] at type [string | null]. *)
Definition nullable_string_member (k : string) (ms : list (string * JSON.json))
  : option (option string) :=
  match Props.get k ms with
  | Some JSON.JNull => Some None
  | Some (JSON.JString s) => Some (Some s)
  | _ => None
  end.

Definition nullable (v : option string) : JSON.json :=
  match v with
  | Some s => JSON.JString s
  | None => JSON.JNull
  end.

(** An array, element by element. *)
Definition array_of_json {A} (elem : JSON.json -> option A) (v : JSON.json)
  : option (list A) :=
  match v with
  | JSON.JArray l => mapM elem l
  | _ => None
  end.

Module ChatMessage.
Import JSON.

Inductive Role := user | model.
Inductive Status := sent | pending | failed.

Record t := mk {
  id : string;
  role : Role;
  text : string;
  filePreview : option string;
  fileName : option string;
  fileMimeType : option string;
  status : option Status;
}.

Definition Role_eqb (a b : Role) : bool :=
  match a, b with
  | user, user | model, model => true
  | _, _ => false
  end.

Definition Role_to_string (r : Role) : string :=
  match r with user => "user" | model => "model" end.

Definition Role_of_string (s : string) : option Role :=
  if String.eqb s "user" then Some user
  else if String.eqb s "model" then Some model
  else None.

Definition Status_to_string (s : Status) : string :=
  match s with sent => "sent" | pending => "pending" | failed => "failed" end.

Definition Status_of_string (s : string) : option Status :=
  if String.eqb s "sent" then Some sent
  else if String.eqb s "pending" then Some pending
  else if String.eqb s "failed" then Some failed
  else None.

(** The object of a message, with its members in the order
    [AIChat.sendMessage] creates them. *)
Definition to_json (m : t) : json :=
  JObject
    ([("id", JString (id m)); ("role", JString (Role_to_string (role m)));
      ("text", JString (text m))]
     ++ optional_member "status" (Status_to_string <$> status m)
     ++ optional_member "filePreview" (filePreview m)
     ++ optional_member "fileName" (fileName m)
     ++ optional_member "fileMimeType" (fileMimeType m)).

(** The cast [as ChatMessage] of a parsed value, checked. *)
Definition of_json (v : json) : option t :=
  match v with
  | JObject ms =>
      i ← string_member "id" ms;
      r ← string_member "role" ms ≫= Role_of_string;
      x ← string_member "text" ms;
      st ← optional_string_member "status" ms;
      st' ← match st with
            | None => Some None
            | Some s => Some <$> Status_of_string s
            end;
      fp ← optional_string_member "filePreview" ms;
      fn ← optional_string_member "fileName" ms;
      fm ← optional_string_member "fileMimeType" ms;
      Some {| id := i; role := r; text := x; filePreview := fp;
              fileName := fn; fileMimeType := fm; status := st' |}
  | _ => None
  end.

Definition list_to_json (l : list t) : json := JArray (to_json <$> l).
Definition list_of_json : json -> option (list t) := array_of_json of_json.

(** [m.text = s] and [m.status = s], on the message itself. *)
Definition set_text (s : string) (m : t) : t :=
  {| id := id m; role := role m; text := s; filePreview := filePreview m;
     fileName := fileName m; fileMimeType := fileMimeType m; status := status m |}.

Definition set_status (s : Status) (m : t) : t :=
  {| id := id m; role := role m; text := text m; filePreview := filePreview m;
     fileName := fileName m; fileMimeType := fileMimeType m; status := Some s |}.

End ChatMessage.

Module QueuedMessage.
Import JSON.

Record t := mk {
  id : string;
  prompt : string;
  fileData : option string;
  fileName : option string;
  fileMimeType : option string;
  lang : LanguageCode;
}.

Definition to_json (q : t) : json :=
  JObject
    [("id", JString (id q)); ("prompt", JString (prompt q));
     ("fileData", nullable (fileData q)); ("fileName", nullable (fileName q));
     ("fileMimeType", nullable (fileMimeType q)); ("lang", JString (lang q))].

(** The cast [as QueuedMessage] of a parsed value, checked. *)
Definition of_json (v : json) : option t :=
  match v with
  | JObject ms =>
      i ← string_member "id" ms;
      p ← string_member "prompt" ms;
      fd ← nullable_string_member "fileData" ms;
      fn ← nullable_string_member "fileName" ms;
      fm ← nullable_string_member "fileMimeType" ms;
      l ← string_member "lang" ms;
      Some {| id := i; prompt := p; fileData := fd; fileName := fn;
              fileMimeType := fm; lang := l |}
  | _ => None
  end.

Definition list_to_json (l : list t) : json := JArray (to_json <$> l).
Definition list_of_json : json -> option (list t) := array_of_json of_json.

End QueuedMessage.

(* ===================================================================== *)
(** * [services/offlineService.ts] *)
(* ===================================================================== *)

Module offlineService.
Import JSON Platform.

Definition CACHE_PREFIX : string := "ai-farmer-assistant-".

(** ** Generic data caching *)

Definition setCachedData (key : string) (data : json) : M unit :=
  timestamp ← now;
  let cacheEntry := JObject [("timestamp", JString timestamp); ("data", data)] in
  written ← setItem (CACHE_PREFIX +:+ key) (stringify cacheEntry);
  if written : bool then mret tt
  else console_error ("Failed to cache data for key: " +:+ key).

(** The value is [null] ([JNull]) for a missing or empty item and for text
    that does not parse. *)
Definition getCachedData (key : string) : M json :=
  item ← getItem (CACHE_PREFIX +:+ key);
  match item with
  | None | Some EmptyString => mret JNull
  | Some text =>
      match parse text with
      | Some v => mret v
      | None =>
          console_error ("Failed to retrieve cached data for key: " +:+ key);;
          mret JNull
      end
  end.

(** The unchecked cast of a parsed value to a TypeScript type. *)
Definition cast {A} (view : json -> option A) (v : json) : M A :=
  match view v with
  | Some a => mret a
  | None => stuck
  end.

(** ** Chat specific caching *)

Definition CHAT_HISTORY_KEY : string := "chatHistory".
Definition CHAT_OUTBOX_KEY : string := "chatOutbox".

Definition getChatHistory : M (list ChatMessage.t) :=
  entry ← getCachedData CHAT_HISTORY_KEY;
  cast ChatMessage.list_of_json (or_empty_array (optional_data entry)).

Definition saveChatHistory (messages : list ChatMessage.t) : M unit :=
  setCachedData CHAT_HISTORY_KEY (ChatMessage.list_to_json messages);;
  dispatchStorageEvent (CACHE_PREFIX +:+ CHAT_HISTORY_KEY).

(** [s || null]. *)
Definition or_null (s : string) : option string :=
  match s with
  | EmptyString => None
  | _ => Some s
  end.

Section Enqueue.
(** [utils/fileToBase64.ts] is not part of the sources at hand: the
    promise it returns resolves to a string or rejects ([None]). *)
Variable fileToBase64 : File -> option string.

(** The [await] of the conversion is the one point where the function
    yields; it is taken here in one step. *)
Definition addMessageToQueue
    (prompt : string) (file : option File) (id : string) (lang : LanguageCode)
  : M unit :=
  outbox ← (entry ← getCachedData CHAT_OUTBOX_KEY;
            cast QueuedMessage.list_of_json (or_empty_array (optional_data entry)));
  fileData ← match file with
             | Some f =>
                 match fileToBase64 f with
                 | Some base64 => mret (Some base64)
                 | None =>
                     console_error "Could not convert file to Base64 for offline queue";;
                     mret None
                 end
             | None => mret None
             end;
  let queuedMessage :=
    {| QueuedMessage.id := id;
       QueuedMessage.prompt := prompt;
       QueuedMessage.fileData := fileData;
       QueuedMessage.fileName := f ← file; or_null (name f);
       QueuedMessage.fileMimeType := f ← file; or_null (type f);
       QueuedMessage.lang := lang |} in
  setCachedData CHAT_OUTBOX_KEY (QueuedMessage.list_to_json (outbox ++ [queuedMessage])).
End Enqueue.

Definition getMessageQueue : M (list QueuedMessage.t) :=
  entry ← getCachedData CHAT_OUTBOX_KEY;
  cast QueuedMessage.list_of_json (or_empty_array (optional_data entry)).

Definition clearMessageQueue : M unit :=
  removeItem (CACHE_PREFIX +:+ CHAT_OUTBOX_KEY).

(** ** Rewards specific caching *)

Definition TOTAL_POINTS_KEY : string := "rewards-totalPoints".
Definition HARVEST_LOG_KEY : string := "rewards-harvestLog".

Definition getRewardsPoints : M number :=
  item ← getItem (CACHE_PREFIX +:+ TOTAL_POINTS_KEY);
  mret match item with
       | None | Some EmptyString => Integer 0
       | Some text => parseInt text
       end.

(** The text written is [points.toString()]; for a number whose text
    [toString] leaves out, the model says nothing. *)
Definition saveRewardsPoints (points : number) : M unit :=
  match toString points with
  | Some text =>
      written ← setItem (CACHE_PREFIX +:+ TOTAL_POINTS_KEY) text;
      if written : bool then mret tt
      else console_error "Failed to save total points"
  | None => stuck
  end.

(** A [HarvestSaleLog] has number fields; it is kept as the JSON value. *)
Definition getHarvestLog : M (list json) :=
  entry ← getCachedData HARVEST_LOG_KEY;
  cast (array_of_json Some) (or_empty_array (optional_data entry)).


End offlineService.

(* ===================================================================== *)
(** * [services/userProfileService.ts] *)
(* ===================================================================== *)

Module userProfileService.
Import JSON Platform.

Definition PROFILE_KEY : string := "ai-farmer-assistant-userProfile".

(** [UserProfile] has optional fields only.  A profile in memory is an
    object whose properties may hold [undefined] ([None]). *)
Definition UserProfile : Type := list (string * option json).

(** The profile, or [null] ([JNull]). *)
Definition getUserProfile : M json :=
  item ← getItem PROFILE_KEY;
  match item with
  | None | Some EmptyString => mret JNull
  | Some text =>
      match parse text with
      | Some v => mret v
      | None =>
          console_error "Failed to retrieve user profile from localStorage";;
          mret JNull
      end
  end.

Fixpoint chars (s : string) : list json :=
  match s with
  | EmptyString => []
  | String c s' => JString (String c EmptyString) :: chars s'
  end.

(** The own enumerable properties [{ ...v }] copies. *)
Definition own_properties (v : json) : UserProfile :=
  match v with
  | JObject ms => prod_map id Some <$> ms
  | JArray l => imap (fun i x => (pretty i, Some x)) l
  | JString s => imap (fun i x => (pretty i, Some x)) (chars s)
  | _ => []
  end.

(** [JSON.stringify] of an object leaves out the properties that hold
    [undefined]. *)
Definition defined (o : UserProfile) : list (string * json) :=
  omap (fun kv => pair kv.1 <$> kv.2) o.

Definition saveUserProfile (profile : UserProfile) : M unit :=
  stored ← getUserProfile;
  let existingProfile := if falsy (Some stored) then JObject [] else stored in
  let newProfile := Props.spread (Props.spread [] (own_properties existingProfile)) profile in
  written ← setItem PROFILE_KEY (stringify (JObject (defined newProfile)));
  if written : bool then mret tt
  else console_error "Failed to save user profile to localStorage".

End userProfileService.

(* ===================================================================== *)
(** * Preferences: [App.tsx] and [context/LanguageContext.tsx] *)
(* ===================================================================== *)

Module Preferences.
Import Platform.


(** The effect of [LanguageProvider] on [lang]. *)
Definition persistLanguage (lang : LanguageCode) : M unit :=
  written ← setItem "language" lang;
  if written : bool then mret tt
  else console_error "Failed to save language to localStorage".

End Preferences.

(* ===================================================================== *)
(** * [App.tsx]: the drain of the outbox *)
(* ===================================================================== *)

Module App.
Import JSON Platform offlineService.

(** What the async generator [sendChatMessage(prompt, file, lang)] of
    [services/geminiService.ts] gives its consumer: the texts it yields,
    in order, and then its return or the error it throws.  The generator
    fronts the remote model, which the specification leaves outside. *)
Inductive StreamEnd := Completed | Threw (message : string).
Record Stream := { chunks : list string; ending : StreamEnd }.

(** [s.split(sep)] for a one-character separator. *)
Fixpoint split (sep : ascii) (s : string) : list string :=
  match s with
  | EmptyString => [EmptyString]
  | String c s' =>
      if Ascii.eqb c sep then EmptyString :: split sep s'
      else match split sep s' with
           | piece :: pieces => String c piece :: pieces
           | [] => [String c EmptyString]
           end
  end.

(** [s || d]. *)
Definition or_default (s : option string) (d : string) : string :=
  match s with
  | Some (String _ _ as s') => s'
  | _ => d
  end.

(** The locals of one turn of the [for ... of queue] loop. *)
Record Locals := {
  fullResponse : string;
  firstChunk : bool;
  currentChatHistory : list ChatMessage.t;
}.

(** [{ id: `${queuedMessage.id}-model`, role: 'model', text: '' }]. *)
Definition model_message (q : QueuedMessage.t) : ChatMessage.t :=
  {| ChatMessage.id := QueuedMessage.id q +:+ "-model";
     ChatMessage.role := ChatMessage.model;
     ChatMessage.text := EmptyString;
     ChatMessage.filePreview := None; ChatMessage.fileName := None;
     ChatMessage.fileMimeType := None; ChatMessage.status := None |}.

(** [array.findIndex(p)]: the first index, or -1. *)
Fixpoint findIndex {A} (p : A -> bool) (l : list A) : Z :=
  match l with
  | [] => (-1)%Z
  | x :: l' =>
      if p x then 0%Z
      else let i := findIndex p l' in
           if (i <? 0)%Z then (-1)%Z else (i + 1)%Z
  end.

Definition userMessageIndex_of (q : QueuedMessage.t) (history : list ChatMessage.t) : Z :=
  findIndex (fun m => String.eqb (ChatMessage.id m) (QueuedMessage.id q)) history.

(** [if (userMessageIndex > -1) currentChatHistory[userMessageIndex].status = s]. *)
Definition settle (s : ChatMessage.Status) (userMessageIndex : Z)
    (history : list ChatMessage.t) : list ChatMessage.t :=
  if (userMessageIndex >? -1)%Z
  then alter (ChatMessage.set_status s) (Z.to_nat userMessageIndex) history
  else history.

(** The body of [for await (const chunk of stream)]. *)
Definition receive (q : QueuedMessage.t) (chunk : string) (l : Locals) : M Locals :=
  let fullResponse := fullResponse l +:+ chunk in
  let history :=
    if firstChunk l then currentChatHistory l ++ [model_message q]
    else currentChatHistory l in
  match last history with
  | Some lastMessage =>
      if ChatMessage.Role_eqb (ChatMessage.role lastMessage) ChatMessage.model then
        let history' :=
          alter (ChatMessage.set_text fullResponse) (length history - 1) history in
        saveChatHistory history';;
        mret {| fullResponse := fullResponse; firstChunk := false;
                currentChatHistory := history' |}
      else
        mret {| fullResponse := fullResponse; firstChunk := false;
                currentChatHistory := history |}
  | None =>
      mret {| fullResponse := fullResponse; firstChunk := false;
              currentChatHistory := history |}
  end.

Definition failure_message (q : QueuedMessage.t) : string :=
  "Failed to send queued message " +:+ QueuedMessage.id q +:+ ":".

Section Drain.
(** The platform's [atob]; [None] when it throws. *)
Variable atob : string -> option string.

(** [None] when [atob] throws.  ([atob(undefined)] decodes the text
    "undefined".) *)
Definition base64ToFile (base64 filename mimeType : string) : option File :=
  byteCharacters ← atob (default "undefined" (split "," base64 !! 1));
  Some {| name := filename; type := mimeType; bytes := byteCharacters |}.

(** The [file] of a queued message; the outer [None] when [base64ToFile]
    throws. *)
Definition file_of (q : QueuedMessage.t) : option (option File) :=
  match QueuedMessage.fileData q with
  | Some (String _ _ as fileData) =>
      Some <$> base64ToFile fileData
                 (or_default (QueuedMessage.fileName q) "offline-file")
                 (or_default (QueuedMessage.fileMimeType q) "application/octet-stream")
  | _ => Some None
  end.

(** ** The pass as the source writes it *)

Section Loop.
Variable sendChatMessage : string -> option File -> LanguageCode -> Stream.

Fixpoint receive_all (q : QueuedMessage.t) (chunks : list string) (l : Locals)
  : M Locals :=
  match chunks with
  | [] => mret l
  | chunk :: chunks' => l' ← receive q chunk l; receive_all q chunks' l'
  end.

(** One turn of [for (const queuedMessage of queue)]. *)
Definition turn (q : QueuedMessage.t) (history : list ChatMessage.t)
  : M (list ChatMessage.t) :=
  let userMessageIndex := userMessageIndex_of q history in
  match file_of q with
  | None =>
      console_error (failure_message q);;
      mret (settle ChatMessage.failed userMessageIndex history)
  | Some file =>
      emit (SendChatMessage (QueuedMessage.prompt q) file (QueuedMessage.lang q));;
      let stream := sendChatMessage (QueuedMessage.prompt q) file (QueuedMessage.lang q) in
      l ← receive_all q (chunks stream)
            {| fullResponse := EmptyString; firstChunk := true;
               currentChatHistory := history |};
      match ending stream with
      | Completed =>
          mret (settle ChatMessage.sent userMessageIndex (currentChatHistory l))
      | Threw _ =>
          console_error (failure_message q);;
          mret (settle ChatMessage.failed userMessageIndex (currentChatHistory l))
      end
  end.

Fixpoint turns (queue : list QueuedMessage.t) (history : list ChatMessage.t)
  : M (list ChatMessage.t) :=
  match queue with
  | [] => mret history
  | q :: queue' => history' ← turn q history; turns queue' history'
  end.

(** [isSyncing] is the ref [isSyncing.current] on entry; the result is
    its value on exit. *)
Definition syncOfflineMessages (isOnline isSyncing : bool) : M bool :=
  if isSyncing || negb isOnline then mret isSyncing
  else
    queue ← getMessageQueue;
    match queue with
    | [] => mret false
    | _ =>
        history ← getChatHistory;
        history' ← turns queue history;
        saveChatHistory history';;
        clearMessageQueue;;
        mret false
    end.
End Loop.

(** ** The pass as the events of an [async] function

    A call runs until it awaits the next chunk of the stream it consumes;
    what that stream then delivers resumes it.  Every call that gets past
    the guard is a pass of its own, suspended at its [await]. *)

Record Pass := {
  rest : list QueuedMessage.t;
  current : QueuedMessage.t;
  userMessageIndex : Z;
  locals : Locals;
}.

Record Component := {
  isOnline : bool;
  isSyncing : bool;
  passes : list Pass;
}.

(** [Online] is a change the connectivity hook reports; [Resync] is a
    call of [syncOfflineMessages]; the other three are what the stream of
    pass number [n] delivers. *)
Inductive Event :=
| Online (online : bool)
| Resync
| Chunk (n : nat) (text : string)
| Done (n : nat)
| Error (n : nat) (message : string).

(** From the head of [for (const queuedMessage of queue)] to the next
    [await] ([Some]), or through the end of the function ([None]). *)
Fixpoint advance (queue : list QueuedMessage.t) (history : list ChatMessage.t)
  : M (option Pass) :=
  match queue with
  | [] => saveChatHistory history;; clearMessageQueue;; mret None
  | q :: queue' =>
      let userMessageIndex := userMessageIndex_of q history in
      match file_of q with
      | None =>
          console_error (failure_message q);;
          advance queue' (settle ChatMessage.failed userMessageIndex history)
      | Some file =>
          emit (SendChatMessage (QueuedMessage.prompt q) file (QueuedMessage.lang q));;
          mret (Some {| rest := queue'; current := q;
                        userMessageIndex := userMessageIndex;
                        locals := {| fullResponse := EmptyString;
                                     firstChunk := true;
                                     currentChatHistory := history |} |})
      end
  end.

(** A pass that reached its end has set [isSyncing.current = false];
    one that awaits leaves the flag as it is. *)
Definition resume (n : nat) (c : Component) (p : option Pass) : Component :=
  match p with
  | Some p' =>
      {| isOnline := isOnline c; isSyncing := isSyncing c;
         passes := <[n := p']> (passes c) |}
  | None =>
      {| isOnline := isOnline c; isSyncing := false;
         passes := delete n (passes c) |}
  end.

(** A call of [syncOfflineMessages]. *)
Definition call (c : Component) : M Component :=
  if isSyncing c || negb (isOnline c) then mret c
  else
    queue ← getMessageQueue;
    match queue with
    | [] => mret {| isOnline := isOnline c; isSyncing := false; passes := passes c |}
    | _ =>
        history ← getChatHistory;
        p ← advance queue history;
        mret match p with
             | Some p' =>
                 {| isOnline := isOnline c; isSyncing := true;
                    passes := passes c ++ [p'] |}
             | None =>
                 {| isOnline := isOnline c; isSyncing := false;
                    passes := passes c |}
             end
    end.

Definition step (e : Event) (c : Component) : M Component :=
  match e with
  | Resync => call c
  | Online online =>
      if Bool.eqb online (isOnline c) then mret c
      else
        let c' := {| isOnline := online; isSyncing := isSyncing c;
                     passes := passes c |} in
        if online then call c' else mret c'
  | Chunk n text =>
      match passes c !! n with
      | None => stuck
      | Some p =>
          l ← receive (current p) text (locals p);
          mret (resume n c (Some {| rest := rest p; current := current p;
                                    userMessageIndex := userMessageIndex p;
                                    locals := l |}))
      end
  | Done n =>
      match passes c !! n with
      | None => stuck
      | Some p =>
          p' ← advance (rest p)
                 (settle ChatMessage.sent (userMessageIndex p)
                    (currentChatHistory (locals p)));
          mret (resume n c p')
      end
  | Error n _ =>
      match passes c !! n with
      | None => stuck
      | Some p =>
          console_error (failure_message (current p));;
          p' ← advance (rest p)
                 (settle ChatMessage.failed (userMessageIndex p)
                    (currentChatHistory (locals p)));
          mret (resume n c p')
      end
  end.

Fixpoint steps (es : list Event) (c : Component) : M Component :=
  match es with
  | [] => mret c
  | e :: es' => c' ← step e c; steps es' c'
  end.
End Drain.

End App.

(* ===================================================================== *)
(** * [components/features/AIChat.tsx] *)
(* ===================================================================== *)

Module AIChat.
Import JSON Platform offlineService.

(** The state of the component that [sendMessage] sets.  The input box,
    the attached file and the speech in progress are left out. *)
Record State := {
  messages : list ChatMessage.t;
  loading : bool;
  error : option string;
  messageToSpeak : option (nat * string);
}.

Definition setMessages (v : list ChatMessage.t) (s : State) : State :=
  {| messages := v; loading := loading s; error := error s;
     messageToSpeak := messageToSpeak s |}.

Definition setLoading (v : bool) (s : State) : State :=
  {| messages := messages s; loading := v; error := error s;
     messageToSpeak := messageToSpeak s |}.

Definition setError (v : option string) (s : State) : State :=
  {| messages := messages s; loading := loading s; error := v;
     messageToSpeak := messageToSpeak s |}.

Definition setMessageToSpeak (v : option (nat * string)) (s : State) : State :=
  {| messages := messages s; loading := loading s; error := error s;
     messageToSpeak := v |}.

(** The listener of [storage] events: what it passes to [setMessages],
    if anything. *)
Definition handleStorageChange (key : string) : M (option (list ChatMessage.t)) :=
  if String.eqb key "ai-farmer-assistant-chatHistory"
  then stored ← getChatHistory; mret (Some stored)
  else mret None.

(** The state is set to [updated] and [saveChatHistory(updated)] is called.
    [window.dispatchEvent] calls the listener of this component before it
    returns, so the listener reads the store right after the write, and
    what it read is the state it asks for.  The state it asks for is taken
    to be applied after [updated]. *)
Definition save (updated : list ChatMessage.t) (s : State) : M State :=
  saveChatHistory updated;;
  heard ← handleStorageChange (CACHE_PREFIX +:+ CHAT_HISTORY_KEY);
  mret (setMessages (default updated heard) s).

(** [{ id: `${messageId}-model`, role: 'model', text: '' }]. *)
Definition aiMessage (messageId : string) : ChatMessage.t :=
  {| ChatMessage.id := messageId +:+ "-model";
     ChatMessage.role := ChatMessage.model;
     ChatMessage.text := EmptyString;
     ChatMessage.filePreview := None; ChatMessage.fileName := None;
     ChatMessage.fileMimeType := None; ChatMessage.status := None |}.

(** The second updater of the loop: the text of the last message, when it
    is one of the model, becomes [fullResponse]. *)
Definition with_text (fullResponse : string) (prev : list ChatMessage.t)
  : list ChatMessage.t :=
  match last prev with
  | Some lastMessage =>
      if ChatMessage.Role_eqb (ChatMessage.role lastMessage) ChatMessage.model
      then alter (ChatMessage.set_text fullResponse) (length prev - 1) prev
      else prev
  | None => prev
  end.

(** The locals of the [try] block. *)
Record Locals := { fullResponse : string; firstChunkReceived : bool }.

(** The body of [for await (const chunk of stream)]. *)
Definition receive (messageId chunk : string) (l : Locals) (s : State)
  : M (Locals * State) :=
  s1 ← (if firstChunkReceived l then mret s
        else let s0 := setLoading false s in
             save (messages s0 ++ [aiMessage messageId]) s0);
  let fullResponse := fullResponse l +:+ chunk in
  s2 ← save (with_text fullResponse (messages s1)) s1;
  mret ({| fullResponse := fullResponse; firstChunkReceived := true |}, s2).

Fixpoint receive_all (messageId : string) (chunks : list string) (l : Locals) (s : State)
  : M (Locals * State) :=
  match chunks with
  | [] => mret (l, s)
  | chunk :: chunks' =>
      '(l', s') ← receive messageId chunk l s;
      receive_all messageId chunks' l' s'
  end.

Section Send.
(** [String.prototype.trim] and [URL.createObjectURL]. *)
Variable trim : string -> string.
Variable createObjectURL : File -> string.
Variable fileToBase64 : File -> option string.
Variable sendChatMessage : string -> option File -> LanguageCode -> App.Stream.

(** [!prompt.trim()]. *)
Definition blank (prompt : string) : bool :=
  match trim prompt with EmptyString => true | _ => false end.

Definition userMessage (messageId prompt : string) (file : option File)
    (isOnline : bool) : ChatMessage.t :=
  {| ChatMessage.id := messageId;
     ChatMessage.role := ChatMessage.user;
     ChatMessage.text := prompt;
     ChatMessage.status :=
       Some (if isOnline then ChatMessage.sent else ChatMessage.pending);
     ChatMessage.filePreview := createObjectURL <$> file;
     ChatMessage.fileName := name <$> file;
     ChatMessage.fileMimeType := type <$> file |}.

(** [messageId] is the text of [`${Date.now()}-${Math.random()}`];
    [isOnline] and [lang] are what the callback closed over, and so is
    [messages s].  Every [await] is taken in one step. *)
Definition sendMessage (messageId : string) (isOnline : bool) (lang : LanguageCode)
    (prompt : string) (file : option File) (s : State) : M State :=
  if blank prompt && negb (bool_decide (is_Some file)) then mret s
  else
    let s := setError None (setLoading true s) in
    let newMessages := messages s ++ [userMessage messageId prompt file isOnline] in
    s ← save newMessages s;
    if negb isOnline then
      addMessageToQueue fileToBase64 prompt file messageId lang;;
      mret (setLoading false s)
    else
      let lastMessageIndex := length newMessages in
      let apiPrompt :=
        if bool_decide (is_Some file) && blank prompt
        then "Please analyze the attached file and provide a helpful response."
        else prompt in
      emit (SendChatMessage apiPrompt file lang);;
      let stream := sendChatMessage apiPrompt file lang in
      '(l, s) ← receive_all messageId (App.chunks stream)
                  {| fullResponse := EmptyString; firstChunkReceived := false |} s;
      match App.ending stream with
      | App.Completed =>
          mret (setLoading false
                  match fullResponse l with
                  | EmptyString => s
                  | _ => setMessageToSpeak (Some (lastMessageIndex, fullResponse l)) s
                  end)
      | App.Threw message =>
          mret (setLoading false (setError (Some message) s))
      end.
End Send.

End AIChat.

(* ===================================================================== *)
(** * [context/LanguageContext.tsx] *)
(* ===================================================================== *)

Module LanguageContext.
Import JSON Platform userProfileService Preferences.

(** [v?.k]; [None] is [undefined]. *)
Definition optional_property (k : string) (v : json) : option json :=
  match v with
  | JObject ms => Props.get k ms
  | _ => None
  end.

Section Languages.
(** [languages] of [i18n] is not part of the sources at hand:
    [supported code] tells whether [languages[code]] is truthy.  This is
    a plain lookup on an object: it is truthy for a key of the table, and
    also for a name every object inherits, such as "constructor". *)
Variable supported : string -> bool.

(** The initializer of the state [lang]. *)
Definition initialLang : M LanguageCode :=
  savedProfile ← getUserProfile;
  fromProfile ← match optional_property "language" savedProfile with
                | Some (JString (String _ _ as language)) =>
                    mret (if supported language then Some language else None)
                | v => if falsy v then mret None else stuck
                end;
  match fromProfile with
  | Some language => mret language
  | None =>
      storedLang ← getItem "language";
      mret match storedLang with
           | Some (String _ _ as storedLang) =>
               if supported storedLang then storedLang else "en"
           | _ => "en"
           end
  end.

(** The provider as it mounts: the state, and the effect that stores it. *)
Definition mount : M LanguageCode :=
  lang ← initialLang;
  persistLanguage lang;;
  mret lang.

(** [setLang(newLang)] in a provider whose state is [lang], with the
    effect that follows when the state changes.  The result is the state
    afterwards. *)
Definition setLang (newLang lang : LanguageCode) : M LanguageCode :=
  if supported newLang then
    saveUserProfile [("language", Some (JString newLang))];;
    (if String.eqb newLang lang then mret tt else persistLanguage newLang);;
    mret newLang
  else mret lang.

End Languages.

End LanguageContext.

(* ===================================================================== *)
(** * [components/features/Profile.tsx] *)
(* ===================================================================== *)

Module Profile.
Import JSON Platform userProfileService.

(** The state [profile] of the form. *)
Record Form := {
  name : string;
  defaultLocation : string;
  preferredUnit : string;
  profileImage : string;
}.

Definition initial : Form :=
  {| name := EmptyString; defaultLocation := EmptyString;
     preferredUnit := "quintal"; profileImage := EmptyString |}.

(** [loadedProfile.k || d], for a field of type [string | undefined]. *)
Definition or_default (k : string) (d : string) (loadedProfile : json) : M string :=
  match LanguageContext.optional_property k loadedProfile with
  | Some (JString (String _ _ as s)) => mret s
  | v => if falsy v then mret d else stuck
  end.

(** The effect that runs as the form mounts. *)
Definition load (profile : Form) : M Form :=
  loadedProfile ← getUserProfile;
  if falsy (Some loadedProfile) then mret profile
  else
    name ← or_default "name" EmptyString loadedProfile;
    defaultLocation ← or_default "defaultLocation" EmptyString loadedProfile;
    preferredUnit ← or_default "preferredUnit" "quintal" loadedProfile;
    profileImage ← or_default "profileImage" EmptyString loadedProfile;
    mret {| name := name; defaultLocation := defaultLocation;
            preferredUnit := preferredUnit; profileImage := profileImage |}.

(** The object [profile] as [saveUserProfile] gets it. *)
Definition fields (profile : Form) : UserProfile :=
  [("name", Some (JString (name profile)));
   ("defaultLocation", Some (JString (defaultLocation profile)));
   ("preferredUnit", Some (JString (preferredUnit profile)));
   ("profileImage", Some (JString (profileImage profile)))].

(** [handleSubmit]: the profile is saved and the parent is told.  The
    message of success and its timer are left out. *)
Definition handleSubmit {A} (onProfileUpdate : M A) (profile : Form) : M A :=
  saveUserProfile (fields profile);;
  onProfileUpdate.

End Profile.

(* ===================================================================== *)
(** * [services/geminiService.ts] *)
(* ===================================================================== *)

Module geminiService.
Import JSON Platform App.

(** What a [catch] gets: an [Error] with its message, or another value. *)
Inductive Thrown := ErrorObject (message : string) | OtherValue.

(** What an [await] gives. *)
Inductive Awaited (A : Type) :=
| Resolved (a : A)
| Rejected (e : Thrown).
Arguments Resolved {A} a.
Arguments Rejected {A} e.

Record SafetyRating := { category : string; probability : string }.

(** What the generator reads of the response: [candidates?.[0]?.finishReason],
    [promptFeedback?.blockReason] and [candidates?.[0]?.safetyRatings];
    [None] is [undefined]. *)
Record Response := {
  finishReason : option string;
  blockReason : option string;
  safetyRatings : option (list SafetyRating);
}.

(** What [generateContentStream] resolves to, as the generator consumes it:
    the [text] of every chunk, in order, [None] for [undefined]; what the
    iteration throws after these chunks, if anything; and what awaiting
    [response] gives, [None] for a value that counts as false. *)
Record ResponseStream := {
  texts : list (option string);
  failure : option Thrown;
  response : Awaited (option Response);
}.

(** A part of the request: the text, or the file as [inlineData]. *)
Inductive Part :=
| TextPart (text : string)
| InlineData (data : option string) (mimeType : string).

(** [s.replace(pattern, '')] for a pattern that is a string and not empty:
    the first occurrence goes. *)
Fixpoint remove_first (pattern s : string) : string :=
  match s with
  | EmptyString => s
  | String c s' =>
      match strip_prefix pattern s with
      | Some rest => rest
      | None => String c (remove_first pattern s')
      end
  end.

Definition line_feed : string := String "010" EmptyString.

Section Service.
(** [languages] of [i18n] is not part of the sources at hand:
    [languageName code] is [languages[code]?.name].  [readAsDataURL] is the
    [FileReader]: the data URL, or [None] when the read fails, which
    rejects with the event of the error, a value that is no [Error].
    [generateContentStream] is the client of the backend. *)
Variable languageName : LanguageCode -> option string.
Variable readAsDataURL : File -> option string.
Variable generateContentStream : list Part -> Awaited ResponseStream.

Definition getLanguageName (langCode : LanguageCode) : string :=
  match languageName langCode with
  | Some (String _ _ as name) => name
  | _ => "English"
  end.

(** [fileToGenerativePart(file)]. *)
Definition fileToGenerativePart (file : File) : Awaited Part :=
  match readAsDataURL file with
  | Some result => Resolved (InlineData (split "," result !! 1) (type file))
  | None => Rejected OtherValue
  end.

(** The text of a chunk that counts as true. *)
Definition truthy_text (text : option string) : option string :=
  match text with
  | Some (String _ _ as s) => Some s
  | _ => None
  end.

(** The message for a response that was blocked for safety. *)
Definition safety_message (r : Response) : string :=
  "Response was blocked for safety reasons."
  +:+ match blockReason r with
      | Some (String _ _ as reason) => " Reason: " +:+ reason +:+ "."
      | _ => EmptyString
      end
  +:+ match safetyRatings r with
      | Some (rating :: ratings) =>
          " Details: "
          +:+ String.concat ", "
                ((fun r => remove_first "HARM_CATEGORY_" (category r)
                           +:+ " (" +:+ probability r +:+ ")")
                   <$> rating :: ratings)
      | _ => EmptyString
      end.

(** The body of the [try]: what it yields, and the value it throws, if
    any. *)
Definition attempt (prompt : string) (file : option File) (lang : LanguageCode)
  : list string * option Thrown :=
  let textPart :=
    TextPart (prompt +:+ line_feed +:+ line_feed
              +:+ "(Please provide the response in " +:+ getLanguageName lang +:+ ")") in
  let parts :=
    match file with
    | None => Resolved [textPart]
    | Some f =>
        if negb (String.prefix "image/" (type f))
           && negb (String.prefix "video/" (type f))
           && negb (String.prefix "audio/" (type f))
        then Rejected (ErrorObject
               "Unsupported file type. Please upload an image, video, or audio file.")
        else match fileToGenerativePart f with
             | Resolved filePart => Resolved [filePart; textPart]
             | Rejected e => Rejected e
             end
    end in
  match parts with
  | Rejected e => ([], Some e)
  | Resolved parts =>
      match generateContentStream parts with
      | Rejected e => ([], Some e)
      | Resolved responseStream =>
          let yielded := omap truthy_text (texts responseStream) in
          let hasYieldedText := match yielded with [] => false | _ => true end in
          match failure responseStream with
          | Some e => (yielded, Some e)
          | None =>
              match response responseStream with
              | Rejected e => (yielded, Some e)
              | Resolved None =>
                  if hasYieldedText then (yielded, None)
                  else (yielded,
                        Some (ErrorObject "The AI response was empty. This may be due to a content filter or a network issue."))
              | Resolved (Some r) =>
                  let stop := match finishReason r with
                              | Some reason => String.eqb reason "STOP"
                                               || String.eqb reason "MAX_TOKENS"
                              | None => false
                              end in
                  if negb stop && negb hasYieldedText then
                    match finishReason r with
                    | Some reason =>
                        if String.eqb reason "SAFETY"
                        then (yielded, Some (ErrorObject (safety_message r)))
                        else (yielded,
                              Some (ErrorObject
                                ("The AI response ended unexpectedly. Reason: "
                                 +:+ match reason with
                                     | EmptyString => "Unknown"
                                     | _ => reason
                                     end)))
                    | None =>
                        (yielded,
                         Some (ErrorObject
                                 "The AI response ended unexpectedly. Reason: Unknown"))
                    end
                  else (yielded, None)
              end
          end
      end
  end.

(** The [catch]: the message of the [Error] thrown again. *)
Definition rethrown (e : Thrown) : string :=
  match e with
  | ErrorObject (String _ _ as message) => message
  | ErrorObject EmptyString =>
      "Failed to get a streaming response from the AI assistant."
  | OtherValue => "An unknown error occurred while communicating with the AI assistant."
  end.

(** The generator, as its consumer sees it.  The line it writes on the
    console when it fails is left out. *)
Definition sendChatMessage (prompt : string) (file : option File) (lang : LanguageCode)
  : Stream :=
  let '(yielded, thrown) := attempt prompt file lang in
  {| chunks := yielded;
     ending := match thrown with
               | None => Completed
               | Some e => Threw (rethrown e)
               end |}.
End Service.

Section Price.
(** [generateContent] is the client of the backend, as this function uses
    it: from the [contents] of the request to the [text] of the response,
    [None] for [undefined].  [trim] is [String.prototype.trim]. *)
Variable languageName : LanguageCode -> option string.
Variable generateContent : string -> Awaited (option string).
Variable trim : string -> string.

(** The body of the [try] of [getMarketPriceForSale]: the literal of the
    number, or what is thrown.  A [TypeError] and a [SyntaxError] are
    [Error]s; their messages are the platform's and are not kept. *)
Definition price_attempt (crop location : string) (unit : option string)
    (lang : LanguageCode) : Awaited string :=
  let languageName := getLanguageName languageName lang in
  let unitText := match unit with
                  | Some (String _ _ as u) => u
                  | _ => "quintal"
                  end in
  match generateContent
          ("What is the current average wholesale market price PER " +:+ unitText
           +:+ " for " +:+ crop +:+ " in the " +:+ location
           +:+ " region? Provide ONLY a single JSON object with a "
           +:+ String quote "price" +:+ String quote " key. For example: {"
           +:+ String quote "price" +:+ String quote ": 3500}. The response should be in "
           +:+ languageName +:+ " but the JSON keys must remain in English.") with
  | Rejected e => Rejected e
  | Resolved None => Rejected (ErrorObject "TypeError")
  | Resolved (Some text) =>
      match parse (trim text) with
      | None => Rejected (ErrorObject "SyntaxError")
      | Some JNull => Rejected (ErrorObject "TypeError")
      | Some (JObject members) =>
          match Props.get "price" members with
          | Some (JNumber price) => Resolved price
          | _ => Rejected (ErrorObject "AI returned an invalid price format.")
          end
      | Some _ => Rejected (ErrorObject "AI returned an invalid price format.")
      end
  end.

(** The price, or the message of the [Error] the function rejects with. *)
Definition getMarketPriceForSale (crop location : string) (unit : option string)
    (lang : LanguageCode) : string + string :=
  match price_attempt crop location unit lang with
  | Resolved price => inl price
  | Rejected _ => inr ("Failed to get market price for " +:+ crop +:+ " from AI.")
  end.
End Price.

End geminiService.

(* ===================================================================== *)
(** * [services/locationService.ts] *)
(* ===================================================================== *)

Module locationService.
Import JSON Platform.

(** [c.toLowerCase()] for a code unit below 256. *)
Definition lower (c : ascii) : ascii :=
  let n := N_of_ascii c in
  if (N.leb 65 n && N.leb n 90)
     || (N.leb 192 n && N.leb n 222 && negb (N.eqb n 215))
  then ascii_of_N (n + 32)
  else c.

Fixpoint toLowerCase (s : string) : string :=
  match s with
  | EmptyString => EmptyString
  | String c s' => String (lower c) (toLowerCase s')
  end.

(** [hay.includes(needle)]. *)
Fixpoint includes (needle hay : string) : bool :=
  String.prefix needle hay
  || match hay with
     | String _ hay' => includes needle hay'
     | EmptyString => false
     end.

Definition simulatedLocations : list string := ["kolkata"; "bengaluru"; "bangalore"].

(** [simulatedLocations.some(...)] for a location. *)
Definition isSimulated (location : string) : bool :=
  existsb (fun simLocation => includes simLocation (toLowerCase location))
    simulatedLocations.

Section Location.
(** What the platform and the network give to one call:
    [getCurrentPosition] resolves to coordinates or rejects with an
    [Error], of which the message is kept; [coordsToLocationName] catches
    what it throws and always gives a name; [getLocationByIp] resolves to
    a name or rejects ([None]). *)
Variable Coordinates : Type.
Variable getCurrentPosition : Coordinates + string.
Variable coordsToLocationName : Coordinates -> LanguageCode -> string.
Variable getLocationByIp : option string.

(** The location, or the message of the [Error] thrown.  The lines on the
    console are left out. *)
Definition getAccurateLocation (lang : LanguageCode) : string + string :=
  let '(highAccuracyLocation, geoError) :=
    match getCurrentPosition with
    | inl position => (Some (coordsToLocationName position lang), None)
    | inr message => (None, Some message)
    end in
  let accurate :=
    match highAccuracyLocation with
    | Some (String _ _ as location) =>
        if isSimulated location then None else Some location
    | _ => None
    end in
  match accurate with
  | Some location => inl location
  | None =>
      match getLocationByIp with
      | Some ipLocationName => inl ipLocationName
      | None =>
          match geoError with
          | Some message =>
              if includes "denied" message || includes "blocked" message
              then inr message
              else inr "Could not determine your location automatically. Please enter it manually."
          | None =>
              inr "Could not determine your location automatically. Please enter it manually."
          end
      end
  end.
End Location.

End locationService.

(* ===================================================================== *)
(** * [components/features/AIChat.tsx]: the voice that reads a reply *)
(* ===================================================================== *)

Module Speech.

(** A [SpeechSynthesisVoice], as [handleToggleSpeech] reads it. *)
Record Voice := { name : string; lang : string; localService : bool }.

(** [a || b] for voices; [None] is [undefined]. *)
Definition or_else (a b : option Voice) : option Voice :=
  match a with
  | Some v => Some v
  | None => b
  end.

(** The voice [handleToggleSpeech] gives to the utterance. *)
Definition pickVoice (language : string) (voices : list Voice) : option Voice :=
  let matchingVoices := List.filter (fun voice => String.prefix language (lang voice)) voices in
  or_else (List.find (fun v => String.eqb (lang v) language && negb (localService v))
             matchingVoices)
    (or_else (List.find (fun v => String.eqb (lang v) language) matchingVoices)
       (or_else (List.find (fun v => negb (localService v)) matchingVoices)
          (head matchingVoices))).

End Speech.

(* ===================================================================== *)
(** * What the lemmas observe *)
(* ===================================================================== *)

Module Observing.
Import JSON Platform offlineService App.

(** The world after further effects. *)
Definition extend (t : list Effect) (w : World) : World :=
  {| localStorage := localStorage w; quota := quota w; clock := clock w;
     ticks := ticks w; trace := trace w ++ t |}.

(** The calls of the backend in a trace, in order. *)
Definition is_send (e : Effect) : bool :=
  match e with SendChatMessage _ _ _ => true | _ => false end.

Definition sends (t : list Effect) : list Effect := filter is_send t.

(** The writes to the store in a trace, in order. *)
Definition writes (t : list Effect) : list (string * string) :=
  omap (fun e => match e with SetItem k v => Some (k, v) | _ => None end) t.

(** The store takes every write under [key]. *)
Definition accepts (w : World) (key : string) : Prop :=
  forall value, quota w key value = true.

(** The entry [setCachedData] writes at time [timestamp]. *)
Definition cacheEntry (timestamp : string) (data : json) : json :=
  JObject [("timestamp", JString timestamp); ("data", data)].

(** An effect that changes nothing: a read, or a line on the console. *)
Definition is_quiet (e : Effect) : bool :=
  match e with GetItem _ | ConsoleError _ => true | _ => false end.

(** From [w] to [w'] nothing changed but the trace, by quiet effects. *)
Definition quiet (w w' : World) : Prop :=
  exists t, w' = extend t w /\ forallb is_quiet t = true.

Definition HISTORY : string := CACHE_PREFIX +:+ CHAT_HISTORY_KEY.
Definition OUTBOX : string := CACHE_PREFIX +:+ CHAT_OUTBOX_KEY.

(** From [w] to [w'] the store changed under the transcript's key at most. *)
Definition steady (w w' : World) : Prop :=
  quota w' = quota w /\ clock w' = clock w
  /\ forall k, k <> HISTORY -> localStorage w' !! k = localStorage w !! k.

(** The store holds the transcript [history], as [saveChatHistory] writes it. *)
Definition holds_history (w : World) (history : list ChatMessage.t) : Prop :=
  exists timestamp,
    localStorage w !! HISTORY
    = Some (stringify (cacheEntry timestamp (ChatMessage.list_to_json history))).

(** What a pass does to the backend and to the stored transcript, in the
    order of the trace: a call, or a write under the transcript's key. *)
Inductive Mark := Called (call : Effect) | Wrote.

Definition mark (e : Effect) : option Mark :=
  match e with
  | SendChatMessage _ _ _ => Some (Called e)
  | SetItem key _ => if String.eqb key HISTORY then Some Wrote else None
  | _ => None
  end.

Definition marks (t : list Effect) : list Mark := omap mark t.

(** [fullResponse] after the chunks: [fullResponse += chunk], from the
    empty string. *)
Definition accumulate (chunks : list string) : string :=
  fold_left String.append chunks EmptyString.

(** The transcript after the chunks of the reply to [q]. *)
Definition with_reply (q : QueuedMessage.t) (chunks : list string)
    (history : list ChatMessage.t) : list ChatMessage.t :=
  match chunks with
  | [] => history
  | _ => history ++ [ChatMessage.set_text (accumulate chunks) (model_message q)]
  end.

Section Outcome.
Variable atob : string -> option string.
Variable sendChatMessage : string -> option File -> LanguageCode -> Stream.

(** The transcript after the turn of [q]. *)
Definition after_turn (q : QueuedMessage.t) (history : list ChatMessage.t)
  : list ChatMessage.t :=
  let i := userMessageIndex_of q history in
  match file_of atob q with
  | None => settle ChatMessage.failed i history
  | Some file =>
      let stream := sendChatMessage (QueuedMessage.prompt q) file (QueuedMessage.lang q) in
      settle match ending stream with
             | Completed => ChatMessage.sent
             | Threw _ => ChatMessage.failed
             end i (with_reply q (chunks stream) history)
  end.

Definition after_turns (queue : list QueuedMessage.t) (history : list ChatMessage.t)
  : list ChatMessage.t :=
  fold_left (fun h q => after_turn q h) queue history.

(** The call of the backend for [q], when its file can be rebuilt. *)
Definition call_of (q : QueuedMessage.t) : option Effect :=
  file ← file_of atob q;
  Some (SendChatMessage (QueuedMessage.prompt q) file (QueuedMessage.lang q)).

Definition calls (queue : list QueuedMessage.t) : list Effect :=
  omap call_of queue.

(** The marks of the turn of [q]: its call, and then a write of the
    transcript for every chunk of its stream. *)
Definition marks_of (q : QueuedMessage.t) : list Mark :=
  match file_of atob q with
  | None => []
  | Some file =>
      let stream := sendChatMessage (QueuedMessage.prompt q) file (QueuedMessage.lang q) in
      Called (SendChatMessage (QueuedMessage.prompt q) file (QueuedMessage.lang q))
      :: repeat Wrote (length (chunks stream))
  end.

(** The marks of a pass over [queue]: those of its turns, one after the
    other, and the write of the transcript at its end. *)
Definition marks_of_pass (queue : list QueuedMessage.t) : list Mark :=
  match queue with
  | [] => []
  | _ => mjoin (marks_of <$> queue) ++ [Wrote]
  end.
End Outcome.

(** The entry of the outbox for a message sent while offline. *)
Definition queued (fileToBase64 : File -> option string)
    (prompt : string) (file : option File) (id : string) (lang : LanguageCode)
  : QueuedMessage.t :=
  {| QueuedMessage.id := id;
     QueuedMessage.prompt := prompt;
     QueuedMessage.fileData := file ≫= fileToBase64;
     QueuedMessage.fileName := f ← file; or_null (name f);
     QueuedMessage.fileMimeType := f ← file; or_null (type f);
     QueuedMessage.lang := lang |}.

(** [v.k] for a stored profile; [None] is [undefined]. *)
Definition field (k : string) (v : json) : option json :=
  match v with
  | JObject ms => Props.get k ms
  | _ => None
  end.

(** A property of a profile holds [undefined] or a JSON value. *)
Definition storable (v : option json) : bool := from_option wf true v.





(** A sequence of offline sends, as the calls of [addMessageToQueue] they
    make: prompt, file, id and language of each. *)
Definition Sent : Type := string * option File * string * LanguageCode.

Section Sends.
Variable fileToBase64 : File -> option string.

Fixpoint enqueue_all (messages : list Sent) : M unit :=
  match messages with
  | [] => mret tt
  | (prompt, file, id, lang) :: messages' =>
      addMessageToQueue fileToBase64 prompt file id lang;;
      enqueue_all messages'
  end.

Definition queued_all (messages : list Sent) : list QueuedMessage.t :=
  (fun m : Sent => let '(prompt, file, id, lang) := m in
                   queued fileToBase64 prompt file id lang) <$> messages.
End Sends.

(** A message of the model. *)
Definition is_model (m : ChatMessage.t) : bool :=
  ChatMessage.Role_eqb (ChatMessage.role m) ChatMessage.model.

(** The message the one with this id is directly followed by. *)
Definition next_after (id : string) (transcript : list ChatMessage.t)
  : option ChatMessage.t :=
  i ← list_find (fun m => String.eqb (ChatMessage.id m) id = true) transcript;
  transcript !! S i.1.

(** The message with this id is directly followed by a reply of the model. *)
Definition reply_follows (id : string) (transcript : list ChatMessage.t) : Prop :=
  exists reply, next_after id transcript = Some reply /\ is_model reply = true.

(** ** The component over time *)

(** The event that ends the stream a pass consumes: the stream returned,
    or it threw. *)
Definition ends_stream (e : Event) : bool :=
  match e with
  | Done _ | Error _ _ => true
  | _ => false
  end.

Section Machine.
Variable atob : string -> option string.

(** The states of [AppContent] and of the world it can be in: it mounts
    with the ref cleared and no pass, it takes events, and other code may
    change the world in between. *)
Inductive reachable : Component -> World -> Prop :=
| reachable_mount online w :
    reachable {| isOnline := online; isSyncing := false; passes := [] |} w
| reachable_step e c w c' w' :
    reachable c w -> step atob e c w = Some (c', w') -> reachable c' w'
| reachable_world c w w' :
    reachable c w -> reachable c w'.

(** At most one pass, and the guard is up while it runs. *)
Definition single_pass (c : Component) : Prop :=
  length (passes c) <= 1 /\ (passes c <> [] -> isSyncing c = true).

(** The calls of the backend so far, for a pass over [queue] that began
    when the calls were [base]: over, every call was made; in flight, the
    calls are those of the items up to the current one. *)
Definition in_order (queue : list QueuedMessage.t) (base : list Effect)
    (c : Component) (w : World) : Prop :=
  match passes c with
  | [] =>
      isSyncing c = false
      /\ sends (trace w) = base ++ calls atob queue
      /\ exists w1, getMessageQueue w = Some ([], w1)
  | [p] =>
      isSyncing c = true
      /\ exists done,
           queue = done ++ current p :: rest p
           /\ sends (trace w) = base ++ calls atob (done ++ [current p])
  | _ => False
  end.
End Machine.

End Observing.

(* ===================================================================== *)
(** * Concrete worlds and messages *)
(* ===================================================================== *)

Module Scenario.
Import JSON Platform offlineService App Observing.

(** An empty store that takes every write, and a clock. *)
Definition fresh : World :=
  {| localStorage := ∅;
     quota := fun _ _ => true;
     clock := fun n => "2025-03-01T08:00:0" +:+ pretty (n `mod` 10) +:+ ".000Z";
     ticks := 0;
     trace := [] |}.

Definition user_message (id text : string) (status : ChatMessage.Status)
  : ChatMessage.t :=
  {| ChatMessage.id := id; ChatMessage.role := ChatMessage.user;
     ChatMessage.text := text; ChatMessage.filePreview := None;
     ChatMessage.fileName := None; ChatMessage.fileMimeType := None;
     ChatMessage.status := Some status |}.

Definition model_reply (id text : string) : ChatMessage.t :=
  {| ChatMessage.id := id; ChatMessage.role := ChatMessage.model;
     ChatMessage.text := text; ChatMessage.filePreview := None;
     ChatMessage.fileName := None; ChatMessage.fileMimeType := None;
     ChatMessage.status := None |}.

Definition text_only (id prompt : string) (lang : LanguageCode) : QueuedMessage.t :=
  {| QueuedMessage.id := id; QueuedMessage.prompt := prompt;
     QueuedMessage.fileData := None; QueuedMessage.fileName := None;
     QueuedMessage.fileMimeType := None; QueuedMessage.lang := lang |}.

(** The world [op] leaves. *)
Definition after {A} (op : M A) (w : World) : World :=
  match op w with
  | Some (_, w') => w'
  | None => w
  end.

(** No file is converted, no text decoded. *)
Definition no_conversion (f : File) : option string := None.
Definition no_atob (s : string) : option string := None.

(** Two messages sent while offline: "a" and then "b". *)
Definition offline : World :=
  after (saveChatHistory [user_message "a" "hello" ChatMessage.pending];;
         addMessageToQueue no_conversion "hello" None "a" "en";;
         saveChatHistory [user_message "a" "hello" ChatMessage.pending;
                          user_message "b" "status?" ChatMessage.pending];;
         addMessageToQueue no_conversion "status?" None "b" "en") fresh.

(** A backend that answers "hello" in two chunks and fails anything else
    before its first chunk. *)
Definition answers_hello (prompt : string) (file : option File) (lang : LanguageCode)
  : Stream :=
  if String.eqb prompt "hello"
  then {| chunks := ["Hel"; "lo!"]; ending := Completed |}
  else {| chunks := []; ending := Threw "Failed to fetch" |}.

(** A backend that sends two chunks and then fails. *)
Definition breaks_off (prompt : string) (file : option File) (lang : LanguageCode)
  : Stream :=
  {| chunks := ["Hel"; "lo!"]; ending := Threw "network error" |}.

(** One message sent while offline. *)
Definition one_offline : World :=
  after (saveChatHistory [user_message "a" "hello" ChatMessage.pending];;
         addMessageToQueue no_conversion "hello" None "a" "en") fresh.

(** The chat as it shows the transcript of [one_offline]. *)
Definition chat_opened : AIChat.State :=
  {| AIChat.messages := [user_message "a" "hello" ChatMessage.pending];
     AIChat.loading := false; AIChat.error := None;
     AIChat.messageToSpeak := None |}.

(** [trim] on text without white space other than the space, and an
    object URL. *)
Fixpoint trim_left (s : string) : string :=
  match s with
  | String " " s' => trim_left s'
  | _ => s
  end.

Definition trim_ascii (s : string) : string :=
  String.rev (trim_left (String.rev (trim_left s))).

Definition object_url (f : File) : string := "blob:" +:+ name f.

(** A photo whose conversion fails. *)
Definition photo : File :=
  {| name := "leaf.jpg"; type := "image/jpeg"; bytes := "JFIF" |}.

(** [AppContent] as it mounts while offline. *)
Definition idle : Component :=
  {| isOnline := false; isSyncing := false; passes := [] |}.

(** The component and the world once the connection is back: the pass
    awaits the first chunk of the answer to "a". *)
Definition draining : Component * World :=
  match step no_atob (Online true) idle offline with
  | Some cw => cw
  | None => (idle, offline)
  end.

End Scenario.

(* ===================================================================== *)
(** * Runs of several operations *)
(* ===================================================================== *)

Module Runs.
Import JSON Platform offlineService userProfileService App Observing.


(** Nothing usable is stored under [key]: no item, text that does not
    parse, or an entry whose [data] counts as false. *)
Definition unusable (w : World) (key : string) : Prop :=
  localStorage w !! (CACHE_PREFIX +:+ key) = None
  \/ exists text,
       localStorage w !! (CACHE_PREFIX +:+ key) = Some text
       /\ match parse text with
          | None => True
          | Some v => falsy (optional_data v) = true
          end.

(** The whole numbers a double holds exactly. *)
Definition safe_integer (n : Z) : Prop := (Z.abs n < 2 ^ 53)%Z.

(** Two messages that differ in their status at most. *)
Definition same_but_status (m m' : ChatMessage.t) : Prop :=
  ChatMessage.id m' = ChatMessage.id m
  /\ ChatMessage.role m' = ChatMessage.role m
  /\ ChatMessage.text m' = ChatMessage.text m
  /\ ChatMessage.filePreview m' = ChatMessage.filePreview m
  /\ ChatMessage.fileName m' = ChatMessage.fileName m
  /\ ChatMessage.fileMimeType m' = ChatMessage.fileMimeType m.

(** What a pass over [queue] can make of a message: it differs in its
    status at most, and it is as it was when no queued message has its
    id. *)
Definition settled (queue : list QueuedMessage.t) (m m' : ChatMessage.t) : Prop :=
  same_but_status m m'
  /\ (Forall (fun q => QueuedMessage.id q <> ChatMessage.id m) queue -> m' = m).

(** A reply to the queued message [q]: a message of the model whose id is
    the id of [q] followed by "-model". *)
Definition reply_to (q : QueuedMessage.t) (m : ChatMessage.t) : Prop :=
  ChatMessage.id m = QueuedMessage.id q +:+ "-model"
  /\ ChatMessage.role m = ChatMessage.model.

(** The file the pass hands to the backend for an attachment that went
    through the outbox: an empty name or type is replaced. *)
Definition rebuilt (f : File) (decoded : string) : File :=
  {| name := match name f with EmptyString => "offline-file" | s => s end;
     type := match type f with EmptyString => "application/octet-stream" | s => s end;
     bytes := decoded |}.

(** The reply the chat shows for the chunks received so far: none before
    the first chunk. *)
Definition reply_of (messageId : string) (received : list string)
  : list ChatMessage.t :=
  match received with
  | [] => []
  | _ => [ChatMessage.set_text (accumulate received) (AIChat.aiMessage messageId)]
  end.

(** The chat shows what the store holds. *)
Definition in_step (s : AIChat.State) (w : World) : Prop :=
  fst <$> getChatHistory w = Some (AIChat.messages s).

(** The profile [saveUserProfile] merges into: the stored one, or the empty
    object when none is stored. *)
Definition merged_base (stored : json) : json :=
  match stored with
  | JObject ms => JObject ms
  | _ => JObject []
  end.

(** Nothing usable is stored as the profile: no item, or text that does not
    parse. *)
Definition no_profile (w : World) : Prop :=
  localStorage w !! userProfileService.PROFILE_KEY = None
  \/ exists text,
       localStorage w !! userProfileService.PROFILE_KEY = Some text
       /\ parse text = None.

(** The field [language] of a stored profile is of its type: absent, a
    string, or a value that counts as false. *)
Definition typed_language (stored : json) : Prop :=
  match field "language" stored with
  | None | Some (JString _) => True
  | Some v => falsy (Some v) = true
  end.

(** The language [initialLang] takes from the item "language", and the one
    it takes from the profile, if any. *)
Definition from_item (supported : string -> bool) (item : option string) : string :=
  match item with
  | Some (String _ _ as storedLang) => if supported storedLang then storedLang else "en"
  | _ => "en"
  end.

Definition from_profile (supported : string -> bool) (language : option json)
  : option string :=
  match language with
  | Some (JString (String _ _ as l)) => if supported l then Some l else None
  | _ => None
  end.

(** The fields of a stored profile that the form shows are of their type:
    absent or strings. *)
Definition typed_form_fields (stored : json) : Prop :=
  forall k, k ∈ ["name"; "defaultLocation"; "preferredUnit"; "profileImage"] ->
    field k stored = None \/ exists s, field k stored = Some (JString s).

(** The profile [load] shows for a saved form: an empty unit shows as
    the default one. *)
Definition shown (form : Profile.Form) : Profile.Form :=
  {| Profile.name := Profile.name form;
     Profile.defaultLocation := Profile.defaultLocation form;
     Profile.preferredUnit :=
       match Profile.preferredUnit form with
       | EmptyString => "quintal"
       | unit => unit
       end;
     Profile.profileImage := Profile.profileImage form |}.

End Runs.

(* ===================================================================== *)
(** * Concrete backends, places and voices *)
(* ===================================================================== *)

Module Samples.
Import JSON Platform App geminiService.

Definition no_language_names (code : LanguageCode) : option string := None.

(** A reader that gives a data URL for every file. *)
Definition reads (f : File) : option string := Some ("data:" +:+ type f +:+ ";base64,SkZJRg==").

(** A backend that sends two texts and gives no response object. *)
Definition answers (parts : list Part) : Awaited ResponseStream :=
  Resolved {| texts := [Some "Hel"; None; Some "lo!"];
              failure := None;
              response := Resolved None |}.

(** A backend that ends with nothing said, and is done. *)
Definition silent (parts : list Part) : Awaited ResponseStream :=
  Resolved {| texts := [];
              failure := None;
              response := Resolved (Some {| finishReason := Some "STOP";
                                            blockReason := None;
                                            safetyRatings := None |}) |}.

Definition spreadsheet : File :=
  {| name := "prices.csv"; type := "text/csv"; bytes := "a,b" |}.

Definition voices : list Speech.Voice :=
  [{| Speech.name := "Local English"; Speech.lang := "en-US"; Speech.localService := true |};
   {| Speech.name := "Local Hindi"; Speech.lang := "hi"; Speech.localService := true |};
   {| Speech.name := "Network Hindi (India)"; Speech.lang := "hi-IN";
      Speech.localService := false |};
   {| Speech.name := "Network Hindi"; Speech.lang := "hi"; Speech.localService := false |}].

End Samples.
Module JSONFacts.
Import JSON.
#[local] Arguments String.append !_ _ / : simpl nomatch.

Lemma append_assoc (a b c : string) : (a +:+ b) +:+ c = a +:+ (b +:+ c).
Proof. induction a as [|x a IH]; simpl; [reflexivity | now rewrite IH]. Qed.

Lemma append_nil_r (a : string) : a +:+ EmptyString = a.
Proof. induction a as [|x a IH]; simpl; [reflexivity | now rewrite IH]. Qed.

Lemma length_append (a b : string) :
  String.length (a +:+ b) = String.length a + String.length b.
Proof. induction a as [|x a IH]; simpl; [reflexivity | now rewrite IH]. Qed.

Lemma prefix_append (s k : string) : String.prefix s (s +:+ k) = true.
Proof.
  induction s as [|a s IH]; simpl.
  - now destruct k.
  - destruct (ascii_dec a a); [exact IH | congruence].
Qed.

(** *** String literals *)

Lemma parse_chars_escape_char (c : ascii) (t : string) :
  parse_chars (escape_char c +:+ t) =
  '(str, rest) ← parse_chars t; Some (String c str, rest).
Proof.
  destruct c as [[] [] [] [] [] [] [] []]; reflexivity.
Qed.

Lemma parse_chars_escape (s rest : string) :
  parse_chars (escape s +:+ String quote rest) = Some (s, rest).
Proof.
  induction s as [|c s IH]; [reflexivity |].
  cbn [escape]. rewrite append_assoc, parse_chars_escape_char, IH. reflexivity.
Qed.

Lemma parse_chars_print_string (s rest : string) :
  parse_chars (escape s +:+ String quote EmptyString +:+ rest) = Some (s, rest).
Proof. apply parse_chars_escape. Qed.


(** *** Number literals *)

Ltac bits c := destruct c as [[] [] [] [] [] [] [] []].

Lemma digit_num_char c : is_digit c = true -> is_num_char c = true.
Proof. unfold is_num_char. intros ->. reflexivity. Qed.

Lemma all_digits_num s : all_digits s = true -> all_num_chars s = true.
Proof.
  induction s as [|c s IH]; simpl; [reflexivity |].
  intros [Hc Hs]%andb_true_iff. rewrite (digit_num_char _ Hc). simpl. auto.
Qed.

Lemma nonempty_digits_num s : nonempty_digits s = true -> all_num_chars s = true.
Proof. destruct s; [discriminate | apply all_digits_num]. Qed.

Lemma valid_exponent_num s : valid_exponent s = true -> all_num_chars s = true.
Proof.
  destruct s as [|c s]; [discriminate |].
  bits c; simpl; intros H; try discriminate;
    first [ apply nonempty_digits_num in H; exact H
          | apply all_digits_num in H; exact H ].
Qed.

Lemma valid_fraction_digits_num s :
  valid_fraction_digits s = true -> all_num_chars s = true.
Proof.
  induction s as [|c s IH]; [reflexivity |].
  cbn [valid_fraction_digits all_num_chars].
  destruct (is_digit c) eqn:Hd.
  - intros H. rewrite (digit_num_char _ Hd). simpl. auto.
  - intros [Hc Hs]%andb_true_iff. apply valid_exponent_num in Hs. rewrite Hs.
    rewrite andb_true_r. unfold is_num_char.
    apply orb_true_iff in Hc as [-> | ->]; rewrite ?orb_true_r; reflexivity.
Qed.

Lemma valid_after_int_num s : valid_after_int s = true -> all_num_chars s = true.
Proof.
  destruct s as [|c s]; [reflexivity |].
  bits c; try discriminate; cbn - [valid_fraction_digits valid_exponent is_digit all_num_chars];
    try (intros H; apply valid_exponent_num in H; simpl; exact H).
  destruct s as [|d s]; [discriminate |].
  intros [Hd Hs]%andb_true_iff. apply valid_fraction_digits_num in Hs.
  cbn [all_num_chars]. rewrite (digit_num_char _ Hd), Hs. reflexivity.
Qed.

Lemma valid_int_tail_num s : valid_int_tail s = true -> all_num_chars s = true.
Proof.
  induction s as [|c s IH]; [reflexivity |].
  cbn [valid_int_tail]. destruct (is_digit c) eqn:Hd.
  - intros H. cbn [all_num_chars]. rewrite (digit_num_char _ Hd). simpl. auto.
  - apply valid_after_int_num.
Qed.

Lemma valid_unsigned_num s :
  valid_unsigned s = true ->
  exists c s', s = String c s' /\ is_digit c = true /\ all_num_chars s' = true.
Proof.
  destruct s as [|c s]; [discriminate |]. intros H. exists c, s. split; [reflexivity |].
  bits c; try discriminate; cbn - [valid_after_int valid_int_tail all_num_chars] in H;
    (split; [reflexivity |]);
    first [ apply valid_after_int_num; exact H | apply valid_int_tail_num; exact H ].
Qed.

Lemma valid_number_num s :
  valid_number s = true ->
  exists c s', s = String c s' /\ (is_digit c || Ascii.eqb c "-") = true
    /\ all_num_chars s' = true.
Proof.
  destruct s as [|c s]; [discriminate |]. intros H.
  destruct (Ascii.eqb c "-") eqn:Hm.
  - apply Ascii.eqb_eq in Hm. subst c. cbn [valid_number] in H.
    apply valid_unsigned_num in H as (d & s' & -> & Hd & Hs).
    exists "-"%char, (String d s'). split; [reflexivity |]. split; [reflexivity |].
    cbn [all_num_chars]. rewrite (digit_num_char _ Hd), Hs. reflexivity.
  - assert (valid_unsigned (String c s) = true) as Hu.
    { revert H Hm. bits c; try discriminate; intros H _; exact H. }
    apply valid_unsigned_num in Hu as (d & s' & [= <- <-] & Hd & Hs).
    exists c, s. rewrite Hd. auto.
Qed.

Lemma span_number_app tok rest :
  all_num_chars tok = true -> follow_ok rest ->
  span_number (tok +:+ rest) = (tok, rest).
Proof.
  intros Htok Hrest. induction tok as [|c tok IH]; simpl.
  - destruct rest as [|c rest]; [reflexivity |]. simpl in *. rewrite Hrest. reflexivity.
  - simpl in Htok. apply andb_true_iff in Htok as [-> Htok]. rewrite (IH Htok). reflexivity.
Qed.

(** *** Values *)

Lemma json_ind' (P : json -> Prop) :
  P JNull -> (forall b, P (JBool b)) -> (forall lit, P (JNumber lit)) ->
  (forall s, P (JString s)) ->
  (forall l, Forall P l -> P (JArray l)) ->
  (forall ms, Forall (fun kv => P kv.2) ms -> P (JObject ms)) ->
  forall v, P v.
Proof.
  intros Hnull Hbool Hnum Hstr Harr Hobj.
  fix IH 1. intros [| b | lit | s | l | ms].
  - exact Hnull.
  - apply Hbool.
  - apply Hnum.
  - apply Hstr.
  - apply Harr. induction l as [|x l IHl]; constructor; [apply IH | exact IHl].
  - apply Hobj. induction ms as [|[k x] ms IHms]; constructor; [apply IH | exact IHms].
Qed.

Lemma head_char_facts c :
  head_char c = true ->
  is_ws c = false /\ Ascii.eqb c "]" = false /\ Ascii.eqb c "}" = false.
Proof. bits c; first [discriminate | intros _; repeat split]. Qed.

Lemma num_start_facts c :
  (is_digit c || Ascii.eqb c "-") = true ->
  is_ws c = false /\ Ascii.eqb c "n" = false /\ Ascii.eqb c "t" = false
  /\ Ascii.eqb c "f" = false /\ Ascii.eqb c quote = false
  /\ Ascii.eqb c "[" = false /\ Ascii.eqb c "{" = false.
Proof. bits c; first [discriminate | intros _; repeat split]. Qed.

Lemma print_head v :
  wf v = true -> exists c s, print v = String c s /\ head_char c = true.
Proof.
  destruct v as [| [] | lit | s | l | ms]; simpl; intros Hwf;
    try (eexists _, _; split; [reflexivity | reflexivity]).
  apply valid_number_num in Hwf as (c & s' & -> & Hc & _).
  exists c, s'. split; [reflexivity |]. unfold head_char. rewrite Hc. reflexivity.
Qed.

Lemma parse_value_S fuel s :
  parse_value (S fuel) s =
  match skip_ws s with
  | EmptyString => None
  | String c rest =>
      if Ascii.eqb c "n" then r ← strip_prefix "ull" rest; Some (JNull, r)
      else if Ascii.eqb c "t" then r ← strip_prefix "rue" rest; Some (JBool true, r)
      else if Ascii.eqb c "f" then r ← strip_prefix "alse" rest; Some (JBool false, r)
      else if Ascii.eqb c quote then
        '(str, r) ← parse_chars rest; Some (JString str, r)
      else if Ascii.eqb c "[" then
        match skip_ws rest with
        | EmptyString => None
        | String c' r =>
            if Ascii.eqb c' "]" then Some (JArray [], r)
            else '(l, r) ← parse_items fuel rest; Some (JArray l, r)
        end
      else if Ascii.eqb c "{" then
        match skip_ws rest with
        | EmptyString => None
        | String c' r =>
            if Ascii.eqb c' "}" then Some (JObject [], r)
            else '(ms, r) ← parse_members fuel rest;
                 Some (JObject (build_object ms), r)
        end
      else if is_digit c || Ascii.eqb c "-" then
        let '(tok, r) := span_number (String c rest) in
        if valid_number tok then Some (JNumber tok, r) else None
      else None
  end.
Proof. reflexivity. Qed.

Lemma parse_items_S fuel s :
  parse_items (S fuel) s =
  '(v, r) ← parse_value fuel s;
  match skip_ws r with
  | EmptyString => None
  | String c r' =>
      if Ascii.eqb c "," then
        '(vs, r'') ← parse_items fuel r'; Some (v :: vs, r'')
      else if Ascii.eqb c "]" then Some ([v], r')
      else None
  end.
Proof. reflexivity. Qed.

Lemma parse_members_S fuel s :
  parse_members (S fuel) s =
  match skip_ws s with
  | EmptyString => None
  | String c r0 =>
      if Ascii.eqb c quote then
        '(k, r1) ← parse_chars r0;
        match skip_ws r1 with
        | EmptyString => None
        | String c1 r2 =>
            if Ascii.eqb c1 ":" then
              '(v, r3) ← parse_value fuel r2;
              match skip_ws r3 with
              | EmptyString => None
              | String c3 r4 =>
                  if Ascii.eqb c3 "," then
                    '(ms, r5) ← parse_members fuel r4; Some ((k, v) :: ms, r5)
                  else if Ascii.eqb c3 "}" then Some ([(k, v)], r4)
                  else None
              end
            else None
        end
      else None
  end.
Proof. reflexivity. Qed.

Lemma skip_ws_cons c s : is_ws c = false -> skip_ws (String c s) = String c s.
Proof. simpl. intros ->. reflexivity. Qed.

Ltac skip := rewrite skip_ws_cons by reflexivity.

Lemma parse_items_print (l : list json) :
  Forall reads_back l -> forallb wf l = true -> l <> [] ->
  forall fuel rest,
  String.length (join_commas print l) < fuel ->
  parse_items fuel (join_commas print l +:+ String "]" rest) = Some (l, rest).
Proof.
  induction 1 as [|x l Hx Hl IH]; [congruence |].
  cbn [forallb]. intros [Hwx Hwl]%andb_true_iff _ fuel rest Hfuel.
  destruct fuel as [|fuel]; [lia |]. rewrite parse_items_S.
  destruct l as [|y l].
  - cbn [join_commas] in *. rewrite (Hx Hwx); [| lia | reflexivity].
    cbn - [skip_ws]. skip. reflexivity.
  - change (join_commas print (x :: y :: l))
      with (print x +:+ "," +:+ join_commas print (y :: l)) in *.
    rewrite !length_append in Hfuel. cbn [String.length] in Hfuel.
    rewrite !append_assoc. rewrite (Hx Hwx); [| lia | reflexivity].
    cbn - [parse_items join_commas skip_ws]. skip.
    cbn - [parse_items join_commas skip_ws].
    rewrite IH; [reflexivity | exact Hwl | congruence | lia].
Qed.

Lemma print_member_app k x t :
  print_member (k, x) +:+ t
  = String quote (escape k +:+ String quote (String ":" (print x +:+ t))).
Proof.
  unfold print_member, print_string. cbn [fst snd].
  rewrite !append_assoc. simpl. rewrite !append_assoc. reflexivity.
Qed.

Lemma length_print_member k x :
  String.length (print_member (k, x))
  = String.length (escape k) + 3 + String.length (print x).
Proof.
  unfold print_member, print_string. cbn [fst snd].
  rewrite !length_append. cbn [String.length]. rewrite !length_append.
  cbn [String.length]. lia.
Qed.

Lemma parse_members_print (ms : list (string * json)) :
  Forall (fun kv => reads_back kv.2) ms ->
  forallb (fun kv => wf kv.2) ms = true -> ms <> [] ->
  forall fuel rest,
  String.length (join_commas print_member ms) < fuel ->
  parse_members fuel (join_commas print_member ms +:+ String "}" rest)
  = Some (ms, rest).
Proof.
  induction 1 as [|[k x] ms Hx Hms IH]; [congruence |].
  cbn [forallb]. intros [Hwx Hwms]%andb_true_iff _ fuel rest Hfuel.
  destruct fuel as [|fuel]; [lia |]. rewrite parse_members_S.
  simpl in Hx, Hwx.
  destruct ms as [|y ms].
  - cbn [join_commas] in *. rewrite length_print_member in Hfuel.
    rewrite print_member_app. skip.
    cbn - [parse_chars parse_value skip_ws]. rewrite parse_chars_escape.
    cbn - [parse_chars parse_value skip_ws]. skip.
    cbn - [parse_chars parse_value skip_ws]. rewrite (Hx Hwx); [| lia | reflexivity].
    cbn - [skip_ws]. skip. reflexivity.
  - change (join_commas print_member ((k, x) :: y :: ms))
      with (print_member (k, x) +:+ "," +:+ join_commas print_member (y :: ms)) in *.
    rewrite length_append, length_print_member in Hfuel.
    rewrite length_append in Hfuel. cbn [String.length] in Hfuel.
    rewrite append_assoc, print_member_app. skip.
    cbn - [parse_chars parse_value parse_members join_commas skip_ws].
    rewrite parse_chars_escape.
    cbn - [parse_chars parse_value parse_members join_commas skip_ws]. skip.
    cbn - [parse_chars parse_value parse_members join_commas skip_ws].
    rewrite (Hx Hwx); [| lia | reflexivity].
    cbn - [parse_chars parse_value parse_members join_commas skip_ws]. skip.
    cbn - [parse_chars parse_value parse_members join_commas skip_ws].
    rewrite IH; [reflexivity | exact Hwms | congruence | lia].
Qed.

Lemma set_fresh {V} k (v : V) (ms : list (string * V)) :
  k ∉ Props.keys ms -> Props.set k v ms = ms ++ [(k, v)].
Proof.
  induction ms as [|[k' v'] ms IH]; simpl; [reflexivity |].
  intros Hk. apply not_elem_of_cons in Hk as [Hne Hk].
  destruct (String.eqb_spec k k') as [-> | _]; [congruence |].
  now rewrite IH.
Qed.

Lemma spread_nodup {V} (ms acc : list (string * V)) :
  NoDup (Props.keys (acc ++ ms)) -> Props.spread acc ms = acc ++ ms.
Proof.
  unfold Props.spread. revert acc. induction ms as [|[k v] ms IH]; intros acc Hnd; simpl.
  - now rewrite app_nil_r.
  - rewrite set_fresh.
    + rewrite IH; rewrite <- app_assoc; [reflexivity | exact Hnd].
    + unfold Props.keys in *. rewrite map_app in Hnd. simpl in Hnd.
      apply NoDup_app in Hnd as (_ & Hdisj & _).
      intros Hin. apply (Hdisj k Hin). left.
Qed.

Lemma build_object_nodup (ms : list (string * json)) :
  NoDup (Props.keys ms) -> build_object ms = ms.
Proof. intros H. unfold build_object. now rewrite spread_nodup. Qed.

Lemma print_object ms :
  print (JObject ms) = String "{" (join_commas print_member ms +:+ "}").
Proof. reflexivity. Qed.

Lemma print_array l :
  print (JArray l) = String "[" (join_commas print l +:+ "]").
Proof. reflexivity. Qed.

Lemma join_head {A} (f : A -> string) (x : A) (l : list A) (c : ascii) (s : string) :
  f x = String c s -> exists s', join_commas f (x :: l) = String c s'.
Proof.
  intros H. destruct l as [|y l]; cbn [join_commas]; rewrite H; simpl; eauto.
Qed.

Lemma parse_value_print (v : json) : reads_back v.
Proof.
  induction v as [| b | lit | s | l IHl | ms IHms] using json_ind';
    intros Hwf fuel rest Hfuel Hrest.
  - destruct fuel as [|fuel]; [simpl in Hfuel; lia | reflexivity].
  - destruct fuel as [|fuel]; [destruct b; simpl in Hfuel; lia |].
    destruct b; reflexivity.
  - simpl in Hwf. destruct (valid_number_num _ Hwf) as (c & s' & -> & Hc & Hs').
    destruct fuel as [|fuel]; [simpl in Hfuel; lia |].
    rewrite parse_value_S. cbn [print].
    destruct (num_start_facts _ Hc) as (Hws & H1 & H2 & H3 & H4 & H5 & H6).
    change (String c s' +:+ rest) with (String c (s' +:+ rest)).
    rewrite skip_ws_cons by exact Hws.
    rewrite H1, H2, H3, H4, H5, H6, Hc.
    change (String c (s' +:+ rest)) with (String c s' +:+ rest).
    rewrite span_number_app.
    + now rewrite Hwf.
    + cbn [all_num_chars]. rewrite Hs', andb_true_r. unfold is_num_char.
      rewrite Hc. reflexivity.
    + exact Hrest.
  - destruct fuel as [|fuel]; [simpl in Hfuel; lia |].
    rewrite parse_value_S. cbn [print]. unfold print_string.
    change (String quote (escape s +:+ String quote EmptyString) +:+ rest)
      with (String quote ((escape s +:+ String quote EmptyString) +:+ rest)).
    skip. cbn - [parse_chars]. rewrite append_assoc.
    change (String quote EmptyString +:+ rest) with (String quote rest).
    rewrite parse_chars_escape. reflexivity.
  - rewrite print_array in *. cbn [String.length] in Hfuel.
    rewrite length_append in Hfuel. cbn [String.length] in Hfuel.
    destruct fuel as [|fuel]; [lia |].
    rewrite parse_value_S.
    change (String "[" (join_commas print l +:+ "]") +:+ rest)
      with (String "[" ((join_commas print l +:+ "]") +:+ rest)).
    skip. cbn - [parse_items skip_ws join_commas]. rewrite append_assoc.
    change ("]" +:+ rest) with (String "]" rest).
    destruct l as [|x l].
    + reflexivity.
    + simpl in Hwf. pose proof Hwf as Hwf'. apply andb_true_iff in Hwf' as [Hwx _].
      destruct (print_head x Hwx) as (c & s & Hp & Hc).
      destruct (join_head print x l c s Hp) as (s' & Hj).
      destruct (head_char_facts c Hc) as (Hws & Hnb & _).
      rewrite Hj at 1.
      change (String c s' +:+ String "]" rest) with (String c (s' +:+ String "]" rest)).
      rewrite skip_ws_cons by exact Hws. rewrite Hnb.
      rewrite parse_items_print; [reflexivity | exact IHl | exact Hwf | congruence | lia].
  - rewrite print_object in *. cbn [String.length] in Hfuel.
    rewrite length_append in Hfuel. cbn [String.length] in Hfuel.
    destruct fuel as [|fuel]; [lia |].
    rewrite parse_value_S.
    change (String "{" (join_commas print_member ms +:+ "}") +:+ rest)
      with (String "{" ((join_commas print_member ms +:+ "}") +:+ rest)).
    skip. cbn - [parse_members skip_ws join_commas]. rewrite append_assoc.
    change ("}" +:+ rest) with (String "}" rest).
    destruct ms as [|[k x] ms].
    + reflexivity.
    + cbn [wf] in Hwf. apply andb_true_iff in Hwf as [Hnd Hwf].
      apply bool_decide_eq_true in Hnd.
      destruct (join_head print_member (k, x) ms quote
                  ((escape k +:+ String quote EmptyString) +:+ ":" +:+ print x))
        as (s' & Hj); [reflexivity |].
      rewrite Hj at 1.
      change (String quote s' +:+ String "}" rest)
        with (String quote (s' +:+ String "}" rest)).
      skip. cbn - [parse_members skip_ws join_commas].
      rewrite parse_members_print; [| exact IHms | exact Hwf | congruence | lia].
      cbn [mbind option_bind]. now rewrite build_object_nodup.
Qed.

(** [JSON.parse(JSON.stringify(v))] gives [v] back. *)
Lemma parse_stringify (v : json) : wf v = true -> parse (stringify v) = Some v.
Proof.
  intros Hwf. unfold parse, stringify.
  pose proof (parse_value_print v Hwf (String.length (print v)) EmptyString) as H.
  rewrite append_nil_r in H. rewrite H; [reflexivity | lia | exact I].
Qed.

Lemma stringify_nonempty (v : json) : wf v = true -> stringify v <> EmptyString.
Proof.
  intros Hwf. destruct (print_head v Hwf) as (c & s & H & _).
  unfold stringify. rewrite H. discriminate.
Qed.

(** *** What the parser returns is well formed *)

Lemma set_keys_nodup {V} k (v : V) (ms : list (string * V)) :
  NoDup (Props.keys ms) -> NoDup (Props.keys (Props.set k v ms)).
Proof.
  induction ms as [|[k' v'] ms IH]; simpl; intros Hnd.
  - apply NoDup_singleton.
  - apply NoDup_cons in Hnd as [Hk' Hnd].
    destruct (String.eqb_spec k k') as [-> | Hne]; simpl.
    + now apply NoDup_cons.
    + apply NoDup_cons. split; [| auto].
      intros Hin. apply Hk'. clear -Hin Hne.
      induction ms as [|[k2 v2] ms IH]; simpl in *.
      * apply list_elem_of_singleton in Hin. congruence.
      * destruct (String.eqb_spec k k2) as [-> | Hne2]; simpl in Hin.
        -- apply elem_of_cons in Hin as [-> | Hin]; [congruence | now right].
        -- apply elem_of_cons in Hin as [-> | Hin]; [left | right; auto].
Qed.

Lemma set_forallb {V} (P : V -> bool) k (v : V) (ms : list (string * V)) :
  P v = true -> forallb (fun kv => P kv.2) ms = true ->
  forallb (fun kv => P kv.2) (Props.set k v ms) = true.
Proof.
  intros Hv. induction ms as [|[k' v'] ms IH]; simpl.
  - now rewrite Hv.
  - intros [Hv' Hms]%andb_true_iff. destruct (String.eqb k k'); simpl.
    + now rewrite Hv, Hms.
    + now rewrite Hv', IH.
Qed.

Lemma spread_keys_nodup {V} (ext base : list (string * V)) :
  NoDup (Props.keys base) -> NoDup (Props.keys (Props.spread base ext)).
Proof.
  unfold Props.spread. revert base.
  induction ext as [|[k v] ext IH]; intros base Hnd; simpl; [exact Hnd |].
  apply IH. now apply set_keys_nodup.
Qed.

Lemma spread_forallb {V} (P : V -> bool) (ext base : list (string * V)) :
  forallb (fun kv => P kv.2) base = true ->
  forallb (fun kv => P kv.2) ext = true ->
  forallb (fun kv => P kv.2) (Props.spread base ext) = true.
Proof.
  unfold Props.spread. revert base.
  induction ext as [|[k v] ext IH]; intros base Hb; simpl; [auto |].
  intros [Hv He]%andb_true_iff. apply IH; [| exact He]. now apply set_forallb.
Qed.

Lemma wf_build_object (ms : list (string * json)) :
  forallb (fun kv => wf kv.2) ms = true -> wf (JObject (build_object ms)) = true.
Proof.
  intros H. cbn [wf]. apply andb_true_iff. split.
  - apply bool_decide_eq_true. apply spread_keys_nodup. constructor.
  - apply spread_forallb; [reflexivity | exact H].
Qed.

Lemma parse_wf_fuel (fuel : nat) :
  (forall s v r, parse_value fuel s = Some (v, r) -> wf v = true)
  /\ (forall s l r, parse_items fuel s = Some (l, r) -> forallb wf l = true)
  /\ (forall s ms r, parse_members fuel s = Some (ms, r) ->
       forallb (fun kv => wf kv.2) ms = true).
Proof.
  induction fuel as [|fuel (IHv & IHi & IHm)]; [repeat split; discriminate |].
  repeat split.
  - intros s v r. rewrite parse_value_S.
    destruct (skip_ws s) as [|c t]; [discriminate |].
    repeat (case_match; [intros; simplify_option_eq; reflexivity |]).
    case_match.
    { destruct (parse_chars t) as [[str t1]|]; [| discriminate].
      intros [= <- <-]. reflexivity. }
    case_match.
    { destruct (skip_ws t) as [|c' t']; [discriminate |].
      case_match; [intros [= <- <-]; reflexivity |].
      destruct (parse_items fuel t) as [[its t2]|] eqn:Hi; [| discriminate].
      intros [= <- <-]. cbn [wf]. eauto. }
    case_match.
    { destruct (skip_ws t) as [|c' t']; [discriminate |].
      case_match; [intros [= <- <-]; reflexivity |].
      destruct (parse_members fuel t) as [[mbs t2]|] eqn:Hm; [| discriminate].
      intros [= <- <-]. apply wf_build_object. eauto. }
    case_match; [| discriminate].
    destruct (span_number (String c t)) as [tok t2].
    destruct (valid_number tok) eqn:Hn; [| discriminate].
    intros [= <- <-]. exact Hn.
  - intros s l r. rewrite parse_items_S.
    destruct (parse_value fuel s) as [[v t]|] eqn:Hv; [| discriminate].
    cbn [mbind option_bind].
    destruct (skip_ws t) as [|c t']; [discriminate |].
    case_match.
    { destruct (parse_items fuel t') as [[its t2]|] eqn:Hi; [| discriminate].
      intros [= <- <-]. cbn [forallb]. erewrite IHv, IHi; eauto. }
    case_match; [| discriminate].
    intros [= <- <-]. cbn [forallb]. erewrite IHv; eauto.
  - intros s ms r. rewrite parse_members_S.
    destruct (skip_ws s) as [|c t]; [discriminate |].
    case_match; [| discriminate].
    destruct (parse_chars t) as [[k t1]|]; [| discriminate].
    cbn [mbind option_bind].
    destruct (skip_ws t1) as [|c1 t2]; [discriminate |].
    case_match; [| discriminate].
    destruct (parse_value fuel t2) as [[v t3]|] eqn:Hv; [| discriminate].
    cbn [mbind option_bind].
    destruct (skip_ws t3) as [|c3 t4]; [discriminate |].
    case_match.
    { destruct (parse_members fuel t4) as [[mbs t5]|] eqn:Hm; [| discriminate].
      intros [= <- <-]. cbn [forallb snd]. erewrite IHv, IHm; eauto. }
    case_match; [| discriminate].
    intros [= <- <-]. cbn [forallb snd]. erewrite IHv; eauto.
Qed.

Lemma parse_wf (text : string) (v : json) : parse text = Some v -> wf v = true.
Proof.
  unfold parse. intros H.
  destruct (parse_value _ text) as [[v' r]|] eqn:Hv; simplify_option_eq.
  case_match; simplify_eq. eapply (proj1 (parse_wf_fuel _)). eassumption.
Qed.
End JSONFacts.

(* ===================================================================== *)
(** * Facts: the types and their JSON views *)
(* ===================================================================== *)

Module ViewFacts.
Import JSON JSONFacts.

Lemma ChatMessage_of_to (m : ChatMessage.t) :
  ChatMessage.of_json (ChatMessage.to_json m) = Some m.
Proof.
  destruct m as [i [] x [fp|] [fn|] [fm|] [[]|]]; reflexivity.
Qed.

Lemma ChatMessage_wf (m : ChatMessage.t) : wf (ChatMessage.to_json m) = true.
Proof.
  destruct m as [i [] x [fp|] [fn|] [fm|] [[]|]]; vm_compute; reflexivity.
Qed.

Lemma QueuedMessage_of_to (q : QueuedMessage.t) :
  QueuedMessage.of_json (QueuedMessage.to_json q) = Some q.
Proof. destruct q as [i p [fd|] [fn|] [fm|] l]; reflexivity. Qed.

Lemma QueuedMessage_wf (q : QueuedMessage.t) : wf (QueuedMessage.to_json q) = true.
Proof. destruct q as [i p [fd|] [fn|] [fm|] l]; vm_compute; reflexivity. Qed.

Lemma wf_array {A} (f : A -> json) (l : list A) :
  (forall x, wf (f x) = true) -> wf (JArray (f <$> l)) = true.
Proof.
  intros H. cbn [wf]. induction l as [|x l IH]; [reflexivity |].
  cbn [fmap list_fmap forallb]. now rewrite H, IH.
Qed.

Lemma ChatMessage_list_of_to (l : list ChatMessage.t) :
  ChatMessage.list_of_json (ChatMessage.list_to_json l) = Some l.
Proof. apply mapM_fmap_Some, ChatMessage_of_to. Qed.

Lemma ChatMessage_list_wf (l : list ChatMessage.t) :
  wf (ChatMessage.list_to_json l) = true.
Proof. apply wf_array, ChatMessage_wf. Qed.

Lemma QueuedMessage_list_of_to (l : list QueuedMessage.t) :
  QueuedMessage.list_of_json (QueuedMessage.list_to_json l) = Some l.
Proof. apply mapM_fmap_Some, QueuedMessage_of_to. Qed.

Lemma QueuedMessage_list_wf (l : list QueuedMessage.t) :
  wf (QueuedMessage.list_to_json l) = true.
Proof. apply wf_array, QueuedMessage_wf. Qed.

Lemma wf_cacheEntry (timestamp : string) (data : json) :
  wf data = true -> wf (Observing.cacheEntry timestamp data) = true.
Proof.
  intros H. unfold Observing.cacheEntry. cbn [wf forallb snd]. rewrite H.
  reflexivity.
Qed.

End ViewFacts.
Module ServiceFacts.
Import JSON Platform Observing offlineService JSONFacts ViewFacts.

Ltac run :=
  cbv beta iota zeta delta
    [mbind M_bind mret M_ret emit modify gets stuck getItem setItem removeItem
     now console_error dispatchStorageEvent record store erase tick extend
     localStorage quota clock ticks trace].

Lemma bind_run {A B} (m : M A) (f : A -> M B) w :
  (m ≫= f) w = match m w with Some (a, w') => f a w' | None => None end.
Proof. reflexivity. Qed.

Lemma ret_run {A} (a : A) w : (mret a : M A) w = Some (a, w).
Proof. reflexivity. Qed.

Lemma getItem_run key w :
  getItem key w = Some (localStorage w !! key, extend [GetItem key] w).
Proof. reflexivity. Qed.

Lemma setItem_run key value w :
  setItem key value w =
  Some (if quota w key value
        then (true, store key value (extend [SetItem key value] w))
        else (false, extend [SetItem key value] w)).
Proof. destruct w. run. destruct (_ key value); reflexivity. Qed.

Lemma getCachedData_run key w :
  getCachedData key w =
  Some match localStorage w !! (CACHE_PREFIX +:+ key) with
       | None | Some EmptyString => (JNull, extend [GetItem (CACHE_PREFIX +:+ key)] w)
       | Some text =>
           match parse text with
           | Some v => (v, extend [GetItem (CACHE_PREFIX +:+ key)] w)
           | None =>
               (JNull,
                extend [GetItem (CACHE_PREFIX +:+ key);
                        ConsoleError ("Failed to retrieve cached data for key: " +:+ key)] w)
           end
       end.
Proof.
  destruct w as [ls q c n t]. unfold getCachedData. run.
  destruct (ls !! _) as [[|a text]|]; try reflexivity.
  destruct (parse _); [reflexivity |]. rewrite <- app_assoc. reflexivity.
Qed.

Lemma setCachedData_run key data w :
  setCachedData key data w =
  let k := CACHE_PREFIX +:+ key in
  let text := stringify (cacheEntry (clock w (ticks w)) data) in
  Some (tt, if quota w k text
            then store k text (extend [SetItem k text] (tick w))
            else extend [SetItem k text;
                         ConsoleError ("Failed to cache data for key: " +:+ key)] (tick w)).
Proof.
  destruct w as [ls q c n t]. unfold setCachedData, cacheEntry. run.
  destruct (q _ _); [reflexivity |]. rewrite <- app_assoc. reflexivity.
Qed.

Lemma getCachedData_holds key v w :
  wf v = true ->
  localStorage w !! (CACHE_PREFIX +:+ key) = Some (stringify v) ->
  getCachedData key w = Some (v, extend [GetItem (CACHE_PREFIX +:+ key)] w).
Proof.
  intros Hwf Hls. rewrite getCachedData_run, Hls.
  pose proof (stringify_nonempty v Hwf) as Hne.
  destruct (stringify v) as [|c text] eqn:Htext; [congruence |].
  rewrite <- Htext, (parse_stringify v Hwf). reflexivity.
Qed.

Lemma getCachedData_absent key w :
  localStorage w !! (CACHE_PREFIX +:+ key) = None ->
  getCachedData key w = Some (JNull, extend [GetItem (CACHE_PREFIX +:+ key)] w).
Proof. intros Hls. now rewrite getCachedData_run, Hls. Qed.

Lemma getChatHistory_holds timestamp history w :
  localStorage w !! (CACHE_PREFIX +:+ CHAT_HISTORY_KEY)
  = Some (stringify (cacheEntry timestamp (ChatMessage.list_to_json history))) ->
  getChatHistory w
  = Some (history, extend [GetItem (CACHE_PREFIX +:+ CHAT_HISTORY_KEY)] w).
Proof.
  intros Hls. unfold getChatHistory.
  cbv beta iota delta [mbind M_bind].
  rewrite (getCachedData_holds _ _ _ (wf_cacheEntry _ _ (ChatMessage_list_wf history)) Hls).
  cbn [cacheEntry optional_data Props.get String.eqb Ascii.eqb Bool.eqb].
  unfold or_empty_array, cast. cbn [falsy ChatMessage.list_to_json default].
  unfold id. now rewrite ChatMessage_list_of_to.
Qed.

Lemma getMessageQueue_holds timestamp queue w :
  localStorage w !! (CACHE_PREFIX +:+ CHAT_OUTBOX_KEY)
  = Some (stringify (cacheEntry timestamp (QueuedMessage.list_to_json queue))) ->
  getMessageQueue w
  = Some (queue, extend [GetItem (CACHE_PREFIX +:+ CHAT_OUTBOX_KEY)] w).
Proof.
  intros Hls. unfold getMessageQueue.
  cbv beta iota delta [mbind M_bind].
  rewrite (getCachedData_holds _ _ _ (wf_cacheEntry _ _ (QueuedMessage_list_wf queue)) Hls).
  cbn [cacheEntry optional_data Props.get String.eqb Ascii.eqb Bool.eqb].
  unfold or_empty_array, cast. cbn [falsy QueuedMessage.list_to_json default].
  unfold id. now rewrite QueuedMessage_list_of_to.
Qed.

Lemma getMessageQueue_absent w :
  localStorage w !! (CACHE_PREFIX +:+ CHAT_OUTBOX_KEY) = None ->
  getMessageQueue w = Some ([], extend [GetItem (CACHE_PREFIX +:+ CHAT_OUTBOX_KEY)] w).
Proof.
  intros Hls. unfold getMessageQueue. cbv beta iota delta [mbind M_bind].
  now rewrite (getCachedData_absent _ _ Hls).
Qed.

Lemma saveChatHistory_run messages w :
  saveChatHistory messages w =
  let k := CACHE_PREFIX +:+ CHAT_HISTORY_KEY in
  let text := stringify (cacheEntry (clock w (ticks w))
                           (ChatMessage.list_to_json messages)) in
  Some (tt, if quota w k text
            then store k text (extend [SetItem k text; DispatchStorageEvent k] (tick w))
            else extend [SetItem k text;
                         ConsoleError ("Failed to cache data for key: " +:+ CHAT_HISTORY_KEY);
                         DispatchStorageEvent k] (tick w)).
Proof.
  unfold saveChatHistory. cbv beta iota delta [mbind M_bind].
  rewrite setCachedData_run. cbv zeta.
  destruct w as [ls q c n t]. run.
  destruct (q _ _); rewrite <- app_assoc; reflexivity.
Qed.

(** *** Reads change nothing and see the store only *)

Lemma quiet_refl w : quiet w w.
Proof. exists []. split; [| reflexivity]. destruct w; unfold extend; simpl. now rewrite app_nil_r. Qed.

Lemma quiet_trans w1 w2 w3 : quiet w1 w2 -> quiet w2 w3 -> quiet w1 w3.
Proof.
  intros (t1 & -> & H1) (t2 & -> & H2). exists (t1 ++ t2). split.
  - destruct w1; unfold extend; simpl. now rewrite app_assoc.
  - now rewrite forallb_app, H1, H2.
Qed.

Lemma quiet_extend t w : forallb is_quiet t = true -> quiet w (extend t w).
Proof. intros H. now exists t. Qed.

Lemma quiet_store w w' : quiet w w' -> localStorage w' = localStorage w.
Proof. now intros (t & -> & _). Qed.

Lemma quiet_quota w w' : quiet w w' -> quota w' = quota w.
Proof. now intros (t & -> & _). Qed.

Lemma quiet_sends w w' : quiet w w' -> sends (trace w') = sends (trace w).
Proof.
  intros (t & -> & H). unfold sends. simpl. rewrite filter_app.
  replace (filter is_send t) with (@nil Effect); [now rewrite app_nil_r |].
  induction t as [|e t IH]; [reflexivity |]. simpl in H.
  apply andb_true_iff in H as [He Ht]. rewrite filter_cons.
  destruct e; try discriminate; simpl; auto.
Qed.

Lemma quiet_writes w w' : quiet w w' -> writes (trace w') = writes (trace w).
Proof.
  intros (t & -> & H). unfold writes. simpl. rewrite omap_app.
  replace (omap _ t) with (@nil (string * string)); [now rewrite app_nil_r |].
  induction t as [|e t IH]; [reflexivity |]. simpl in H.
  apply andb_true_iff in H as [He Ht].
  destruct e; try discriminate; simpl; auto.
Qed.

Lemma getCachedData_quiet key w :
  exists v w', getCachedData key w = Some (v, w') /\ quiet w w'.
Proof.
  rewrite getCachedData_run.
  destruct (localStorage w !! _) as [[|c text]|];
    [| destruct (parse _) |]; eexists _, _; (split; [reflexivity |]);
    now apply quiet_extend.
Qed.

Lemma getCachedData_store key w1 w2 :
  localStorage w2 = localStorage w1 ->
  fst <$> getCachedData key w2 = fst <$> getCachedData key w1.
Proof.
  intros H. rewrite !getCachedData_run, H.
  destruct (localStorage w1 !! _) as [[|c text]|];
    [| destruct (parse _) |]; reflexivity.
Qed.

Lemma read_quiet {A} (view : json -> option A) key w a w' :
  (getCachedData key ≫= fun entry =>
     cast view (or_empty_array (optional_data entry))) w = Some (a, w') ->
  quiet w w'.
Proof.
  cbv beta iota delta [mbind M_bind].
  destruct (getCachedData_quiet key w) as (v & w1 & -> & Hq).
  unfold cast. destruct (view _); [| discriminate]. now intros [= <- <-].
Qed.

Lemma read_store {A} (view : json -> option A) key w1 w2 a w1' :
  (getCachedData key ≫= fun entry =>
     cast view (or_empty_array (optional_data entry))) w1 = Some (a, w1') ->
  localStorage w2 = localStorage w1 ->
  exists w2',
    (getCachedData key ≫= fun entry =>
       cast view (or_empty_array (optional_data entry))) w2 = Some (a, w2')
    /\ quiet w2 w2'.
Proof.
  intros H Hls. pose proof (getCachedData_store key w1 w2 Hls) as Hv.
  revert H. cbv beta iota delta [mbind M_bind].
  destruct (getCachedData_quiet key w1) as (v1 & u1 & E1 & Hq1).
  destruct (getCachedData_quiet key w2) as (v2 & u2 & E2 & Hq2).
  rewrite E1, E2 in *. simpl in Hv. injection Hv as ->.
  unfold cast. destruct (view _); [| discriminate]. intros [= <- <-].
  eexists. split; [reflexivity | exact Hq2].
Qed.

Lemma getChatHistory_quiet w h w' : getChatHistory w = Some (h, w') -> quiet w w'.
Proof. apply read_quiet. Qed.

Lemma getMessageQueue_quiet w q w' : getMessageQueue w = Some (q, w') -> quiet w w'.
Proof. apply read_quiet. Qed.

Lemma getChatHistory_store w1 w2 h w1' :
  getChatHistory w1 = Some (h, w1') -> localStorage w2 = localStorage w1 ->
  exists w2', getChatHistory w2 = Some (h, w2') /\ quiet w2 w2'.
Proof. apply read_store. Qed.

Lemma getMessageQueue_store w1 w2 q w1' :
  getMessageQueue w1 = Some (q, w1') -> localStorage w2 = localStorage w1 ->
  exists w2', getMessageQueue w2 = Some (q, w2') /\ quiet w2 w2'.
Proof. apply read_store. Qed.
End ServiceFacts.
Module DrainFacts.
Import JSON Platform Observing offlineService App JSONFacts ViewFacts ServiceFacts.

Lemma history_outbox_ne : OUTBOX <> HISTORY.
Proof. discriminate. Qed.

Lemma steady_refl w : steady w w.
Proof. repeat split. Qed.

Lemma steady_trans w1 w2 w3 : steady w1 w2 -> steady w2 w3 -> steady w1 w3.
Proof.
  intros (Hq1 & Hc1 & Hs1) (Hq2 & Hc2 & Hs2). repeat split; try congruence.
  intros k Hk. rewrite Hs2, Hs1; auto.
Qed.

Lemma quiet_steady w w' : quiet w w' -> steady w w'.
Proof. intros (t & -> & _). repeat split. Qed.

Lemma steady_accepts w w' key : steady w w' -> accepts w key -> accepts w' key.
Proof. intros (Hq & _) H v. rewrite Hq. apply H. Qed.

Lemma saveChatHistory_accepted history w :
  accepts w HISTORY ->
  exists w', saveChatHistory history w = Some (tt, w')
    /\ steady w w' /\ holds_history w' history
    /\ sends (trace w') = sends (trace w).
Proof.
  intros Hacc. rewrite saveChatHistory_run. cbv zeta.
  fold HISTORY. rewrite Hacc. eexists. split; [reflexivity |].
  destruct w as [ls q c n t]. repeat split.
  - intros k Hk. simpl. now rewrite lookup_insert_ne.
  - eexists. simpl. now rewrite lookup_insert_eq.
  - unfold sends. simpl. rewrite filter_app. simpl. now rewrite app_nil_r.
Qed.

(** *** One chunk *)

Lemma last_snoc' {A} (l : list A) (x : A) : last (l ++ [x]) = Some x.
Proof. apply last_snoc. Qed.

Lemma alter_last {A} (f : A -> A) (l : list A) (x : A) :
  alter f (length (l ++ [x]) - 1) (l ++ [x]) = l ++ [f x].
Proof.
  rewrite length_app. simpl. replace (length l + 1 - 1) with (length l + 0) by lia.
  now rewrite alter_app_r.
Qed.

(** A chunk, when the message the loop writes to is the last one. *)
Lemma receive_model q chunk l h m w :
  (if firstChunk l then currentChatHistory l ++ [model_message q]
   else currentChatHistory l) = h ++ [m] ->
  ChatMessage.role m = ChatMessage.model ->
  accepts w HISTORY ->
  exists w',
    receive q chunk l w
    = Some ({| fullResponse := fullResponse l +:+ chunk; firstChunk := false;
               currentChatHistory :=
                 h ++ [ChatMessage.set_text (fullResponse l +:+ chunk) m] |}, w')
    /\ steady w w'
    /\ holds_history w' (h ++ [ChatMessage.set_text (fullResponse l +:+ chunk) m])
    /\ sends (trace w') = sends (trace w).
Proof.
  intros Hh Hm Hacc. unfold receive. rewrite Hh, last_snoc', Hm. cbn [ChatMessage.Role_eqb].
  rewrite alter_last. cbv beta iota delta [mbind M_bind].
  destruct (saveChatHistory_accepted
              (h ++ [ChatMessage.set_text (fullResponse l +:+ chunk) m]) w Hacc)
    as (w' & -> & Hst & Hh' & Hs).
  exists w'. split; [reflexivity |]. auto.
Qed.

Lemma accumulate_snoc chunks chunk :
  accumulate (chunks ++ [chunk]) = accumulate chunks +:+ chunk.
Proof. unfold accumulate. now rewrite fold_left_app. Qed.

(** The chunks after the first. *)
Lemma receive_all_model q chunks seen h w :
  seen <> [] ->
  accepts w HISTORY ->
  holds_history w (with_reply q seen h) ->
  exists w',
    receive_all q chunks
      {| fullResponse := accumulate seen; firstChunk := false;
         currentChatHistory := with_reply q seen h |} w
    = Some ({| fullResponse := accumulate (seen ++ chunks); firstChunk := false;
               currentChatHistory := with_reply q (seen ++ chunks) h |}, w')
    /\ steady w w'
    /\ holds_history w' (with_reply q (seen ++ chunks) h)
    /\ sends (trace w') = sends (trace w).
Proof.
  revert seen w. induction chunks as [|chunk chunks IH]; intros seen w Hseen Hacc Hh.
  - rewrite app_nil_r. exists w. split; [reflexivity |].
    split; [apply steady_refl |]. auto.
  - cbn [receive_all]. cbv beta iota delta [mbind M_bind].
    assert (with_reply q seen h
            = h ++ [ChatMessage.set_text (accumulate seen) (model_message q)]) as Hw.
    { destruct seen; [congruence | reflexivity]. }
    destruct (receive_model q chunk
                {| fullResponse := accumulate seen; firstChunk := false;
                   currentChatHistory := with_reply q seen h |}
                h (ChatMessage.set_text (accumulate seen) (model_message q)) w)
      as (w1 & -> & Hst1 & Hh1 & Hs1); [exact Hw | reflexivity | exact Hacc |].
    cbn [fullResponse] in *. rewrite <- accumulate_snoc in *.
    assert (h ++ [ChatMessage.set_text (accumulate (seen ++ [chunk]))
                    (ChatMessage.set_text (accumulate seen) (model_message q))]
            = with_reply q (seen ++ [chunk]) h) as E.
    { unfold with_reply. destruct (seen ++ [chunk]) eqn:E; [| reflexivity].
      now apply app_eq_nil in E as [_ [=]]. }
    rewrite E in *.
    destruct (IH (seen ++ [chunk]) w1) as (w2 & E2 & Hst2 & Hh2 & Hs2).
    { intros [? [=]]%app_eq_nil. }
    { eapply steady_accepts; eassumption. }
    { exact Hh1. }
    rewrite <- app_assoc in E2, Hh2. simpl in E2, Hh2.
    exists w2. rewrite E2. split; [reflexivity |].
    split; [eapply steady_trans; eassumption |]. split; [exact Hh2 | congruence].
Qed.

(** All the chunks of a stream. *)
Lemma receive_all_spec q chunks h w :
  accepts w HISTORY ->
  exists w',
    receive_all q chunks
      {| fullResponse := EmptyString; firstChunk := true; currentChatHistory := h |} w
    = Some ({| fullResponse := accumulate chunks;
               firstChunk := match chunks with [] => true | _ => false end;
               currentChatHistory := with_reply q chunks h |}, w')
    /\ steady w w'
    /\ (chunks <> [] -> holds_history w' (with_reply q chunks h))
    /\ sends (trace w') = sends (trace w).
Proof.
  intros Hacc. destruct chunks as [|chunk chunks].
  - exists w. split; [reflexivity |]. split; [apply steady_refl |].
    split; [intros []; reflexivity | reflexivity].
  - cbn [receive_all]. cbv beta iota delta [mbind M_bind].
    destruct (receive_model q chunk
                {| fullResponse := EmptyString; firstChunk := true;
                   currentChatHistory := h |} h (model_message q) w)
      as (w1 & -> & Hst1 & Hh1 & Hs1); [reflexivity | reflexivity | exact Hacc |].
    destruct (receive_all_model q chunks [chunk] h w1) as (w2 & E2 & Hst2 & Hh2 & Hs2).
    { discriminate. }
    { eapply steady_accepts; eassumption. }
    { exact Hh1. }
    exists w2. split; [exact E2 |].
    split; [eapply steady_trans; eassumption |]. split; [auto | congruence].
Qed.

(** *** The loop *)

Lemma emit_run e w : emit e w = Some (tt, extend [e] w).
Proof. reflexivity. Qed.

Lemma console_error_run message w :
  console_error message w = Some (tt, extend [ConsoleError message] w).
Proof. reflexivity. Qed.

Lemma steady_extend t w : steady w (extend t w).
Proof. split; [| split]; reflexivity || auto. Qed.

Lemma sends_extend t w : sends (trace (extend t w)) = sends (trace w) ++ sends t.
Proof. unfold sends. simpl. apply filter_app. Qed.

Section Loop.
Variable atob : string -> option string.
Variable sendChatMessage : string -> option File -> LanguageCode -> Stream.

Lemma turn_spec q h w :
  accepts w HISTORY ->
  exists w',
    turn atob sendChatMessage q h w
    = Some (after_turn atob sendChatMessage q h, w')
    /\ steady w w'
    /\ sends (trace w') = sends (trace w) ++ option_list (call_of atob q).
Proof.
  intros Hacc. unfold turn, after_turn, call_of.
  destruct (file_of atob q) as [file|]; cbv beta iota delta [mbind M_bind option_bind].
  - rewrite emit_run.
    destruct (receive_all_spec q
                (chunks (sendChatMessage (QueuedMessage.prompt q) file (QueuedMessage.lang q)))
                h (extend [SendChatMessage (QueuedMessage.prompt q) file (QueuedMessage.lang q)] w))
      as (w1 & -> & Hst & _ & Hs); [exact Hacc |].
    rewrite sends_extend in Hs. cbn [currentChatHistory].
    destruct (ending _).
    + exists w1. split; [reflexivity |]. split; [| exact Hs].
      eapply steady_trans; [apply steady_extend | exact Hst].
    + rewrite console_error_run. eexists. split; [reflexivity |]. split.
      * eapply steady_trans; [apply steady_extend |].
        eapply steady_trans; [exact Hst | apply steady_extend].
      * rewrite sends_extend, Hs. simpl. now rewrite app_nil_r.
  - rewrite console_error_run. eexists. split; [reflexivity |].
    split; [apply steady_extend |]. rewrite sends_extend. reflexivity.
Qed.

Lemma calls_cons q queue :
  calls atob (q :: queue) = option_list (call_of atob q) ++ calls atob queue.
Proof. unfold calls. simpl. now destruct (call_of atob q). Qed.

Lemma turns_spec queue h w :
  accepts w HISTORY ->
  exists w',
    turns atob sendChatMessage queue h w
    = Some (after_turns atob sendChatMessage queue h, w')
    /\ steady w w'
    /\ sends (trace w') = sends (trace w) ++ calls atob queue.
Proof.
  revert h w. induction queue as [|q queue IH]; intros h w Hacc.
  - exists w. split; [reflexivity |]. split; [apply steady_refl |].
    simpl. now rewrite app_nil_r.
  - cbn [turns]. cbv beta iota delta [mbind M_bind].
    destruct (turn_spec q h w Hacc) as (w1 & -> & Hst1 & Hs1).
    destruct (IH (after_turn atob sendChatMessage q h) w1) as (w2 & -> & Hst2 & Hs2).
    { eapply steady_accepts; eassumption. }
    exists w2. split; [reflexivity |]. split; [eapply steady_trans; eassumption |].
    rewrite Hs2, Hs1, calls_cons. now rewrite app_assoc.
Qed.

(** A pass over a queue that is not empty. *)
Lemma syncOfflineMessages_spec queue h w wq wh :
  getMessageQueue w = Some (queue, wq) ->
  getChatHistory w = Some (h, wh) ->
  queue <> [] ->
  accepts w HISTORY ->
  exists w',
    syncOfflineMessages atob sendChatMessage true false w = Some (false, w')
    /\ holds_history w' (after_turns atob sendChatMessage queue h)
    /\ localStorage w' !! OUTBOX = None
    /\ quota w' = quota w
    /\ sends (trace w') = sends (trace w) ++ calls atob queue.
Proof.
  intros Hq Hh Hne Hacc. unfold syncOfflineMessages.
  cbn [orb negb]. cbv beta iota delta [mbind M_bind].
  rewrite Hq. pose proof (getMessageQueue_quiet _ _ _ Hq) as Hq1.
  destruct queue as [|q0 queue0]; [congruence |].
  destruct (getChatHistory_store w wq h wh Hh (quiet_store _ _ Hq1))
    as (w2 & -> & Hq2).
  pose proof (quiet_trans _ _ _ Hq1 Hq2) as Hq12.
  destruct (turns_spec (q0 :: queue0) h w2) as (w3 & -> & Hst3 & Hs3).
  { intros v. rewrite (quiet_quota _ _ Hq12). apply Hacc. }
  destruct (saveChatHistory_accepted
              (after_turns atob sendChatMessage (q0 :: queue0) h) w3)
    as (w4 & -> & Hst4 & Hh4 & Hs4).
  { eapply steady_accepts; [exact Hst3 |].
    intros v. rewrite (quiet_quota _ _ Hq12). apply Hacc. }
  unfold clearMessageQueue. fold OUTBOX.
  eexists. split; [reflexivity |].
  destruct Hst3 as (Hqu3 & _ & _), Hst4 as (Hqu4 & _ & _).
  destruct Hh4 as (ts & Hh4).
  split; [| split; [| split]].
  - exists ts. simpl. rewrite lookup_delete_ne; [exact Hh4 | apply history_outbox_ne].
  - simpl. apply lookup_delete_eq.
  - simpl. rewrite Hqu4, Hqu3. apply (quiet_quota _ _ Hq12).
  - simpl. unfold sends in *. rewrite filter_app. simpl. rewrite app_nil_r.
    rewrite Hs4, Hs3. f_equal. apply (quiet_sends _ _ Hq12).
Qed.
End Loop.
End DrainFacts.
Module MachineFacts.
Import JSON Platform Observing offlineService App JSONFacts ViewFacts ServiceFacts DrainFacts.

(** Saving never fails to return, whatever the store accepts. *)
Lemma saveChatHistory_total history w :
  exists w', saveChatHistory history w = Some (tt, w')
    /\ sends (trace w') = sends (trace w)
    /\ quota w' = quota w
    /\ forall k, k <> HISTORY -> localStorage w' !! k = localStorage w !! k.
Proof.
  rewrite saveChatHistory_run. cbv zeta. fold HISTORY.
  destruct w as [ls q c n t]. cbn [quota clock ticks].
  destruct (q _ _); eexists; (split; [reflexivity |]); cbn.
  - split; [| split; [reflexivity |]].
    + unfold sends. rewrite filter_app. simpl. now rewrite app_nil_r.
    + intros k Hk. now rewrite lookup_insert_ne.
  - split; [| split; [reflexivity | auto]].
    unfold sends. rewrite filter_app. simpl. now rewrite app_nil_r.
Qed.

Lemma receive_total q chunk l w :
  exists l' w', receive q chunk l w = Some (l', w')
    /\ sends (trace w') = sends (trace w)
    /\ quota w' = quota w
    /\ forall k, k <> HISTORY -> localStorage w' !! k = localStorage w !! k.
Proof.
  unfold receive.
  destruct (last _) as [m|]; [destruct (ChatMessage.Role_eqb _ _) |].
  - cbv beta iota delta [mbind M_bind].
    destruct (saveChatHistory_total
                (alter (ChatMessage.set_text (fullResponse l +:+ chunk))
                   (length (if firstChunk l
                            then currentChatHistory l ++ [model_message q]
                            else currentChatHistory l) - 1)
                   (if firstChunk l
                    then currentChatHistory l ++ [model_message q]
                    else currentChatHistory l)) w) as (w' & -> & H).
    eexists _, w'. split; [reflexivity | exact H].
  - eexists _, w. split; [reflexivity |]. auto.
  - eexists _, w. split; [reflexivity |]. auto.
Qed.

Section Machine.
Variable atob : string -> option string.

Lemma calls_app queue1 queue2 :
  calls atob (queue1 ++ queue2) = calls atob queue1 ++ calls atob queue2.
Proof. apply omap_app. Qed.

Lemma clearMessageQueue_run w :
  clearMessageQueue w = Some (tt, erase OUTBOX (extend [RemoveItem OUTBOX] w)).
Proof. reflexivity. Qed.

(** From the head of the loop to the next [await], or to the end. *)
Lemma advance_spec queue h w :
  exists p w',
    advance atob queue h w = Some (p, w')
    /\ match p with
       | Some p' =>
           exists skipped,
             queue = skipped ++ current p' :: rest p'
             /\ calls atob skipped = []
             /\ sends (trace w') = sends (trace w) ++ calls atob [current p']
       | None =>
           calls atob queue = []
           /\ sends (trace w') = sends (trace w)
           /\ localStorage w' !! OUTBOX = None
       end.
Proof.
  revert h w. induction queue as [|q queue IH]; intros h w.
  - cbn [advance]. cbv beta iota delta [mbind M_bind].
    destruct (saveChatHistory_total h w) as (w1 & -> & Hs & _ & _).
    rewrite clearMessageQueue_run. eexists None, _. split; [reflexivity |].
    split; [reflexivity |]. split.
    + rewrite <- Hs. unfold sends. simpl. rewrite filter_app. simpl.
      now rewrite app_nil_r.
    + simpl. apply lookup_delete_eq.
  - cbn [advance]. destruct (file_of atob q) as [file|] eqn:Hfile.
    + cbv beta iota delta [mbind M_bind]. rewrite emit_run.
      eexists (Some _), _. split; [reflexivity |].
      exists []. cbn [current rest]. split; [reflexivity |]. split; [reflexivity |].
      rewrite sends_extend. unfold calls, call_of. simpl. rewrite Hfile. reflexivity.
    + cbv beta iota delta [mbind M_bind]. rewrite console_error_run.
      destruct (IH (settle ChatMessage.failed (userMessageIndex_of q h) h)
                  (extend [ConsoleError (failure_message q)] w))
        as (p & w' & -> & Hp).
      exists p, w'. split; [reflexivity |].
      assert (calls atob [q] = []) as Hq.
      { unfold calls, call_of. simpl. now rewrite Hfile. }
      rewrite sends_extend in Hp. simpl in Hp. rewrite app_nil_r in Hp.
      destruct p as [p'|].
      * destruct Hp as (skipped & -> & Hsk & Hs). exists (q :: skipped).
        split; [reflexivity |]. split; [| exact Hs].
        change (q :: skipped) with ([q] ++ skipped). now rewrite calls_app, Hq, Hsk.
      * destruct Hp as (Hc & Hs & Ho). split; [| auto].
        change (q :: queue) with ([q] ++ queue). now rewrite calls_app, Hq, Hc.
Qed.

(** A call while the guard is up does nothing. *)
Lemma call_guarded c w : isSyncing c = true -> call atob c w = Some (c, w).
Proof. intros H. unfold call. now rewrite H. Qed.

Lemma single_pass_step e c w c' w' :
  single_pass c -> step atob e c w = Some (c', w') -> single_pass c'.
Proof.
  intros [Hlen Hflag] Hstep.
  assert (forall d w0 d' w0',
            passes d = passes c -> isSyncing d = isSyncing c ->
            call atob d w0 = Some (d', w0') -> single_pass d') as Hcall.
  { intros d w0 d' w0' Hp Hf. unfold call. rewrite Hf.
    destruct (isSyncing c) eqn:Hsync; cbn [orb].
    - intros [= <- _]. split; rewrite Hp; [exact Hlen |]. now rewrite Hf.
    - assert (passes c = []) as Hnil.
      { destruct (passes c); [reflexivity |]. discriminate Hflag. discriminate. }
      destruct (negb (isOnline d)).
      { intros [= <- _]. split; rewrite Hp, Hnil; simpl; [lia | congruence]. }
      cbv beta iota delta [mbind M_bind].
      destruct (getMessageQueue w0) as [[queue w1]|]; [| discriminate].
      destruct queue as [|q queue].
      { intros [= <- _]. split; cbn [passes]; rewrite Hp, Hnil; simpl; [lia | congruence]. }
      destruct (getChatHistory w1) as [[h w2]|]; [| discriminate].
      destruct (advance atob (q :: queue) h w2) as [[[p|] w3]|]; [| | discriminate];
        intros [= <- _]; split; cbn [passes isSyncing]; rewrite Hp, Hnil; simpl;
        lia || congruence. }
  assert (forall n p p', passes c !! n = Some p -> single_pass (resume n c p')) as Hres.
  { intros n p p' Hn.
    assert (passes c = [p] /\ n = 0) as [Hc ->].
    { destruct (passes c) as [|p0 [|p1 ps]]; [discriminate | | simpl in Hlen; lia].
      destruct n; [now injection Hn as -> | discriminate]. }
    destruct p' as [p'|]; unfold resume; split; cbn [passes isSyncing];
      rewrite Hc; simpl; try lia; try congruence.
    intros _. apply Hflag. rewrite Hc. discriminate. }
  destruct e as [online | | n text | n | n message]; cbn [step] in Hstep.
  - destruct (Bool.eqb online (isOnline c)).
    { injection Hstep as <- _. now split. }
    destruct online.
    + eapply Hcall; [| | exact Hstep]; reflexivity.
    + injection Hstep as <- _. now split.
  - eapply Hcall; [| | exact Hstep]; reflexivity.
  - destruct (passes c !! n) as [p|] eqn:Hn; [| discriminate].
    revert Hstep. cbv beta iota delta [mbind M_bind].
    destruct (receive _ _ _ _) as [[l w1]|]; [| discriminate].
    intros [= <- _].
    exact (Hres n p (Some {| rest := rest p; current := current p;
                             userMessageIndex := userMessageIndex p;
                             locals := l |}) Hn).
  - destruct (passes c !! n) as [p|] eqn:Hn; [| discriminate].
    revert Hstep. cbv beta iota delta [mbind M_bind].
    destruct (advance _ _ _ _) as [[p' w1]|]; [| discriminate].
    intros [= <- _]. exact (Hres n p p' Hn).
  - destruct (passes c !! n) as [p|] eqn:Hn; [| discriminate].
    revert Hstep. cbv beta iota delta [mbind M_bind]. rewrite console_error_run.
    destruct (advance _ _ _ _) as [[p' w1]|]; [| discriminate].
    intros [= <- _]. exact (Hres n p p' Hn).
Qed.

Lemma reachable_single_pass c w : reachable atob c w -> single_pass c.
Proof.
  induction 1 as [online w | e c w c' w' _ IH Hstep | c w w' _ IH].
  - split; simpl; [lia | congruence].
  - eapply single_pass_step; eassumption.
  - exact IH.
Qed.

(** *** The calls come in the order of the queue *)

Lemma in_order_call queue c w c' w' wq :
  passes c = [] -> isSyncing c = false -> isOnline c = true ->
  getMessageQueue w = Some (queue, wq) ->
  call atob c w = Some (c', w') ->
  in_order atob queue (sends (trace w)) c' w'.
Proof.
  intros Hp Hs Ho Hq. unfold call. rewrite Hs, Ho. cbn [orb negb].
  cbv beta iota delta [mbind M_bind]. rewrite Hq.
  pose proof (getMessageQueue_quiet _ _ _ Hq) as Hquiet.
  destruct queue as [|q queue].
  - intros [= <- <-]. unfold in_order. cbn [passes isSyncing]. rewrite Hp.
    split; [reflexivity |]. split.
    + rewrite (quiet_sends _ _ Hquiet). simpl. now rewrite app_nil_r.
    + destruct (getMessageQueue_store w wq [] wq Hq (quiet_store _ _ Hquiet))
        as (w2 & E & _). eauto.
  - destruct (getChatHistory wq) as [[h wh]|] eqn:Hh; [| discriminate].
    pose proof (getChatHistory_quiet _ _ _ Hh) as Hquiet'.
    destruct (advance_spec (q :: queue) h wh) as (p & w1 & -> & Hadv).
    rewrite (quiet_sends _ _ Hquiet'), (quiet_sends _ _ Hquiet) in Hadv.
    destruct p as [p|]; intros [= <- <-]; unfold in_order;
      cbn [passes isSyncing]; rewrite Hp.
    + cbn [app]. split; [reflexivity |].
      destruct Hadv as (skipped & Hqueue & Hsk & Hsends). exists skipped.
      split; [exact Hqueue |]. now rewrite calls_app, Hsk.
    + destruct Hadv as (Hc & Hsends & Hout). split; [reflexivity |].
      split; [now rewrite Hc, app_nil_r |].
      rewrite (getMessageQueue_absent _ Hout). eauto.
Qed.

Lemma in_order_step queue base e c w c' w' :
  in_order atob queue base c w ->
  step atob e c w = Some (c', w') ->
  in_order atob queue base c' w'.
Proof.
  unfold in_order at 1.
  destruct (passes c) as [|p [|p2 ps]] eqn:Hp; [| | intros []].
  - (* no pass: the queue reads empty *)
    intros (Hs & Hsends & wq & Hq) Hstep.
    assert (forall d, passes d = [] -> isSyncing d = false ->
              call atob d w = Some (c', w') -> in_order atob queue base c' w') as Hcall.
    { intros d Hpd Hsd. unfold call. rewrite Hsd. cbn [orb].
      destruct (negb (isOnline d)).
      - intros [= <- <-]. unfold in_order. rewrite Hpd. eauto.
      - cbv beta iota delta [mbind M_bind]. rewrite Hq. intros [= <- <-].
        pose proof (getMessageQueue_quiet _ _ _ Hq) as Hquiet.
        unfold in_order. cbn [passes isSyncing]. rewrite Hpd.
        split; [reflexivity |]. split; [now rewrite (quiet_sends _ _ Hquiet) |].
        destruct (getMessageQueue_store w wq [] wq Hq (quiet_store _ _ Hquiet))
          as (w2 & E & _). eauto. }
    destruct e as [online | | n text | n | n message]; cbn [step] in Hstep.
    + destruct (Bool.eqb online (isOnline c)).
      { injection Hstep as <- <-. unfold in_order. rewrite Hp. eauto. }
      destruct online.
      * eapply Hcall; [| | exact Hstep]; assumption.
      * injection Hstep as <- <-. unfold in_order. cbn [passes isSyncing]. rewrite Hp. eauto.
    + eapply Hcall; [| | exact Hstep]; assumption.
    + rewrite Hp in Hstep. discriminate.
    + rewrite Hp in Hstep. discriminate.
    + rewrite Hp in Hstep. discriminate.
  - (* one pass, awaiting *)
    intros (Hs & done & Hqueue & Hsends) Hstep.
    assert (forall h w1 p',
              sends (trace w1) = sends (trace w) ->
              advance atob (rest p) h w1 = Some (p', w') ->
              in_order atob queue base (resume 0 c p') w') as Hadv.
    { intros h w1 p' Hw1 E.
      destruct (advance_spec (rest p) h w1) as (p'' & w'' & E' & Hspec).
      rewrite E in E'. injection E' as <- <-.
      rewrite Hw1, Hsends in Hspec.
      unfold in_order, resume. destruct p' as [p'|]; cbn [passes isSyncing]; rewrite Hp.
      - cbn. split; [exact Hs |].
        destruct Hspec as (skipped & Hrest & Hsk & Hsends').
        exists (done ++ current p :: skipped). split.
        + rewrite Hqueue, Hrest, <- app_assoc. reflexivity.
        + rewrite Hsends'.
          change (current p :: skipped) with ([current p] ++ skipped).
          rewrite !calls_app, Hsk, app_nil_r, <- !app_assoc. reflexivity.
      - cbn. destruct Hspec as (Hc & Hsends' & Hout).
        split; [reflexivity |]. split.
        + rewrite Hsends', Hqueue. f_equal.
          change (current p :: rest p) with ([current p] ++ rest p).
          now rewrite !calls_app, Hc, app_nil_r.
        + rewrite (getMessageQueue_absent _ Hout). eauto. }
    destruct e as [online | | n text | n | n message]; cbn [step] in Hstep.
    + destruct (Bool.eqb online (isOnline c)).
      { injection Hstep as <- <-. unfold in_order. rewrite Hp. eauto. }
      destruct online.
      * rewrite call_guarded in Hstep by exact Hs. injection Hstep as <- <-.
        unfold in_order. cbn [passes isSyncing]. rewrite Hp. eauto.
      * injection Hstep as <- <-. unfold in_order. cbn [passes isSyncing].
        rewrite Hp. eauto.
    + rewrite call_guarded in Hstep by exact Hs. injection Hstep as <- <-.
      unfold in_order. rewrite Hp. eauto.
    + rewrite Hp in Hstep. destruct n as [|n]; [| discriminate]. cbn in Hstep.
      revert Hstep. cbv beta iota delta [mbind M_bind].
      destruct (receive_total (current p) text (locals p) w)
        as (l & w1 & -> & Hsends1 & _).
      intros [= <- <-]. unfold in_order, resume. cbn [passes isSyncing]. rewrite Hp.
      cbn. split; [exact Hs |]. exists done. split; [exact Hqueue |]. congruence.
    + rewrite Hp in Hstep. destruct n as [|n]; [| discriminate]. cbn in Hstep.
      revert Hstep. cbv beta iota delta [mbind M_bind].
      destruct (advance _ _ _ _) as [[p' w1]|] eqn:E; [| discriminate].
      intros [= <- <-]. eapply Hadv; [| exact E]. reflexivity.
    + rewrite Hp in Hstep. destruct n as [|n]; [| discriminate]. cbn in Hstep.
      revert Hstep. cbv beta iota delta [mbind M_bind]. rewrite console_error_run.
      destruct (advance _ _ _ _) as [[p' w1]|] eqn:E; [| discriminate].
      intros [= <- <-]. eapply Hadv; [| exact E].
      rewrite sends_extend. simpl. now rewrite app_nil_r.
Qed.

Lemma in_order_steps queue base es c w c' w' :
  in_order atob queue base c w ->
  steps atob es c w = Some (c', w') ->
  in_order atob queue base c' w'.
Proof.
  revert c w. induction es as [|e es IH]; intros c w Hin.
  - now intros [= <- <-].
  - cbn [steps]. cbv beta iota delta [mbind M_bind].
    destruct (step atob e c w) as [[c1 w1]|] eqn:E; [| discriminate].
    apply IH. eapply in_order_step; eassumption.
Qed.

(** *** An item is started only when the stream before it is over *)

(** While a pass awaits its stream, an event that does not end the stream
    calls nothing and leaves the pass at its item. *)
Lemma awaiting_step e c w c' w' p :
  isSyncing c = true -> passes c = [p] -> ends_stream e = false ->
  step atob e c w = Some (c', w') ->
  sends (trace w') = sends (trace w)
  /\ exists p', passes c' = [p'] /\ current p' = current p /\ rest p' = rest p.
Proof.
  intros Hs Hp He Hstep.
  destruct e as [online | | n text | n | n message]; try discriminate He;
    cbn [step] in Hstep.
  - destruct (Bool.eqb online (isOnline c)).
    { injection Hstep as <- <-. eauto. }
    destruct online.
    + rewrite call_guarded in Hstep by exact Hs. injection Hstep as <- <-.
      cbn [passes]. eauto.
    + injection Hstep as <- <-. cbn [passes]. eauto.
  - rewrite call_guarded in Hstep by exact Hs. injection Hstep as <- <-. eauto.
  - rewrite Hp in Hstep. destruct n as [|n]; [| discriminate]. cbn in Hstep.
    revert Hstep. cbv beta iota delta [mbind M_bind].
    destruct (receive_total (current p) text (locals p) w)
      as (l & w1 & -> & Hsends & _).
    intros [= <- <-]. split; [exact Hsends |].
    unfold resume. cbn [passes]. rewrite Hp. cbn. eauto.
Qed.
End Machine.
End MachineFacts.
Module QueueFacts.
Import JSON Platform Observing offlineService App JSONFacts ViewFacts ServiceFacts DrainFacts.

Lemma addMessageToQueue_spec fileToBase64 prompt file id lang outbox w wq :
  getMessageQueue w = Some (outbox, wq) ->
  accepts w OUTBOX ->
  exists w',
    addMessageToQueue fileToBase64 prompt file id lang w = Some (tt, w')
    /\ getMessageQueue w'
       = Some (outbox ++ [queued fileToBase64 prompt file id lang],
               extend [GetItem OUTBOX] w')
    /\ quota w' = quota w
    /\ (forall k, k <> OUTBOX -> localStorage w' !! k = localStorage w !! k)
    /\ (forall f, file = Some f -> fileToBase64 f = None ->
        ConsoleError "Could not convert file to Base64 for offline queue" ∈ trace w')
    /\ writes (trace w')
       = writes (trace w)
         ++ [(OUTBOX,
              stringify (cacheEntry (clock w (ticks w))
                           (QueuedMessage.list_to_json
                              (outbox ++ [queued fileToBase64 prompt file id lang]))))].
Proof.
  intros Hq Hacc. pose proof (getMessageQueue_quiet _ _ _ Hq) as (t & -> & Ht).
  unfold addMessageToQueue. rewrite bind_run.
  change (getCachedData CHAT_OUTBOX_KEY ≫= _) with getMessageQueue. rewrite Hq.
  assert (forall fileData w2,
            quota w2 = quota w -> localStorage w2 = localStorage w ->
            clock w2 (ticks w2) = clock w (ticks w) ->
            writes (trace w2) = writes (trace w) ->
            (forall f, file = Some f -> fileToBase64 f = None ->
               ConsoleError "Could not convert file to Base64 for offline queue" ∈ trace w2) ->
            fileData = file ≫= fileToBase64 ->
            exists w',
              setCachedData CHAT_OUTBOX_KEY
                (QueuedMessage.list_to_json
                   (outbox ++ [{| QueuedMessage.id := id; QueuedMessage.prompt := prompt;
                                  QueuedMessage.fileData := fileData;
                                  QueuedMessage.fileName := f ← file; or_null (name f);
                                  QueuedMessage.fileMimeType := f ← file; or_null (type f);
                                  QueuedMessage.lang := lang |}])) w2 = Some (tt, w')
              /\ getMessageQueue w'
                 = Some (outbox ++ [queued fileToBase64 prompt file id lang],
                         extend [GetItem OUTBOX] w')
              /\ quota w' = quota w
              /\ (forall k, k <> OUTBOX -> localStorage w' !! k = localStorage w !! k)
              /\ (forall f, file = Some f -> fileToBase64 f = None ->
                  ConsoleError "Could not convert file to Base64 for offline queue" ∈ trace w')
              /\ writes (trace w')
                 = writes (trace w)
                   ++ [(OUTBOX,
                        stringify (cacheEntry (clock w (ticks w))
                                     (QueuedMessage.list_to_json
                                        (outbox ++ [queued fileToBase64 prompt file id lang]))))])
    as Hset.
  { intros fileData w2 Hquota Hstore Hclock Hwrites Hlog ->.
    rewrite setCachedData_run. cbv zeta.
    fold OUTBOX. rewrite Hquota, Hacc. eexists. split; [reflexivity |].
    split; [| split; [| split; [| split]]].
    - apply getMessageQueue_holds with (timestamp := clock w2 (ticks w2)).
      simpl. fold OUTBOX. now rewrite lookup_insert_eq.
    - exact Hquota.
    - intros k Hk. simpl. rewrite lookup_insert_ne by congruence. now rewrite Hstore.
    - intros f Hf Hnone. simpl. apply elem_of_app. left. eauto.
    - simpl. unfold writes in *. rewrite omap_app, Hwrites, Hclock. reflexivity. }
  rewrite bind_run.
  destruct file as [f|]; [destruct (fileToBase64 f) as [base64|] eqn:Hconv |].
  - rewrite ret_run. apply Hset; try reflexivity.
    + apply (quiet_writes w (extend t w)). now apply quiet_extend.
    + intros f' [= <-]. congruence.
    + simpl. now rewrite Hconv.
  - rewrite bind_run, console_error_run, ret_run. apply Hset; try reflexivity.
    + apply (quiet_writes w). eapply quiet_trans; apply quiet_extend; [exact Ht | reflexivity].
    + intros f' _ _. simpl. apply elem_of_app. right. left.
    + simpl. now rewrite Hconv.
  - rewrite ret_run. apply Hset; try reflexivity.
    + apply (quiet_writes w (extend t w)). now apply quiet_extend.
    + discriminate.
Qed.
Lemma enqueue_all_spec fileToBase64 messages outbox w wq :
  getMessageQueue w = Some (outbox, wq) ->
  accepts w OUTBOX ->
  exists w' wq',
    enqueue_all fileToBase64 messages w = Some (tt, w')
    /\ getMessageQueue w' = Some (outbox ++ queued_all fileToBase64 messages, wq')
    /\ quota w' = quota w
    /\ forall k, k <> OUTBOX -> localStorage w' !! k = localStorage w !! k.
Proof.
  revert outbox w wq. induction messages as [|[[[prompt file] id] lang] messages IH];
    intros outbox w wq Hq Hacc.
  - exists w, wq. rewrite app_nil_r. auto.
  - cbn [enqueue_all]. rewrite bind_run.
    destruct (addMessageToQueue_spec fileToBase64 prompt file id lang outbox w wq Hq Hacc)
      as (w1 & -> & Hq1 & Hquota1 & Hstore1 & _).
    destruct (IH _ w1 _ Hq1) as (w2 & wq2 & Hrun & Hq2 & Hquota2 & Hstore2).
    { intros value. rewrite Hquota1. apply Hacc. }
    exists w2, wq2. split; [exact Hrun |]. split.
    + rewrite Hq2. cbn [queued_all fmap list_fmap]. now rewrite <- app_assoc.
    + split; [congruence |]. intros k Hk. rewrite Hstore2, Hstore1; auto.
Qed.
End QueueFacts.
Module ProfileFacts.
Import JSON Platform Observing userProfileService JSONFacts ViewFacts ServiceFacts.

Lemma get_set {V} k k' (v : V) (ms : list (string * V)) :
  Props.get k' (Props.set k v ms)
  = if String.eqb k' k then Some v else Props.get k' ms.
Proof.
  induction ms as [|[k0 v0] ms IH]; simpl.
  - reflexivity.
  - destruct (String.eqb_spec k k0) as [-> | Hne]; simpl.
    + destruct (String.eqb k' k0); reflexivity.
    + rewrite IH. destruct (String.eqb_spec k' k0) as [-> | Hne'];
        [| reflexivity].
      destruct (String.eqb_spec k0 k); [congruence | reflexivity].
Qed.

Lemma get_spread_other {V} k (ext base : list (string * V)) :
  k ∉ Props.keys ext -> Props.get k (Props.spread base ext) = Props.get k base.
Proof.
  unfold Props.spread. revert base.
  induction ext as [|[k0 v0] ext IH]; intros base Hk; simpl; [reflexivity |].
  simpl in Hk. apply not_elem_of_cons in Hk as [Hne Hk].
  rewrite IH by exact Hk. rewrite get_set.
  destruct (String.eqb_spec k k0); [congruence | reflexivity].
Qed.

Lemma get_own_properties k (ms : list (string * json)) :
  Props.get k (prod_map id Some <$> ms) = Some <$> Props.get k ms.
Proof.
  induction ms as [|[k0 v0] ms IH]; simpl; [reflexivity |].
  destruct (String.eqb k k0); [reflexivity | exact IH].
Qed.

Lemma keys_own_properties (ms : list (string * json)) :
  Props.keys (prod_map id Some <$> ms) = Props.keys ms.
Proof.
  unfold Props.keys. induction ms as [|[k0 v0] ms IH]; simpl; [reflexivity |].
  now f_equal.
Qed.

Lemma keys_defined_sub (o : UserProfile) k :
  k ∈ Props.keys (defined o) -> k ∈ Props.keys o.
Proof.
  induction o as [|[k0 [v0|]] o IH]; simpl; [auto | |].
  - intros [-> | H]%elem_of_cons; [left | right; auto].
  - intros H. right. auto.
Qed.

Lemma keys_defined_nodup (o : UserProfile) :
  NoDup (Props.keys o) -> NoDup (Props.keys (defined o)).
Proof.
  induction o as [|[k0 [v0|]] o IH]; simpl; [auto | |]; intros [Hk Hnd]%NoDup_cons.
  - apply NoDup_cons. split; [| auto]. intros H. apply Hk. now apply keys_defined_sub.
  - auto.
Qed.

Lemma get_defined (o : UserProfile) k :
  NoDup (Props.keys o) -> Props.get k (defined o) = mjoin (Props.get k o).
Proof.
  induction o as [|[k0 [v0|]] o IH]; simpl; [reflexivity | |]; intros [Hk Hnd]%NoDup_cons.
  - destruct (String.eqb k k0); [reflexivity | auto].
  - destruct (String.eqb_spec k k0) as [-> | Hne]; [| auto].
    simpl. destruct (Props.get k0 (defined o)) eqn:E; [| reflexivity].
    exfalso. apply Hk. apply keys_defined_sub.
    clear -E. induction (defined o) as [|[k1 v1] l IH]; [discriminate |].
    simpl in *. destruct (String.eqb_spec k0 k1) as [-> | Hne]; [left | right; auto].
Qed.

Lemma defined_wf (o : UserProfile) :
  forallb (fun kv => storable kv.2) o = true ->
  forallb (fun kv => wf kv.2) (defined o) = true.
Proof.
  induction o as [|[k0 [v0|]] o IH]; simpl; [reflexivity | | exact IH].
  intros [Hv Ho]%andb_true_iff.
  unfold storable in Hv. simpl in Hv. now rewrite Hv, IH.
Qed.

Lemma own_properties_storable (ms : list (string * json)) :
  forallb (fun kv => wf kv.2) ms = true ->
  forallb (fun kv => storable kv.2) (prod_map id Some <$> ms) = true.
Proof.
  induction ms as [|[k0 v0] ms IH]; simpl; [reflexivity |].
  intros [Hv Hms]%andb_true_iff. apply andb_true_iff. split; [exact Hv | auto].
Qed.

Lemma getUserProfile_run w :
  getUserProfile w =
  Some match localStorage w !! PROFILE_KEY with
       | None | Some EmptyString => (JNull, extend [GetItem PROFILE_KEY] w)
       | Some text =>
           match parse text with
           | Some v => (v, extend [GetItem PROFILE_KEY] w)
           | None =>
               (JNull,
                extend [GetItem PROFILE_KEY;
                        ConsoleError "Failed to retrieve user profile from localStorage"] w)
           end
       end.
Proof.
  destruct w as [ls q c n t]. unfold getUserProfile. run.
  destruct (ls !! _) as [[|a text]|]; try reflexivity.
  destruct (parse _); [reflexivity |]. rewrite <- app_assoc. reflexivity.
Qed.

Lemma getUserProfile_store w1 w2 :
  localStorage w2 = localStorage w1 ->
  fst <$> getUserProfile w2 = fst <$> getUserProfile w1.
Proof.
  intros H. rewrite !getUserProfile_run, H.
  destruct (localStorage w1 !! _) as [[|c text]|];
    [| destruct (parse _) |]; reflexivity.
Qed.

Lemma getUserProfile_quiet w :
  exists v w', getUserProfile w = Some (v, w') /\ quiet w w'
    /\ (v = JNull \/ wf v = true).
Proof.
  rewrite getUserProfile_run.
  destruct (localStorage w !! _) as [[|c text]|];
    [| destruct (parse _) eqn:E |]; eexists _, _;
    (split; [reflexivity |]); (split; [now apply quiet_extend |]); auto.
  right. eapply parse_wf. exact E.
Qed.

Lemma getUserProfile_holds v w :
  wf v = true -> localStorage w !! PROFILE_KEY = Some (stringify v) ->
  fst <$> getUserProfile w = Some v.
Proof.
  intros Hwf Hls. rewrite getUserProfile_run, Hls.
  pose proof (stringify_nonempty v Hwf) as Hne.
  destruct (stringify v) as [|c text] eqn:Htext; [congruence |].
  rewrite <- Htext, (parse_stringify v Hwf). reflexivity.
Qed.
End ProfileFacts.

Module TranscriptFacts.
Import JSON Platform Observing offlineService App JSONFacts ViewFacts ServiceFacts DrainFacts MachineFacts.

Lemma findIndex_range {A} (p : A -> bool) (l : list A) :
  findIndex p l = (-1)%Z \/ (0 <= findIndex p l < Z.of_nat (length l))%Z.
Proof.
  induction l as [|x l IH]; simpl; [now left |].
  destruct (p x); [right; lia |].
  destruct IH as [-> | IH]; [now left |].
  destruct (Z.ltb_spec (findIndex p l) 0); [now left | right; lia].
Qed.

Lemma findIndex_first {A} (p : A -> bool) (before : list A) (x : A) (after : list A) :
  Forall (fun y => p y = false) before -> p x = true ->
  findIndex p (before ++ x :: after) = Z.of_nat (length before).
Proof.
  intros Hbefore Hx. induction Hbefore as [|y before Hy _ IH]; simpl.
  - now rewrite Hx.
  - rewrite Hy, IH. destruct (Z.ltb_spec (Z.of_nat (length before)) 0); lia.
Qed.

Lemma settle_snoc s i (h : list ChatMessage.t) (r : ChatMessage.t) :
  i = (-1)%Z \/ (0 <= i < Z.of_nat (length h))%Z ->
  settle s i (h ++ [r]) = settle s i h ++ [r].
Proof.
  unfold settle. intros [-> | Hi]; [reflexivity |].
  destruct (i >? -1)%Z; [| reflexivity].
  rewrite alter_app_l by lia. reflexivity.
Qed.

Lemma settle_at s (before : list ChatMessage.t) u after :
  settle s (Z.of_nat (length before)) (before ++ u :: after)
  = before ++ ChatMessage.set_status s u :: after.
Proof.
  unfold settle. destruct (Z.gtb_spec (Z.of_nat (length before)) (-1)); [| lia].
  rewrite Nat2Z.id. replace (length before) with (length before + 0) at 1 by lia.
  now rewrite alter_app_r.
Qed.

Lemma settle_no_model s i (h : list ChatMessage.t) :
  List.filter is_model h = [] -> List.filter is_model (settle s i h) = [].
Proof.
  unfold settle. destruct (i >? -1)%Z; [| auto].
  generalize (Z.to_nat i). intros n. revert n.
  induction h as [|m h IH]; intros n; [reflexivity |]. simpl.
  destruct (is_model m) eqn:Hm; [discriminate |]. intros Hh.
  destruct n as [|n]; simpl.
  - unfold is_model in *. simpl. now rewrite Hm.
  - rewrite Hm. now apply IH.
Qed.

(** A chunk, when the message the loop writes to is the last one;
    whatever the store does with the write. *)
Lemma receive_locals q chunk l h m w :
  (if firstChunk l then currentChatHistory l ++ [model_message q]
   else currentChatHistory l) = h ++ [m] ->
  ChatMessage.role m = ChatMessage.model ->
  exists w',
    receive q chunk l w
    = Some ({| fullResponse := fullResponse l +:+ chunk; firstChunk := false;
               currentChatHistory :=
                 h ++ [ChatMessage.set_text (fullResponse l +:+ chunk) m] |}, w').
Proof.
  intros Hh Hm. unfold receive. rewrite Hh, last_snoc', Hm. cbn [ChatMessage.Role_eqb].
  rewrite alter_last, bind_run.
  destruct (saveChatHistory_total
              (h ++ [ChatMessage.set_text (fullResponse l +:+ chunk) m]) w)
    as (w' & -> & _).
  exists w'. reflexivity.
Qed.

(** What a read gives, from what the store holds. *)
Lemma reads_history w history :
  holds_history w history -> fst <$> getChatHistory w = Some history.
Proof. intros (ts & H). now rewrite (getChatHistory_holds ts history w H). Qed.

Lemma reads_empty_queue w :
  localStorage w !! OUTBOX = None -> fst <$> getMessageQueue w = Some [].
Proof. intros H. now rewrite (getMessageQueue_absent w H). Qed.

(** The pass over a queue that is not empty, from what the reads give. *)
Lemma pass_outcome atob sendChatMessage queue history w :
  fst <$> getMessageQueue w = Some queue ->
  fst <$> getChatHistory w = Some history ->
  queue <> [] ->
  accepts w HISTORY ->
  exists w',
    syncOfflineMessages atob sendChatMessage true false w = Some (false, w')
    /\ fst <$> getChatHistory w'
       = Some (after_turns atob sendChatMessage queue history)
    /\ fst <$> getMessageQueue w' = Some [].
Proof.
  intros Hq Hh Hne Hacc.
  destruct (getMessageQueue w) as [[queue' wq]|] eqn:Eq; [| discriminate].
  destruct (getChatHistory w) as [[history' wh]|] eqn:Eh; [| discriminate].
  injection Hq as ->. injection Hh as ->.
  destruct (syncOfflineMessages_spec atob sendChatMessage queue history w wq wh
              Eq Eh Hne Hacc) as (w' & Hsync & Hhist & Hout & _).
  exists w'. split; [exact Hsync |].
  split; [now apply reads_history | now apply reads_empty_queue].
Qed.
End TranscriptFacts.

Module MarkFacts.
Import JSON Platform Observing offlineService App.
Import JSONFacts ViewFacts ServiceFacts DrainFacts MachineFacts TranscriptFacts.

Lemma marks_app t1 t2 : marks (t1 ++ t2) = marks t1 ++ marks t2.
Proof. apply omap_app. Qed.

Lemma marks_extend t w : marks (trace (extend t w)) = marks (trace w) ++ marks t.
Proof. apply marks_app. Qed.

Lemma quiet_marks w w' : quiet w w' -> marks (trace w') = marks (trace w).
Proof.
  intros (t & -> & H). rewrite marks_extend.
  replace (marks t) with (@nil Mark); [now rewrite app_nil_r |].
  induction t as [|e t IH]; [reflexivity |]. simpl in H.
  apply andb_true_iff in H as [He Ht].
  destruct e; try discriminate; simpl; auto.
Qed.

(** Saving the transcript is one write of it, taken or refused. *)
Lemma saveChatHistory_marks history w :
  exists w',
    saveChatHistory history w = Some (tt, w')
    /\ marks (trace w') = marks (trace w) ++ [Wrote].
Proof.
  rewrite saveChatHistory_run. cbv zeta. fold HISTORY.
  destruct w as [ls q c n t]. cbn [quota clock ticks].
  destruct (q _ _); eexists; (split; [reflexivity |]); cbn [trace store extend tick];
    rewrite marks_app; f_equal; cbn; now rewrite String.eqb_refl.
Qed.

(** A chunk is one write of the transcript. *)
Lemma receive_marks q chunk l h m w :
  (if firstChunk l then currentChatHistory l ++ [model_message q]
   else currentChatHistory l) = h ++ [m] ->
  ChatMessage.role m = ChatMessage.model ->
  exists w',
    receive q chunk l w
    = Some ({| fullResponse := fullResponse l +:+ chunk; firstChunk := false;
               currentChatHistory :=
                 h ++ [ChatMessage.set_text (fullResponse l +:+ chunk) m] |}, w')
    /\ marks (trace w') = marks (trace w) ++ [Wrote].
Proof.
  intros Hh Hm. unfold receive. rewrite Hh, last_snoc', Hm. cbn [ChatMessage.Role_eqb].
  rewrite alter_last, bind_run.
  destruct (saveChatHistory_marks
              (h ++ [ChatMessage.set_text (fullResponse l +:+ chunk) m]) w)
    as (w' & -> & Hmarks).
  exists w'. split; [reflexivity | exact Hmarks].
Qed.

Section Loop.
Variable atob : string -> option string.
Variable sendChatMessage : string -> option File -> LanguageCode -> Stream.

Lemma receive_all_marks q chunks : forall l w,
  firstChunk l = true
  \/ (exists h m, currentChatHistory l = h ++ [m]
                  /\ ChatMessage.role m = ChatMessage.model) ->
  exists l' w',
    receive_all q chunks l w = Some (l', w')
    /\ marks (trace w') = marks (trace w) ++ repeat Wrote (length chunks).
Proof.
  induction chunks as [|chunk chunks IH]; intros l w Hl.
  - exists l, w. split; [reflexivity |]. cbn. now rewrite app_nil_r.
  - cbn [receive_all]. rewrite bind_run.
    assert (exists h m,
              (if firstChunk l then currentChatHistory l ++ [model_message q]
               else currentChatHistory l) = h ++ [m]
              /\ ChatMessage.role m = ChatMessage.model) as (h & m & Hh & Hm).
    { destruct Hl as [-> | (h & m & Hh & Hm)].
      - exists (currentChatHistory l), (model_message q). split; reflexivity.
      - destruct (firstChunk l).
        + exists (currentChatHistory l), (model_message q). split; reflexivity.
        + exists h, m. split; assumption. }
    destruct (receive_marks q chunk l h m w Hh Hm) as (w1 & -> & Hmarks1).
    destruct (IH {| fullResponse := fullResponse l +:+ chunk; firstChunk := false;
                    currentChatHistory :=
                      h ++ [ChatMessage.set_text (fullResponse l +:+ chunk) m] |} w1)
      as (l' & w' & Hrun & Hmarks).
    { right. cbn [firstChunk currentChatHistory]. eexists _, _. split; [reflexivity |].
      exact Hm. }
    exists l', w'. split; [exact Hrun |].
    rewrite Hmarks, Hmarks1, <- app_assoc. reflexivity.
Qed.

(** A turn: the call, and then a write for every chunk. *)
Lemma turn_marks q h w :
  exists h' w',
    turn atob sendChatMessage q h w = Some (h', w')
    /\ marks (trace w') = marks (trace w) ++ marks_of atob sendChatMessage q.
Proof.
  unfold turn, marks_of.
  destruct (file_of atob q) as [file|]; cbv beta iota zeta delta [mbind M_bind].
  - rewrite emit_run.
    destruct (receive_all_marks q
                (chunks (sendChatMessage (QueuedMessage.prompt q) file
                           (QueuedMessage.lang q)))
                {| fullResponse := EmptyString; firstChunk := true;
                   currentChatHistory := h |}
                (extend [SendChatMessage (QueuedMessage.prompt q) file
                           (QueuedMessage.lang q)] w))
      as (l & w1 & -> & Hmarks); [now left |].
    rewrite marks_extend in Hmarks. cbn [marks omap mark] in Hmarks.
    destruct (ending _).
    + eexists _, _. split; [reflexivity |].
      rewrite Hmarks, <- app_assoc. reflexivity.
    + rewrite console_error_run. eexists _, _. split; [reflexivity |].
      rewrite marks_extend, Hmarks, <- !app_assoc. cbn. now rewrite app_nil_r.
  - rewrite console_error_run. eexists _, _. split; [reflexivity |].
    rewrite marks_extend. reflexivity.
Qed.

Lemma turns_marks queue : forall h w,
  exists h' w',
    turns atob sendChatMessage queue h w = Some (h', w')
    /\ marks (trace w')
       = marks (trace w) ++ mjoin (marks_of atob sendChatMessage <$> queue).
Proof.
  induction queue as [|q queue IH]; intros h w.
  - exists h, w. split; [reflexivity |]. cbn. now rewrite app_nil_r.
  - cbn [turns]. rewrite bind_run.
    destruct (turn_marks q h w) as (h1 & w1 & -> & Hmarks1).
    destruct (IH h1 w1) as (h' & w' & -> & Hmarks).
    exists h', w'. split; [reflexivity |].
    rewrite Hmarks, Hmarks1, <- app_assoc. reflexivity.
Qed.

(** The marks of a pass that returns. *)
Lemma syncOfflineMessages_marks queue w wq flag w' :
  getMessageQueue w = Some (queue, wq) ->
  syncOfflineMessages atob sendChatMessage true false w = Some (flag, w') ->
  marks (trace w') = marks (trace w) ++ marks_of_pass atob sendChatMessage queue.
Proof.
  intros Hq. unfold syncOfflineMessages. cbn [orb negb]. rewrite bind_run, Hq.
  pose proof (quiet_marks _ _ (getMessageQueue_quiet _ _ _ Hq)) as Hm1.
  destruct queue as [|q queue].
  - rewrite ret_run. intros [= _ <-]. cbn. now rewrite app_nil_r.
  - rewrite bind_run.
    destruct (getChatHistory wq) as [[h wh]|] eqn:Hh; [| discriminate].
    pose proof (quiet_marks _ _ (getChatHistory_quiet _ _ _ Hh)) as Hm2.
    rewrite bind_run.
    destruct (turns_marks (q :: queue) h wh) as (h' & w1 & -> & Hm3).
    rewrite bind_run.
    destruct (saveChatHistory_marks h' w1) as (w2 & -> & Hm4).
    rewrite bind_run, clearMessageQueue_run, ret_run. intros [= _ <-].
    cbn [trace erase extend]. rewrite marks_app. cbn [marks omap mark].
    rewrite app_nil_r, Hm4, Hm3, Hm2, Hm1.
    unfold marks_of_pass. now rewrite <- !app_assoc.
Qed.
End Loop.

End MarkFacts.

Module ChatFacts.
Import JSON Platform Observing offlineService App JSONFacts ViewFacts ServiceFacts DrainFacts MachineFacts TranscriptFacts.

(** The listener hears the event of the transcript's key. *)
Lemma handleStorageChange_history :
  AIChat.handleStorageChange HISTORY
  = (stored ← getChatHistory; mret (Some stored)).
Proof. reflexivity. Qed.

(** A save the store takes: the listener reads back what was written. *)
Lemma save_accepted updated s w :
  accepts w HISTORY ->
  exists w',
    AIChat.save updated s w = Some (AIChat.setMessages updated s, w')
    /\ steady w w' /\ holds_history w' updated
    /\ sends (trace w') = sends (trace w).
Proof.
  intros Hacc. unfold AIChat.save.
  destruct (saveChatHistory_accepted updated w Hacc)
    as (w1 & Hsave & Hst & (ts & Hholds) & Hsends).
  rewrite bind_run, Hsave. fold HISTORY. rewrite handleStorageChange_history.
  rewrite !bind_run, (getChatHistory_holds ts updated w1 Hholds), ret_run.
  eexists. split; [reflexivity |]. split; [| split].
  - eapply steady_trans; [exact Hst | apply steady_extend].
  - exists ts. exact Hholds.
  - rewrite sends_extend, Hsends. simpl. apply app_nil_r.
Qed.

Lemma with_text_last text (h : list ChatMessage.t) (m : ChatMessage.t) :
  ChatMessage.role m = ChatMessage.model ->
  AIChat.with_text text (h ++ [m]) = h ++ [ChatMessage.set_text text m].
Proof.
  intros Hm. unfold AIChat.with_text. rewrite last_snoc', Hm. cbn [ChatMessage.Role_eqb].
  apply alter_last.
Qed.

(** The first chunk. *)
Lemma receive_first messageId chunk l s w :
  accepts w HISTORY ->
  AIChat.firstChunkReceived l = false ->
  exists s' w',
    AIChat.receive messageId chunk l s w
    = Some ({| AIChat.fullResponse := AIChat.fullResponse l +:+ chunk;
               AIChat.firstChunkReceived := true |}, s', w')
    /\ AIChat.messages s'
       = AIChat.messages s
         ++ [ChatMessage.set_text (AIChat.fullResponse l +:+ chunk)
               (AIChat.aiMessage messageId)]
    /\ steady w w' /\ holds_history w' (AIChat.messages s')
    /\ sends (trace w') = sends (trace w).
Proof.
  intros Hacc Hfirst. unfold AIChat.receive. rewrite Hfirst.
  destruct (save_accepted
              (AIChat.messages (AIChat.setLoading false s) ++ [AIChat.aiMessage messageId])
              (AIChat.setLoading false s) w Hacc)
    as (w1 & Hsave1 & Hst1 & _ & Hsends1).
  rewrite bind_run, Hsave1. cbv zeta.
  destruct (save_accepted
              (AIChat.with_text (AIChat.fullResponse l +:+ chunk)
                 (AIChat.messages
                    (AIChat.setMessages
                       (AIChat.messages (AIChat.setLoading false s)
                        ++ [AIChat.aiMessage messageId])
                       (AIChat.setLoading false s))))
              (AIChat.setMessages
                 (AIChat.messages (AIChat.setLoading false s)
                  ++ [AIChat.aiMessage messageId])
                 (AIChat.setLoading false s))
              w1 (steady_accepts _ _ _ Hst1 Hacc))
    as (w2 & Hsave2 & Hst2 & Hholds2 & Hsends2).
  rewrite bind_run, Hsave2, ret_run.
  eexists _, w2. split; [reflexivity |].
  cbn [AIChat.messages AIChat.setMessages AIChat.setLoading] in *.
  rewrite with_text_last in * by reflexivity.
  split; [reflexivity |]. split; [eapply steady_trans; eassumption |].
  split; [exact Hholds2 | congruence].
Qed.

(** A later chunk, when the last message is one of the model. *)
Lemma receive_next messageId chunk l s h m w :
  accepts w HISTORY ->
  AIChat.firstChunkReceived l = true ->
  AIChat.messages s = h ++ [m] ->
  ChatMessage.role m = ChatMessage.model ->
  exists s' w',
    AIChat.receive messageId chunk l s w
    = Some ({| AIChat.fullResponse := AIChat.fullResponse l +:+ chunk;
               AIChat.firstChunkReceived := true |}, s', w')
    /\ AIChat.messages s'
       = h ++ [ChatMessage.set_text (AIChat.fullResponse l +:+ chunk) m]
    /\ steady w w' /\ holds_history w' (AIChat.messages s')
    /\ sends (trace w') = sends (trace w).
Proof.
  intros Hacc Hfirst Hs Hm. unfold AIChat.receive. rewrite Hfirst.
  rewrite bind_run, ret_run. cbv zeta.
  destruct (save_accepted
              (AIChat.with_text (AIChat.fullResponse l +:+ chunk) (AIChat.messages s))
              s w Hacc)
    as (w2 & Hsave2 & Hst2 & Hholds2 & Hsends2).
  rewrite bind_run, Hsave2, ret_run.
  eexists _, w2. split; [reflexivity |].
  cbn [AIChat.messages AIChat.setMessages] in *.
  rewrite Hs, with_text_last in * by exact Hm.
  split; [reflexivity |]. split; [exact Hst2 |]. split; [exact Hholds2 | exact Hsends2].
Qed.

Lemma set_text_set_text a b (m : ChatMessage.t) :
  ChatMessage.set_text a (ChatMessage.set_text b m) = ChatMessage.set_text a m.
Proof. reflexivity. Qed.

(** The chunks after the first. *)
Lemma receive_rest messageId chunks : forall text s h m w,
  accepts w HISTORY ->
  AIChat.messages s = h ++ [ChatMessage.set_text text m] ->
  ChatMessage.role m = ChatMessage.model ->
  holds_history w (AIChat.messages s) ->
  exists s' w',
    AIChat.receive_all messageId chunks
      {| AIChat.fullResponse := text; AIChat.firstChunkReceived := true |} s w
    = Some ({| AIChat.fullResponse := fold_left String.append chunks text;
               AIChat.firstChunkReceived := true |}, s', w')
    /\ AIChat.messages s'
       = h ++ [ChatMessage.set_text (fold_left String.append chunks text) m]
    /\ steady w w' /\ holds_history w' (AIChat.messages s')
    /\ sends (trace w') = sends (trace w).
Proof.
  induction chunks as [|chunk chunks IH]; intros text s h m w Hacc Hs Hm Hholds.
  - exists s, w. cbn [AIChat.receive_all fold_left]. rewrite ret_run.
    split; [reflexivity |]. split; [exact Hs |]. split; [apply steady_refl |].
    split; [exact Hholds | reflexivity].
  - cbn [AIChat.receive_all fold_left].
    destruct (receive_next messageId chunk
                {| AIChat.fullResponse := text; AIChat.firstChunkReceived := true |}
                s h (ChatMessage.set_text text m) w Hacc eq_refl Hs Hm)
      as (s1 & w1 & Hrun & Hs1 & Hst1 & Hholds1 & Hsends1).
    cbn [AIChat.fullResponse] in Hrun, Hs1. rewrite set_text_set_text in Hs1.
    destruct (IH (text +:+ chunk) s1 h m w1 (steady_accepts _ _ _ Hst1 Hacc)
                Hs1 Hm Hholds1)
      as (s2 & w2 & Hrun2 & Hs2 & Hst2 & Hholds2 & Hsends2).
    exists s2, w2. rewrite bind_run, Hrun. split; [exact Hrun2 |].
    split; [exact Hs2 |]. split; [eapply steady_trans; eassumption |].
    split; [exact Hholds2 | congruence].
Qed.

(** A stream with a first chunk. *)
Lemma receive_all_chunks messageId first more s w :
  accepts w HISTORY ->
  exists s' w',
    AIChat.receive_all messageId (first :: more)
      {| AIChat.fullResponse := EmptyString; AIChat.firstChunkReceived := false |} s w
    = Some ({| AIChat.fullResponse := accumulate (first :: more);
               AIChat.firstChunkReceived := true |}, s', w')
    /\ AIChat.messages s'
       = AIChat.messages s
         ++ [ChatMessage.set_text (accumulate (first :: more)) (AIChat.aiMessage messageId)]
    /\ steady w w' /\ holds_history w' (AIChat.messages s')
    /\ sends (trace w') = sends (trace w).
Proof.
  intros Hacc. cbn [AIChat.receive_all].
  destruct (receive_first messageId first
              {| AIChat.fullResponse := EmptyString; AIChat.firstChunkReceived := false |}
              s w Hacc eq_refl)
    as (s1 & w1 & Hrun & Hs1 & Hst1 & Hholds1 & Hsends1).
  cbn [AIChat.fullResponse] in Hrun, Hs1.
  destruct (receive_rest messageId more (EmptyString +:+ first) s1 (AIChat.messages s)
              (AIChat.aiMessage messageId) w1 (steady_accepts _ _ _ Hst1 Hacc)
              Hs1 eq_refl Hholds1)
    as (s2 & w2 & Hrun2 & Hs2 & Hst2 & Hholds2 & Hsends2).
  exists s2, w2. rewrite bind_run, Hrun. split; [exact Hrun2 |].
  split; [exact Hs2 |]. split; [eapply steady_trans; eassumption |].
  split; [exact Hholds2 | congruence].
Qed.

Section Send.
Variable trim : string -> string.
Variable createObjectURL : File -> string.
Variable fileToBase64 : File -> option string.
Variable sendChatMessage : string -> option File -> LanguageCode -> Stream.

(** A message that is not blank, sent while online, to a backend whose
    stream has a first chunk and ends well. *)
Lemma sendMessage_online messageId lang prompt file s first more w :
  accepts w HISTORY ->
  AIChat.blank trim prompt = false ->
  sendChatMessage prompt file lang
  = {| chunks := first :: more; ending := Completed |} ->
  exists s' w',
    AIChat.sendMessage trim createObjectURL fileToBase64 sendChatMessage
      messageId true lang prompt file s w = Some (s', w')
    /\ AIChat.messages s'
       = AIChat.messages s
         ++ [AIChat.userMessage createObjectURL messageId prompt file true;
             ChatMessage.set_text (accumulate (first :: more))
               (AIChat.aiMessage messageId)]
    /\ holds_history w' (AIChat.messages s').
Proof.
  intros Hacc Hblank Hstream. unfold AIChat.sendMessage.
  rewrite Hblank, andb_false_r. cbn [andb negb]. cbv zeta.
  set (s0 := AIChat.setError None (AIChat.setLoading true s)).
  destruct (save_accepted
              (AIChat.messages s0
               ++ [AIChat.userMessage createObjectURL messageId prompt file true])
              s0 w Hacc)
    as (w1 & Hsave & Hst1 & _ & _).
  rewrite bind_run, Hsave, bind_run, emit_run, Hstream. cbn [chunks ending].
  destruct (receive_all_chunks messageId first more
              (AIChat.setMessages
                 (AIChat.messages s0
                  ++ [AIChat.userMessage createObjectURL messageId prompt file true])
                 s0)
              (extend [SendChatMessage prompt file lang] w1))
    as (s2 & w2 & Hrun & Hs2 & _ & Hholds & _).
  { eapply steady_accepts; [| exact Hacc].
    eapply steady_trans; [exact Hst1 | apply steady_extend]. }
  rewrite bind_run, Hrun. cbn [AIChat.fullResponse].
  cbn [AIChat.messages AIChat.setMessages] in Hs2.
  rewrite <- app_assoc in Hs2. cbn [app] in Hs2.
  assert (forall s3, AIChat.messages (AIChat.setLoading false s3) = AIChat.messages s3)
    as Hload by reflexivity.
  destruct (accumulate (first :: more)) eqn:Hacc'.
  - eexists _, w2. rewrite ret_run. split; [reflexivity |].
    rewrite Hload. split; [exact Hs2 | exact Hholds].
  - eexists _, w2. rewrite ret_run. split; [reflexivity |].
    rewrite Hload. cbn [AIChat.messages AIChat.setMessageToSpeak].
    split; [exact Hs2 | exact Hholds].
Qed.
End Send.

End ChatFacts.

Module StoreFacts.
Import JSON Platform Observing Runs offlineService App.
Import JSONFacts ViewFacts ServiceFacts DrainFacts MachineFacts QueueFacts TranscriptFacts.

(** A read sees the item under its own key only. *)
Lemma getCachedData_item key w1 w2 :
  localStorage w2 !! (CACHE_PREFIX +:+ key) = localStorage w1 !! (CACHE_PREFIX +:+ key) ->
  fst <$> getCachedData key w2 = fst <$> getCachedData key w1.
Proof.
  intros H. rewrite !getCachedData_run, H.
  destruct (localStorage w1 !! _) as [[|c text]|];
    [| destruct (parse _) |]; reflexivity.
Qed.

Lemma read_item {A} (view : json -> option A) key w1 w2 :
  localStorage w2 !! (CACHE_PREFIX +:+ key) = localStorage w1 !! (CACHE_PREFIX +:+ key) ->
  fst <$> (getCachedData key ≫= fun entry =>
             cast view (or_empty_array (optional_data entry))) w2
  = fst <$> (getCachedData key ≫= fun entry =>
               cast view (or_empty_array (optional_data entry))) w1.
Proof.
  intros H. pose proof (getCachedData_item key w1 w2 H) as Hv.
  rewrite !bind_run.
  destruct (getCachedData_quiet key w1) as (v1 & u1 & E1 & _).
  destruct (getCachedData_quiet key w2) as (v2 & u2 & E2 & _).
  rewrite E1, E2 in *. simpl in Hv. injection Hv as ->.
  unfold cast. destruct (view _); reflexivity.
Qed.

(** What a list getter gives when nothing usable is stored. *)
Lemma read_unusable {A} (elem : json -> option A) key w :
  unusable w key ->
  fst <$> (getCachedData key ≫= fun entry =>
             cast (array_of_json elem) (or_empty_array (optional_data entry))) w
  = Some [].
Proof.
  intros H. rewrite bind_run, getCachedData_run.
  destruct H as [-> | (text & -> & Hparse)]; [reflexivity |].
  destruct text as [|c text]; [reflexivity |].
  destruct (parse (String c text)) as [v|]; [| reflexivity].
  unfold or_empty_array. rewrite Hparse. reflexivity.
Qed.




(** *** Decimal texts *)

Lemma pretty_N_char_digit (d : N) :
  (d < 10)%N ->
  is_digit (pretty_N_char d) = true
  /\ digit_value (pretty_N_char d) = Z.of_N d
  /\ is_space (pretty_N_char d) = false
  /\ Ascii.eqb (pretty_N_char d) "-" = false
  /\ Ascii.eqb (pretty_N_char d) "+" = false.
Proof.
  intros H.
  assert (d = 0 \/ d = 1 \/ d = 2 \/ d = 3 \/ d = 4 \/ d = 5 \/ d = 6 \/ d = 7
          \/ d = 8 \/ d = 9)%N as Hd by lia.
  repeat destruct Hd as [-> | Hd]; try subst d; repeat split; reflexivity.
Qed.

Lemma read_digits_go (x : N) :
  exists k : Z, forall acc s,
    read_digits acc (pretty_N_go x s) = read_digits (acc * k + Z.of_N x) s.
Proof.
  induction (N.lt_wf_0 x) as [x _ IH].
  destruct (decide (x = 0)%N) as [-> | Hx].
  - exists 1%Z. intros acc s. rewrite pretty_N_go_0. f_equal. lia.
  - destruct (IH (x `div` 10)%N) as (k & Hk); [apply N.div_lt; lia |].
    exists (10 * k)%Z. intros acc s.
    rewrite pretty_N_go_step by lia. rewrite Hk. cbn [read_digits].
    destruct (pretty_N_char_digit (x `mod` 10)%N) as (-> & -> & _);
      [apply N.mod_lt; lia |].
    f_equal. pose proof (N.div_mod x 10 ltac:(lia)) as E.
    apply (f_equal Z.of_N) in E. rewrite N2Z.inj_add, N2Z.inj_mul in E.
    change (Z.of_N 10) with 10%Z in E. rewrite E. ring.
Qed.

Lemma pretty_N_go_head (x : N) s :
  (0 < x)%N -> exists d r, (d < 10)%N /\ pretty_N_go x s = String (pretty_N_char d) r.
Proof.
  revert s. induction (N.lt_wf_0 x) as [x _ IH]. intros s Hx.
  rewrite pretty_N_go_step by exact Hx.
  destruct (decide (x `div` 10 = 0)%N) as [-> | Hdiv].
  - rewrite pretty_N_go_0. eexists _, _. split; [| reflexivity]. apply N.mod_lt. lia.
  - apply IH; [apply N.div_lt; lia | now apply N.neq_0_lt_0].
Qed.

Lemma pretty_positive_digits (p : positive) :
  read_digits 0 (pretty p) = Z.pos p
  /\ exists d r, (d < 10)%N /\ pretty p = String (pretty_N_char d) r.
Proof.
  unfold pretty, pretty_positive, pretty, pretty_N.
  destruct (decide (N.pos p = 0%N)) as [|_]; [discriminate |].
  split; [| apply pretty_N_go_head; lia].
  destruct (read_digits_go (N.pos p)) as (k & Hk).
  now rewrite (Hk 0%Z EmptyString).
Qed.

Lemma parseInt_digits (d : N) (r : string) :
  (d < 10)%N ->
  parseInt (String (pretty_N_char d) r)
  = Integer (read_digits 0 (String (pretty_N_char d) r))
  /\ parseInt (String "-" (String (pretty_N_char d) r))
     = Integer (- read_digits 0 (String (pretty_N_char d) r)).
Proof.
  intros Hd. destruct (pretty_N_char_digit d Hd) as (Hdig & _ & Hsp & Hminus & Hplus).
  unfold parseInt. cbn [skip_space]. rewrite Hsp, Hminus, Hplus, Hdig.
  split; [reflexivity |].
  change (is_space "-") with false. cbv iota.
  change (Ascii.eqb "-" "-") with true. cbv iota. now rewrite Hdig.
Qed.

(** The text of a whole number a double holds exactly is its decimal
    digits. *)
Lemma toString_safe (n : Z) :
  (Z.abs n < 2 ^ 53)%Z -> toString (Integer n) = Some (pretty n).
Proof.
  intros Hn. unfold toString.
  destruct (Z.ltb_spec (Z.abs n) (2 ^ 53)) as [_ | Hge]; [reflexivity | lia].
Qed.

(** [parseInt] reads the decimal text of a whole number back. *)
Lemma parseInt_pretty (n : Z) : parseInt (pretty n) = Integer n.
Proof.
  destruct n as [|p|p]; [reflexivity | |];
    destruct (pretty_positive_digits p) as (Hp & d & r & Hd & Hhead);
    destruct (parseInt_digits d r Hd) as (Hpos & Hneg).
  - change (pretty (Z.pos p)) with (pretty p). now rewrite Hhead, Hpos, <- Hhead, Hp.
  - change (pretty (Z.neg p)) with (String "-" (pretty p)).
    now rewrite Hhead, Hneg, <- Hhead, Hp.
Qed.

Lemma pretty_nonempty (n : Z) : pretty n <> EmptyString.
Proof.
  destruct n as [|p|p]; [discriminate | | discriminate].
  change (pretty (Z.pos p)) with (pretty p).
  destruct (pretty_positive_digits p) as (_ & d & r & _ & ->). discriminate.
Qed.

End StoreFacts.

Module PassFacts.
Import JSON Platform Observing Runs offlineService App.
Import JSONFacts ViewFacts ServiceFacts DrainFacts MachineFacts QueueFacts TranscriptFacts.
Import StoreFacts.

Lemma findIndex_none {A} (p : A -> bool) (l : list A) :
  Forall (fun y => p y = false) l -> findIndex p l = (-1)%Z.
Proof.
  induction 1 as [|y l Hy _ IH]; [reflexivity |].
  cbn [findIndex]. now rewrite Hy, IH.
Qed.

Lemma same_but_status_refl m : same_but_status m m.
Proof. repeat split. Qed.

Lemma same_but_status_trans m1 m2 m3 :
  same_but_status m1 m2 -> same_but_status m2 m3 -> same_but_status m1 m3.
Proof. unfold same_but_status. intuition congruence. Qed.

Lemma same_but_status_set s m : same_but_status m (ChatMessage.set_status s m).
Proof. repeat split. Qed.

Lemma Forall2_same_refl (l : list ChatMessage.t) : Forall2 same_but_status l l.
Proof. induction l; constructor; auto using same_but_status_refl. Qed.

Lemma Forall2_same_trans (l1 l2 l3 : list ChatMessage.t) :
  Forall2 same_but_status l1 l2 -> Forall2 same_but_status l2 l3 ->
  Forall2 same_but_status l1 l3.
Proof.
  intros H. revert l3. induction H as [|x y l1 l2 Hxy _ IH]; intros l3 H3.
  - inversion H3. constructor.
  - inversion H3 as [|? z ? l3' Hyz H3']; subst. constructor.
    + eapply same_but_status_trans; eassumption.
    + now apply IH.
Qed.

(** Setting a status changes no more than a status. *)
Lemma settle_same s i (h : list ChatMessage.t) : Forall2 same_but_status h (settle s i h).
Proof.
  unfold settle. destruct (i >? -1)%Z; [| apply Forall2_same_refl].
  generalize (Z.to_nat i). intros n. revert n.
  induction h as [|m h IH]; intros [|n]; cbn; constructor;
    auto using same_but_status_refl, same_but_status_set, Forall2_same_refl.
Qed.

Section Shape.
Variable atob : string -> option string.
Variable sendChatMessage : string -> option File -> LanguageCode -> Stream.

(** A turn keeps the messages there are, but for a status, and appends at
    most the reply to its message. *)
Lemma after_turn_shape q h :
  exists kept replies,
    after_turn atob sendChatMessage q h = kept ++ replies
    /\ Forall2 same_but_status h kept
    /\ (replies = [] \/ exists m, replies = [m] /\ reply_to q m).
Proof.
  assert (forall s i chunks,
            exists kept replies,
              settle s i (with_reply q chunks h) = kept ++ replies
              /\ Forall2 same_but_status h kept
              /\ (replies = [] \/ exists m, replies = [m] /\ reply_to q m)) as Hshape.
  { intros s i chunks. pose proof (settle_same s i (with_reply q chunks h)) as Hsame.
    destruct chunks as [|first more]; cbn [with_reply] in *.
    - exists (settle s i h), []. rewrite app_nil_r. auto.
    - apply Forall2_app_inv_l in Hsame as (kept & replies & Hkept & Hreplies & ->).
      exists kept, replies. split; [reflexivity |]. split; [exact Hkept |].
      right. inversion Hreplies as [|? m ? l' Hm Hnil]; subst.
      inversion Hnil; subst. exists m. split; [reflexivity |].
      destruct Hm as (Hid & Hrole & _). split; [exact Hid | exact Hrole]. }
  unfold after_turn. destruct (file_of atob q) as [file|].
  - apply Hshape.
  - exists (settle ChatMessage.failed (userMessageIndex_of q h) h), [].
    rewrite app_nil_r. split; [reflexivity |]. split; [apply settle_same | now left].
Qed.

Lemma reply_to_same q m m' : reply_to q m -> same_but_status m m' -> reply_to q m'.
Proof. intros [Hid Hrole] (Hid' & Hrole' & _). split; congruence. Qed.

Lemma after_turns_shape queue : forall h,
  exists kept replies answered,
    after_turns atob sendChatMessage queue h = kept ++ replies
    /\ Forall2 same_but_status h kept
    /\ sublist answered queue
    /\ Forall2 reply_to answered replies.
Proof.
  induction queue as [|q queue IH]; intros h.
  - exists h, [], []. rewrite app_nil_r.
    split; [reflexivity |]. split; [apply Forall2_same_refl |].
    split; constructor.
  - change (after_turns atob sendChatMessage (q :: queue) h)
      with (after_turns atob sendChatMessage queue (after_turn atob sendChatMessage q h)).
    destruct (after_turn_shape q h) as (kept1 & r1 & -> & Hkept1 & Hr1).
    destruct (IH (kept1 ++ r1)) as (kept2 & replies2 & answered2 & -> & Hkept2 & Hsub & Hrep).
    apply Forall2_app_inv_l in Hkept2 as (k2a & k2b & Hk2a & Hk2b & ->).
    destruct Hr1 as [-> | (m & -> & Hm)].
    + inversion Hk2b; subst. exists k2a, replies2, answered2.
      split; [now rewrite app_nil_r |]. split; [eapply Forall2_same_trans; eassumption |].
      split; [now apply sublist_cons | exact Hrep].
    + inversion Hk2b as [|? m' ? l' Hmm' Hnil]; subst. inversion Hnil; subst.
      exists k2a, (m' :: replies2), (q :: answered2).
      split; [now rewrite <- app_assoc |].
      split; [eapply Forall2_same_trans; eassumption |].
      split; [now apply sublist_skip |].
      constructor; [eapply reply_to_same; eassumption | exact Hrep].
Qed.
End Shape.

(** *** What a pass makes of each message *)

Lemma settled_refl queue m : settled queue m m.
Proof. split; [apply same_but_status_refl | reflexivity]. Qed.

Lemma Forall2_settled_refl queue (l : list ChatMessage.t) :
  Forall2 (settled queue) l l.
Proof. induction l; constructor; auto using settled_refl. Qed.

Lemma settled_app queue1 queue2 m1 m2 m3 :
  settled queue1 m1 m2 -> settled queue2 m2 m3 -> settled (queue1 ++ queue2) m1 m3.
Proof.
  intros [Hs1 He1] [Hs2 He2]. split; [eapply same_but_status_trans; eassumption |].
  intros H. apply Forall_app in H as [H1 H2].
  rewrite <- (He1 H1). apply He2.
  destruct Hs1 as (Hid & _). now rewrite Hid.
Qed.

Lemma Forall2_settled_app queue1 queue2 (l1 l2 l3 : list ChatMessage.t) :
  Forall2 (settled queue1) l1 l2 -> Forall2 (settled queue2) l2 l3 ->
  Forall2 (settled (queue1 ++ queue2)) l1 l3.
Proof.
  intros H. revert l3. induction H as [|x y l1 l2 Hxy _ IH]; intros l3 H3.
  - inversion H3. constructor.
  - inversion H3 as [|? z ? l3' Hyz H3']; subst. constructor.
    + eapply settled_app; eassumption.
    + now apply IH.
Qed.

(** Two messages that differ in their status at most are the same once
    the status is set. *)
Lemma set_status_same s m m' :
  same_but_status m m' -> ChatMessage.set_status s m' = ChatMessage.set_status s m.
Proof.
  destruct m, m'. unfold same_but_status, ChatMessage.set_status. cbn.
  intros (-> & -> & -> & -> & -> & ->). reflexivity.
Qed.

(** The message a queued message sets the status of has its id. *)
Lemma settle_settled q s (h : list ChatMessage.t) :
  Forall2 (settled [q]) h (settle s (userMessageIndex_of q h) h).
Proof.
  unfold settle, userMessageIndex_of.
  set (p := fun m => String.eqb (ChatMessage.id m) (QueuedMessage.id q)).
  destruct (findIndex p h >? -1)%Z eqn:Hi; [| apply Forall2_settled_refl].
  apply Z.gtb_lt in Hi. revert Hi.
  induction h as [|m h IH]; [constructor |].
  cbn [findIndex]. destruct (p m) eqn:Hm.
  - intros _. cbn. constructor; [| apply Forall2_settled_refl].
    split; [apply same_but_status_set |].
    intros H. inversion H as [|? ? Hne _]; subst.
    apply String.eqb_eq in Hm. congruence.
  - destruct (Z.ltb_spec (findIndex p h) 0) as [Hlt | Hge]; [lia |].
    intros _. replace (Z.to_nat (findIndex p h + 1)) with (S (Z.to_nat (findIndex p h)))
      by lia.
    cbn. constructor; [apply settled_refl |]. apply IH. lia.
Qed.

Lemma with_reply_app q chunks (h : list ChatMessage.t) :
  with_reply q chunks h = h ++ with_reply q chunks [].
Proof. destruct chunks; cbn [with_reply]; [now rewrite app_nil_r | reflexivity]. Qed.

Lemma with_reply_shape q chunks :
  with_reply q chunks [] = [] \/ exists m, with_reply q chunks [] = [m] /\ reply_to q m.
Proof.
  destruct chunks as [|first more]; [now left | right].
  eexists. split; [reflexivity |]. split; reflexivity.
Qed.

Lemma settle_app s i (h extra : list ChatMessage.t) :
  i = (-1)%Z \/ (0 <= i < Z.of_nat (length h))%Z ->
  settle s i (h ++ extra) = settle s i h ++ extra.
Proof.
  unfold settle. intros [-> | Hi]; [reflexivity |].
  destruct (i >? -1)%Z; [| reflexivity].
  rewrite alter_app_l by lia. reflexivity.
Qed.

Section Around.
Variable atob : string -> option string.
Variable sendChatMessage : string -> option File -> LanguageCode -> Stream.

(** The turn of a queued message whose file cannot be rebuilt, and the
    turn of one whose stream is consumed: a status, and then the reply. *)
Lemma after_turn_undecodable q h :
  file_of atob q = None ->
  after_turn atob sendChatMessage q h
  = settle ChatMessage.failed (userMessageIndex_of q h) h ++ with_reply q [] [].
Proof. intros Hfile. unfold after_turn. rewrite Hfile. cbn. now rewrite app_nil_r. Qed.

Lemma after_turn_streamed q file h :
  file_of atob q = Some file ->
  let stream := sendChatMessage (QueuedMessage.prompt q) file (QueuedMessage.lang q) in
  after_turn atob sendChatMessage q h
  = settle match ending stream with
           | Completed => ChatMessage.sent
           | Threw _ => ChatMessage.failed
           end (userMessageIndex_of q h) h
    ++ with_reply q (chunks stream) [].
Proof.
  intros Hfile stream. unfold after_turn. rewrite Hfile. fold stream.
  rewrite with_reply_app. apply settle_app. apply findIndex_range.
Qed.

Lemma after_turn_parts q :
  exists s chunks, forall h,
    after_turn atob sendChatMessage q h
    = settle s (userMessageIndex_of q h) h ++ with_reply q chunks [].
Proof.
  destruct (file_of atob q) as [file|] eqn:Hfile.
  - eexists _, _. intros h. exact (after_turn_streamed q file h Hfile).
  - eexists _, _. intros h. exact (after_turn_undecodable q h Hfile).
Qed.

(** A pass changes the status of a message at most, and only of a message
    that has the id of a queued message; its replies come at the end. *)
Lemma after_turns_settled queue : forall h,
  exists kept replies answered,
    after_turns atob sendChatMessage queue h = kept ++ replies
    /\ Forall2 (settled queue) h kept
    /\ sublist answered queue
    /\ Forall2 reply_to answered replies.
Proof.
  induction queue as [|q queue IH]; intros h.
  - exists h, [], []. rewrite app_nil_r.
    split; [reflexivity |]. split; [apply Forall2_settled_refl |].
    split; constructor.
  - change (after_turns atob sendChatMessage (q :: queue) h)
      with (after_turns atob sendChatMessage queue (after_turn atob sendChatMessage q h)).
    destruct (after_turn_parts q) as (s & chunks & Hturn). rewrite Hturn.
    pose proof (settle_settled q s h) as Hkept1.
    destruct (IH (settle s (userMessageIndex_of q h) h ++ with_reply q chunks []))
      as (kept2 & replies2 & answered2 & -> & Hkept2 & Hsub & Hrep).
    apply Forall2_app_inv_l in Hkept2 as (k2a & k2b & Hk2a & Hk2b & ->).
    pose proof (Forall2_settled_app [q] queue _ _ _ Hkept1 Hk2a) as Hkept.
    destruct (with_reply_shape q chunks) as [E | (m & E & Hm)]; rewrite E in Hk2b.
    + inversion Hk2b; subst. exists k2a, replies2, answered2.
      split; [now rewrite app_nil_r |]. split; [exact Hkept |].
      split; [now apply sublist_cons | exact Hrep].
    + inversion Hk2b as [|? m' ? l' Hmm' Hnil]; subst. inversion Hnil; subst.
      exists k2a, (m' :: replies2), (q :: answered2).
      split; [now rewrite <- app_assoc |]. split; [exact Hkept |].
      split; [now apply sublist_skip |].
      constructor; [| exact Hrep].
      eapply reply_to_same; [exact Hm |]. apply Hmm'.
Qed.

(** The turn of [q] in the middle of a pass, when its message is in the
    transcript: the turn sets the status of that message, which later
    turns change only for a queued message of the same id, and the reply
    of the turn stands after the replies to the earlier queued messages
    and before those to the later ones. *)
Lemma turn_in_pass earlier q later before u after s chunks :
  (forall h, after_turn atob sendChatMessage q h
             = settle s (userMessageIndex_of q h) h ++ with_reply q chunks []) ->
  ChatMessage.id u = QueuedMessage.id q ->
  Forall (fun m => ChatMessage.id m <> QueuedMessage.id q) before ->
  exists before' u' after' answered1 replies1 own answered2 replies2,
    after_turns atob sendChatMessage (earlier ++ q :: later) (before ++ u :: after)
    = before' ++ u' :: after' ++ replies1 ++ own ++ replies2
    /\ settled later (ChatMessage.set_status s u) u'
    /\ Forall2 (settled (earlier ++ later)) before before'
    /\ Forall2 (settled (earlier ++ later)) after after'
    /\ sublist answered1 earlier
    /\ Forall2 reply_to answered1 replies1
    /\ Forall2 (settled later) (with_reply q chunks []) own
    /\ sublist answered2 later
    /\ Forall2 reply_to answered2 replies2.
Proof.
  intros Hturn Hid Hbefore.
  unfold after_turns. rewrite fold_left_app. cbn [fold_left].
  fold (after_turns atob sendChatMessage earlier (before ++ u :: after)).
  destruct (after_turns_settled earlier (before ++ u :: after))
    as (kept1 & replies1 & answered1 & -> & Hkept1 & Hsub1 & Hrep1).
  apply Forall2_app_inv_l in Hkept1 as (before1 & rest1 & Hb1 & Hrest1 & ->).
  inversion Hrest1 as [|? u1 ? after1 Hu1 Ha1]; subst.
  rewrite Hturn.
  assert (userMessageIndex_of q ((before1 ++ u1 :: after1) ++ replies1)
          = Z.of_nat (length before1)) as ->.
  { unfold userMessageIndex_of. rewrite <- app_assoc. cbn [app].
    apply findIndex_first.
    - clear - Hbefore Hb1. induction Hb1 as [|m m1 l l1 [(Hm & _) _] _ IH];
        [constructor |].
      inversion Hbefore; subst. constructor; [| now apply IH].
      rewrite Hm. now apply String.eqb_neq.
    - destruct Hu1 as [(Hu & _) _]. rewrite Hu, Hid. apply String.eqb_refl. }
  rewrite <- (app_assoc before1). cbn [app]. rewrite settle_at.
  rewrite (set_status_same s u u1) by apply Hu1.
  match goal with
  | |- context [fold_left ?f later ?h0] =>
      change (fold_left f later h0) with (after_turns atob sendChatMessage later h0);
      destruct (after_turns_settled later h0)
        as (kept3 & replies2 & answered2 & -> & Hkept3 & Hsub2 & Hrep2)
  end.
  rewrite <- !app_assoc in Hkept3. cbn [app] in Hkept3.
  apply Forall2_app_inv_l in Hkept3 as (before3 & rest3 & Hb3 & Hrest3 & ->).
  inversion Hrest3 as [|? u3 ? rest4 Hu3 Hrest4]; subst.
  rewrite <- app_assoc in Hrest4.
  apply Forall2_app_inv_l in Hrest4 as (after3 & rest5 & Ha3 & Hrest5 & ->).
  apply Forall2_app_inv_l in Hrest5 as (replies1' & own & Hr1 & Hown & ->).
  exists before3, u3, after3, answered1, replies1', own, answered2, replies2.
  split.
  { rewrite <- (app_assoc before3). cbn [app]. now rewrite <- !app_assoc. }
  split; [exact Hu3 |].
  split; [eapply Forall2_settled_app; eassumption |].
  split; [eapply Forall2_settled_app; eassumption |].
  split; [exact Hsub1 |]. split.
  { clear - Hrep1 Hr1. revert replies1' Hr1.
    induction Hrep1 as [|a m l1 l2 Ham _ IH]; intros l3 H3; inversion H3; subst;
      constructor.
    - eapply reply_to_same; [exact Ham |]. match goal with H : settled _ m _ |- _ => apply H end.
    - now apply IH. }
  split; [exact Hown |]. split; [exact Hsub2 | exact Hrep2].
Qed.
End Around.

(** A pass over an empty outbox reads the outbox and does nothing else. *)
Lemma empty_pass atob sendChatMessage w :
  fst <$> getMessageQueue w = Some [] ->
  exists w',
    syncOfflineMessages atob sendChatMessage true false w = Some (false, w')
    /\ quiet w w'.
Proof.
  intros Hq. destruct (getMessageQueue w) as [[queue wq]|] eqn:E; [| discriminate].
  injection Hq as ->. exists wq. split.
  - unfold syncOfflineMessages. cbn [orb negb]. now rewrite bind_run, E.
  - eapply getMessageQueue_quiet. exact E.
Qed.

(** What a quiet run leaves: no write, no event, no call. *)
Lemma quiet_trace w w' :
  quiet w w' ->
  localStorage w' = localStorage w
  /\ writes (trace w') = writes (trace w)
  /\ sends (trace w') = sends (trace w)
  /\ forall e, e ∈ trace w' -> e ∈ trace w \/ is_quiet e = true.
Proof.
  intros Hq. split; [now apply quiet_store |]. split; [now apply quiet_writes |].
  split; [now apply quiet_sends |].
  destruct Hq as (t & -> & Ht). intros e He. simpl in He.
  apply elem_of_app in He as [He | He]; [now left | right].
  rewrite forallb_forall in Ht. apply Ht. now apply list_elem_of_In.
Qed.

End PassFacts.

Module SendFacts.
Import JSON Platform Observing Runs offlineService App.
Import JSONFacts ViewFacts ServiceFacts DrainFacts MachineFacts QueueFacts TranscriptFacts.
Import ChatFacts StoreFacts PassFacts.

(** A chunk, when the message the updater writes to is the last one. *)
Lemma receive_step messageId chunk l s h m w :
  accepts w HISTORY ->
  (if AIChat.firstChunkReceived l then AIChat.messages s
   else AIChat.messages s ++ [AIChat.aiMessage messageId]) = h ++ [m] ->
  ChatMessage.role m = ChatMessage.model ->
  exists s' w',
    AIChat.receive messageId chunk l s w
    = Some ({| AIChat.fullResponse := AIChat.fullResponse l +:+ chunk;
               AIChat.firstChunkReceived := true |}, s', w')
    /\ AIChat.messages s' = h ++ [ChatMessage.set_text (AIChat.fullResponse l +:+ chunk) m]
    /\ AIChat.error s' = AIChat.error s
    /\ steady w w' /\ holds_history w' (AIChat.messages s')
    /\ sends (trace w') = sends (trace w).
Proof.
  intros Hacc Hs Hm. unfold AIChat.receive.
  destruct (AIChat.firstChunkReceived l).
  - rewrite bind_run, ret_run. cbv zeta.
    destruct (save_accepted
                (AIChat.with_text (AIChat.fullResponse l +:+ chunk) (AIChat.messages s))
                s w Hacc)
      as (w2 & Hsave2 & Hst2 & Hholds2 & Hsends2).
    rewrite bind_run, Hsave2, ret_run.
    eexists _, w2. split; [reflexivity |].
    cbn [AIChat.messages AIChat.setMessages AIChat.error] in *.
    rewrite Hs, with_text_last in * by exact Hm. auto.
  - cbv zeta.
    destruct (save_accepted
                (AIChat.messages (AIChat.setLoading false s) ++ [AIChat.aiMessage messageId])
                (AIChat.setLoading false s) w Hacc)
      as (w1 & Hsave1 & Hst1 & _ & Hsends1).
    rewrite bind_run, Hsave1.
    destruct (save_accepted
                (AIChat.with_text (AIChat.fullResponse l +:+ chunk)
                   (AIChat.messages
                      (AIChat.setMessages
                         (AIChat.messages (AIChat.setLoading false s)
                          ++ [AIChat.aiMessage messageId])
                         (AIChat.setLoading false s))))
                (AIChat.setMessages
                   (AIChat.messages (AIChat.setLoading false s)
                    ++ [AIChat.aiMessage messageId])
                   (AIChat.setLoading false s))
                w1 (steady_accepts _ _ _ Hst1 Hacc))
      as (w2 & Hsave2 & Hst2 & Hholds2 & Hsends2).
    rewrite bind_run, Hsave2, ret_run.
    eexists _, w2. split; [reflexivity |].
    cbn [AIChat.messages AIChat.setMessages AIChat.setLoading AIChat.error] in *.
    rewrite Hs, with_text_last in * by exact Hm.
    split; [reflexivity |]. split; [reflexivity |].
    split; [eapply steady_trans; eassumption |].
    split; [exact Hholds2 | congruence].
Qed.

Lemma receive_more messageId received : forall text s h m w,
  accepts w HISTORY ->
  AIChat.messages s = h ++ [ChatMessage.set_text text m] ->
  ChatMessage.role m = ChatMessage.model ->
  holds_history w (AIChat.messages s) ->
  exists s' w',
    AIChat.receive_all messageId received
      {| AIChat.fullResponse := text; AIChat.firstChunkReceived := true |} s w
    = Some ({| AIChat.fullResponse := fold_left String.append received text;
               AIChat.firstChunkReceived := true |}, s', w')
    /\ AIChat.messages s'
       = h ++ [ChatMessage.set_text (fold_left String.append received text) m]
    /\ AIChat.error s' = AIChat.error s
    /\ steady w w' /\ holds_history w' (AIChat.messages s')
    /\ sends (trace w') = sends (trace w).
Proof.
  induction received as [|chunk received IH]; intros text s h m w Hacc Hs Hm Hholds.
  - exists s, w. cbn [AIChat.receive_all fold_left]. rewrite ret_run.
    split; [reflexivity |]. split; [exact Hs |]. split; [reflexivity |].
    split; [apply steady_refl |]. split; [exact Hholds | reflexivity].
  - cbn [AIChat.receive_all fold_left].
    destruct (receive_step messageId chunk
                {| AIChat.fullResponse := text; AIChat.firstChunkReceived := true |}
                s h (ChatMessage.set_text text m) w Hacc Hs Hm)
      as (s1 & w1 & Hrun & Hs1 & Herr1 & Hst1 & Hholds1 & Hsends1).
    cbn [AIChat.fullResponse] in Hrun, Hs1. rewrite set_text_set_text in Hs1.
    destruct (IH (text +:+ chunk) s1 h m w1 (steady_accepts _ _ _ Hst1 Hacc)
                Hs1 Hm Hholds1)
      as (s2 & w2 & Hrun2 & Hs2 & Herr2 & Hst2 & Hholds2 & Hsends2).
    exists s2, w2. rewrite bind_run, Hrun. split; [exact Hrun2 |].
    split; [exact Hs2 |]. split; [congruence |].
    split; [eapply steady_trans; eassumption |].
    split; [exact Hholds2 | congruence].
Qed.

(** The chunks of a stream, whatever their number. *)
Lemma receive_all_any messageId received s w :
  accepts w HISTORY ->
  exists l s' w',
    AIChat.receive_all messageId received
      {| AIChat.fullResponse := EmptyString; AIChat.firstChunkReceived := false |} s w
    = Some (l, s', w')
    /\ AIChat.fullResponse l = accumulate received
    /\ AIChat.messages s' = AIChat.messages s ++ reply_of messageId received
    /\ AIChat.error s' = AIChat.error s
    /\ steady w w'
    /\ (received <> [] -> holds_history w' (AIChat.messages s'))
    /\ sends (trace w') = sends (trace w).
Proof.
  intros Hacc. destruct received as [|first more].
  - eexists _, s, w. cbn [AIChat.receive_all]. rewrite ret_run.
    split; [reflexivity |]. split; [reflexivity |].
    split; [cbn [reply_of]; now rewrite app_nil_r |]. split; [reflexivity |].
    split; [apply steady_refl |]. split; [congruence | reflexivity].
  - cbn [AIChat.receive_all].
    destruct (receive_step messageId first
                {| AIChat.fullResponse := EmptyString; AIChat.firstChunkReceived := false |}
                s (AIChat.messages s) (AIChat.aiMessage messageId) w Hacc eq_refl eq_refl)
      as (s1 & w1 & Hrun & Hs1 & Herr1 & Hst1 & Hholds1 & Hsends1).
    cbn [AIChat.fullResponse] in Hrun, Hs1.
    destruct (receive_more messageId more (EmptyString +:+ first) s1 (AIChat.messages s)
                (AIChat.aiMessage messageId) w1 (steady_accepts _ _ _ Hst1 Hacc)
                Hs1 eq_refl Hholds1)
      as (s2 & w2 & Hrun2 & Hs2 & Herr2 & Hst2 & Hholds2 & Hsends2).
    eexists _, s2, w2. rewrite bind_run, Hrun. split; [exact Hrun2 |].
    split; [reflexivity |]. split; [exact Hs2 |]. split; [congruence |].
    split; [eapply steady_trans; eassumption |].
    split; [intros _; exact Hholds2 | congruence].
Qed.

Lemma holds_history_steady_other w w' history :
  holds_history w history ->
  localStorage w' !! HISTORY = localStorage w !! HISTORY ->
  holds_history w' history.
Proof. intros (ts & H) Hls. exists ts. now rewrite Hls. Qed.

Lemma setCachedData_sends key data w w' :
  setCachedData key data w = Some (tt, w') -> sends (trace w') = sends (trace w).
Proof.
  rewrite setCachedData_run. cbv zeta. intros [= <-].
  destruct (quota w _ _); simpl; unfold sends; rewrite filter_app; simpl;
    now rewrite app_nil_r.
Qed.

Lemma addMessageToQueue_sends fileToBase64 prompt file id lang w w' :
  addMessageToQueue fileToBase64 prompt file id lang w = Some (tt, w') ->
  sends (trace w') = sends (trace w).
Proof.
  unfold addMessageToQueue. rewrite bind_run.
  destruct ((getCachedData CHAT_OUTBOX_KEY ≫= _) w) as [[outbox w1]|] eqn:E;
    [| discriminate].
  pose proof (quiet_sends _ _ (read_quiet _ _ _ _ _ E)) as H1.
  rewrite bind_run.
  destruct file as [f|]; [destruct (fileToBase64 f) |].
  - rewrite ret_run. intros H. apply setCachedData_sends in H. congruence.
  - rewrite bind_run, console_error_run, ret_run. intros H.
    apply setCachedData_sends in H. rewrite H, sends_extend, H1. simpl.
    apply app_nil_r.
  - rewrite ret_run. intros H. apply setCachedData_sends in H. congruence.
Qed.

Section Send.
Variable trim : string -> string.
Variable createObjectURL : File -> string.
Variable fileToBase64 : File -> option string.
Variable sendChatMessage : string -> option File -> LanguageCode -> Stream.

(** What [sendMessage] hands to the backend as the prompt. *)
Lemma sendMessage_online_run messageId lang prompt file s w apiPrompt :
  accepts w HISTORY ->
  AIChat.blank trim prompt && negb (bool_decide (is_Some file)) = false ->
  apiPrompt = (if bool_decide (is_Some file) && AIChat.blank trim prompt
               then "Please analyze the attached file and provide a helpful response."
               else prompt) ->
  exists s' w',
    AIChat.sendMessage trim createObjectURL fileToBase64 sendChatMessage
      messageId true lang prompt file s w = Some (s', w')
    /\ AIChat.messages s'
       = AIChat.messages s
         ++ AIChat.userMessage createObjectURL messageId prompt file true
            :: reply_of messageId (chunks (sendChatMessage apiPrompt file lang))
    /\ AIChat.error s'
       = match ending (sendChatMessage apiPrompt file lang) with
         | Completed => None
         | Threw message => Some message
         end
    /\ AIChat.loading s' = false
    /\ holds_history w' (AIChat.messages s')
    /\ sends (trace w') = sends (trace w) ++ [SendChatMessage apiPrompt file lang].
Proof.
  intros Hacc Hsendable ->. unfold AIChat.sendMessage. rewrite Hsendable.
  cbn [negb]. cbv zeta.
  set (apiPrompt := if bool_decide (is_Some file) && AIChat.blank trim prompt
                    then _ else prompt).
  set (s0 := AIChat.setError None (AIChat.setLoading true s)).
  destruct (save_accepted
              (AIChat.messages s0
               ++ [AIChat.userMessage createObjectURL messageId prompt file true])
              s0 w Hacc)
    as (w1 & Hsave & Hst1 & Hholds1 & Hsends1).
  rewrite bind_run, Hsave, bind_run, emit_run.
  destruct (receive_all_any messageId (chunks (sendChatMessage apiPrompt file lang))
              (AIChat.setMessages
                 (AIChat.messages s0
                  ++ [AIChat.userMessage createObjectURL messageId prompt file true])
                 s0)
              (extend [SendChatMessage apiPrompt file lang] w1))
    as (l & s2 & w2 & Hrun & Hfull & Hs2 & Herr2 & Hst2 & Hholds2 & Hsends2).
  { eapply steady_accepts; [| exact Hacc].
    eapply steady_trans; [exact Hst1 | apply steady_extend]. }
  rewrite bind_run, Hrun.
  cbn [AIChat.messages AIChat.setMessages AIChat.error AIChat.setError] in Hs2, Herr2.
  rewrite <- app_assoc in Hs2. cbn [app] in Hs2.
  assert (holds_history w2 (AIChat.messages s2)) as Hholds.
  { destruct (chunks (sendChatMessage apiPrompt file lang)) as [|first more] eqn:Hchunks.
    - cbn [AIChat.receive_all] in Hrun. rewrite ret_run in Hrun.
      injection Hrun as _ <- <-. cbn [AIChat.messages AIChat.setMessages].
      destruct Hholds1 as (ts & H1). exists ts. exact H1.
    - apply Hholds2. discriminate. }
  assert (sends (trace w2) = sends (trace w) ++ [SendChatMessage apiPrompt file lang])
    as Hsends.
  { rewrite Hsends2, sends_extend, Hsends1. reflexivity. }
  destruct (ending (sendChatMessage apiPrompt file lang)) as [|message].
  - rewrite ret_run. eexists _, w2. split; [reflexivity |].
    destruct (AIChat.fullResponse l);
      cbn [AIChat.messages AIChat.setLoading AIChat.setMessageToSpeak AIChat.error
           AIChat.loading]; auto.
  - rewrite ret_run. eexists _, w2. split; [reflexivity |].
    cbn [AIChat.messages AIChat.setLoading AIChat.setError AIChat.error AIChat.loading].
    auto.
Qed.

(** A message sent while offline. *)
Lemma sendMessage_offline_run messageId lang prompt file s outbox w :
  accepts w HISTORY -> accepts w OUTBOX ->
  fst <$> getMessageQueue w = Some outbox ->
  AIChat.blank trim prompt && negb (bool_decide (is_Some file)) = false ->
  exists s' w',
    AIChat.sendMessage trim createObjectURL fileToBase64 sendChatMessage
      messageId false lang prompt file s w = Some (s', w')
    /\ AIChat.messages s'
       = AIChat.messages s
         ++ [AIChat.userMessage createObjectURL messageId prompt file false]
    /\ AIChat.loading s' = false
    /\ holds_history w' (AIChat.messages s')
    /\ fst <$> getMessageQueue w'
       = Some (outbox ++ [queued fileToBase64 prompt file messageId lang])
    /\ quota w' = quota w
    /\ sends (trace w') = sends (trace w).
Proof.
  intros Hacc Hacc' Hq Hsendable. unfold AIChat.sendMessage. rewrite Hsendable.
  cbn [negb]. cbv zeta.
  set (s0 := AIChat.setError None (AIChat.setLoading true s)).
  destruct (save_accepted
              (AIChat.messages s0
               ++ [AIChat.userMessage createObjectURL messageId prompt file false])
              s0 w Hacc)
    as (w1 & Hsave & Hst1 & Hholds1 & Hsends1).
  rewrite bind_run, Hsave.
  assert (fst <$> getMessageQueue w1 = Some outbox) as Hq1.
  { rewrite <- Hq. apply (read_item QueuedMessage.list_of_json).
    destruct Hst1 as (_ & _ & Hls). apply Hls. apply history_outbox_ne. }
  destruct (getMessageQueue w1) as [[outbox' wq]|] eqn:E; [| discriminate].
  injection Hq1 as ->.
  destruct (addMessageToQueue_spec fileToBase64 prompt file messageId lang outbox w1 wq E)
    as (w2 & Hrun & Hread & Hquota & Hls & _ & Hwrites).
  { eapply steady_accepts; eassumption. }
  rewrite bind_run, Hrun, ret_run. eexists _, w2. split; [reflexivity |].
  cbn [AIChat.messages AIChat.setMessages AIChat.setLoading AIChat.loading].
  split; [reflexivity |]. split; [reflexivity |]. split.
  { eapply holds_history_steady_other; [exact Hholds1 |]. apply Hls.
    intros H. symmetry in H. now apply history_outbox_ne in H. }
  split; [now rewrite Hread |]. split.
  { rewrite Hquota. apply Hst1. }
  rewrite (addMessageToQueue_sends _ _ _ _ _ _ _ Hrun). exact Hsends1.
Qed.
End Send.
End SendFacts.

Module MergeFacts.
Import JSON Platform Observing Runs offlineService userProfileService App.
Import JSONFacts ViewFacts ServiceFacts ProfileFacts StoreFacts.

(** The last property given under a key is the one a spread leaves. *)
Lemma get_spread_in {V} k (v : V) (ext : list (string * V)) : forall base,
  NoDup (Props.keys ext) -> (k, v) ∈ ext ->
  Props.get k (Props.spread base ext) = Some v.
Proof.
  unfold Props.spread. induction ext as [|[k0 v0] ext IH]; intros base Hnd Hin.
  - inversion Hin.
  - cbn [Props.keys map fst] in Hnd. apply NoDup_cons in Hnd as [Hk0 Hnd].
    cbn [fold_left fst snd]. apply elem_of_cons in Hin as [[= -> ->] | Hin].
    + change (fold_left _ ext ?b) with (Props.spread b ext).
      rewrite get_spread_other by exact Hk0. rewrite get_set.
      now rewrite String.eqb_refl.
    + now apply IH.
Qed.

(** What [saveUserProfile] stores over a stored profile that is [null] or
    an object, when the store takes the write. *)
Lemma saveUserProfile_accepted profile stored w :
  fst <$> getUserProfile w = Some stored ->
  stored = JNull \/ (exists ms, stored = JObject ms) ->
  forallb (fun kv => storable kv.2) profile = true ->
  (forall value, quota w PROFILE_KEY value = true) ->
  exists w',
    saveUserProfile profile w = Some (tt, w')
    /\ fst <$> getUserProfile w'
       = Some (JObject (defined (Props.spread (own_properties (merged_base stored))
                                   profile)))
    /\ NoDup (Props.keys (Props.spread (own_properties (merged_base stored)) profile))
    /\ quota w' = quota w
    /\ (forall k, k <> PROFILE_KEY -> localStorage w' !! k = localStorage w !! k).
Proof.
  intros Hstored Hshape Hprofile Hacc.
  destruct (getUserProfile_quiet w) as (v & w1 & Hrun & Hquiet & Hwf).
  rewrite Hrun in Hstored. injection Hstored as ->.
  assert (exists ms, (if falsy (Some stored) then JObject [] else stored) = JObject ms
                     /\ merged_base stored = JObject ms
                     /\ forallb (fun kv => wf kv.2) ms = true
                     /\ NoDup (Props.keys ms)) as (ms & He & Hb & Hms & Hnd).
  { destruct Hshape as [-> | (ms & ->)].
    - exists []. repeat split; constructor.
    - exists ms. destruct Hwf as [[=] | Hwf']. cbn [wf] in Hwf'.
      apply andb_true_iff in Hwf' as [Hnd Hms].
      apply bool_decide_eq_true in Hnd. auto. }
  unfold saveUserProfile. rewrite bind_run, Hrun. cbv zeta. rewrite He, Hb.
  cbn [own_properties].
  rewrite (spread_nodup (prod_map id Some <$> ms) [])
    by (cbn [app]; now rewrite keys_own_properties).
  cbn [app].
  set (newProfile := Props.spread (prod_map id Some <$> ms) profile).
  assert (NoDup (Props.keys newProfile)) as Hnd'.
  { apply spread_keys_nodup. now rewrite keys_own_properties. }
  assert (wf (JObject (defined newProfile)) = true) as Hwf'.
  { cbn [wf]. apply andb_true_iff. split.
    - apply bool_decide_eq_true. now apply keys_defined_nodup.
    - apply defined_wf. apply spread_forallb; [| exact Hprofile].
      now apply own_properties_storable. }
  rewrite bind_run, setItem_run, (quiet_quota _ _ Hquiet), Hacc, ret_run.
  eexists. split; [reflexivity |]. split.
  { apply getUserProfile_holds; [exact Hwf' |]. simpl. now rewrite lookup_insert_eq. }
  split; [exact Hnd' |]. split.
  { simpl. apply (quiet_quota _ _ Hquiet). }
  intros k Hk. simpl. rewrite lookup_insert_ne by congruence.
  now rewrite (quiet_store _ _ Hquiet).
Qed.

Lemma getUserProfile_item w1 w2 :
  localStorage w2 !! PROFILE_KEY = localStorage w1 !! PROFILE_KEY ->
  fst <$> getUserProfile w2 = fst <$> getUserProfile w1.
Proof.
  intros H. rewrite !getUserProfile_run, H.
  destruct (localStorage w1 !! _) as [[|c text]|];
    [| destruct (parse _) |]; reflexivity.
Qed.

(** The fields of the profile stored after a save: those given are as
    given, the others as they were. *)
Lemma saved_fields profile stored w :
  fst <$> getUserProfile w = Some stored ->
  stored = JNull \/ (exists ms, stored = JObject ms) ->
  forallb (fun kv => storable kv.2) profile = true ->
  NoDup (Props.keys profile) ->
  (forall value, quota w PROFILE_KEY value = true) ->
  exists w' ms',
    saveUserProfile profile w = Some (tt, w')
    /\ fst <$> getUserProfile w' = Some (JObject ms')
    /\ quota w' = quota w
    /\ (forall k, k <> PROFILE_KEY -> localStorage w' !! k = localStorage w !! k)
    /\ (forall k v, (k, v) ∈ profile -> Props.get k ms' = v)
    /\ (forall k, k ∉ Props.keys profile -> Props.get k ms' = field k stored).
Proof.
  intros Hstored Hshape Hprofile Hnd Hacc.
  destruct (saveUserProfile_accepted profile stored w Hstored Hshape Hprofile Hacc)
    as (w' & Hrun & Hread & Hnd' & Hquota & Hls).
  eexists w', _. split; [exact Hrun |]. split; [exact Hread |].
  split; [exact Hquota |]. split; [exact Hls |]. split.
  - intros k v Hin. rewrite get_defined by exact Hnd'.
    now rewrite (get_spread_in k v profile _ Hnd Hin).
  - intros k Hk. rewrite get_defined by exact Hnd'.
    rewrite get_spread_other by exact Hk.
    destruct Hshape as [-> | (ms & ->)]; cbn [merged_base own_properties field].
    + reflexivity.
    + rewrite get_own_properties. now destruct (Props.get k ms).
Qed.

(** What is stored when no profile was: the fields given, those that hold
    a value. *)
Lemma saved_over_nothing profile w :
  no_profile w ->
  forallb (fun kv => storable kv.2) profile = true ->
  NoDup (Props.keys profile) ->
  (forall value, quota w PROFILE_KEY value = true) ->
  fst <$> getUserProfile w = Some JNull
  /\ exists w',
       saveUserProfile profile w = Some (tt, w')
       /\ fst <$> getUserProfile w' = Some (JObject (defined profile)).
Proof.
  intros Hno Hprofile Hnd Hacc.
  assert (fst <$> getUserProfile w = Some JNull) as Hnull.
  { rewrite getUserProfile_run. destruct Hno as [-> | (text & -> & Hparse)];
      [reflexivity |]. rewrite Hparse. now destruct text. }
  split; [exact Hnull |].
  destruct (saveUserProfile_accepted profile JNull w Hnull (or_introl eq_refl)
              Hprofile Hacc) as (w' & Hrun & Hread & _).
  exists w'. split; [exact Hrun |]. rewrite Hread.
  cbn [merged_base own_properties fmap list_fmap].
  now rewrite (spread_nodup profile []).
Qed.

End MergeFacts.

Module LanguageFacts.
Import JSON Platform Observing Runs offlineService userProfileService Preferences App.
Import JSONFacts ViewFacts ServiceFacts DrainFacts ProfileFacts StoreFacts MergeFacts.

(** A closed statement of membership or of distinctness, by deciding it. *)
Ltac decided := apply (bool_decide_unpack _); vm_compute; exact I.

Lemma getUserProfile_read w stored :
  fst <$> getUserProfile w = Some stored ->
  exists w1, getUserProfile w = Some (stored, w1) /\ quiet w w1.
Proof.
  destruct (getUserProfile_quiet w) as (v & w1 & Hrun & Hquiet & _).
  rewrite Hrun. intros [= ->]. eauto.
Qed.

Section Languages.
Variable supported : string -> bool.

Lemma initialLang_run w stored :
  fst <$> getUserProfile w = Some stored ->
  typed_language stored ->
  exists w',
    LanguageContext.initialLang supported w
    = Some (default (from_item supported (localStorage w !! "language"))
              (from_profile supported (field "language" stored)), w')
    /\ quiet w w'.
Proof.
  intros Hstored Htyped.
  destruct (getUserProfile_read w stored Hstored) as (w1 & Hrun & Hquiet).
  unfold LanguageContext.initialLang. rewrite bind_run, Hrun.
  change (LanguageContext.optional_property "language" stored)
    with (field "language" stored).
  unfold typed_language in Htyped.
  assert (forall w2, quiet w w2 ->
            exists w',
              (getItem "language" ≫= fun storedLang : option string =>
                 mret match storedLang with
                      | Some (String _ _ as storedLang) =>
                          if supported storedLang then storedLang else "en"
                      | _ => "en"
                      end) w2
              = Some (from_item supported (localStorage w !! "language"), w')
              /\ quiet w w') as Hitem.
  { intros w2 Hq2. rewrite bind_run, getItem_run, ret_run.
    rewrite (quiet_store _ _ Hq2). eexists. split; [reflexivity |].
    eapply quiet_trans; [exact Hq2 | now apply quiet_extend]. }
  destruct (field "language" stored) as [[|[]| |[|c l]| |]|] eqn:E;
    cbn [from_profile default from_option]; rewrite bind_run;
    cbn [falsy] in Htyped |- *;
    try discriminate Htyped; try rewrite Htyped; rewrite ret_run;
    try (now apply Hitem).
  destruct (supported (String c l)); cbn [default from_option].
  - rewrite ret_run. eauto.
  - now apply Hitem.
Qed.
End Languages.

(** What [load] shows, from the fields of the stored profile. *)
Lemma or_default_run k d stored w :
  field k stored = None \/ (exists s, field k stored = Some (JString s)) ->
  Profile.or_default k d stored w
  = Some (match field k stored with
          | Some (JString (String _ _ as s)) => s
          | _ => d
          end, w).
Proof.
  unfold Profile.or_default.
  change (LanguageContext.optional_property k stored) with (field k stored).
  intros [-> | (s & ->)]; [reflexivity |]. now destruct s.
Qed.

Lemma persistLanguage_run lang w :
  exists w',
    persistLanguage lang w = Some (tt, w')
    /\ quota w' = quota w
    /\ (forall k, k <> "language" -> localStorage w' !! k = localStorage w !! k)
    /\ (quota w "language" lang = true -> localStorage w' !! "language" = Some lang).
Proof.
  unfold persistLanguage. rewrite bind_run, setItem_run.
  destruct (quota w "language" lang) eqn:Hq.
  - rewrite ret_run. eexists. split; [reflexivity |]. split; [reflexivity |].
    split; [| intros _; simpl; apply lookup_insert_eq].
    intros k Hk. simpl. now rewrite lookup_insert_ne.
  - rewrite console_error_run. eexists. split; [reflexivity |].
    split; [reflexivity |]. split; [reflexivity | discriminate].
Qed.

Lemma saveUserProfile_total profile w :
  exists w', saveUserProfile profile w = Some (tt, w').
Proof.
  destruct (getUserProfile_quiet w) as (v & w1 & Hrun & _).
  unfold saveUserProfile. rewrite bind_run, Hrun. cbv zeta.
  rewrite bind_run, setItem_run.
  destruct (quota w1 PROFILE_KEY _); [rewrite ret_run | rewrite console_error_run]; eauto.
Qed.

Lemma setLang_run supported l lang stored w :
  supported l = true ->
  fst <$> getUserProfile w = Some stored ->
  stored = JNull \/ (exists ms, stored = JObject ms) ->
  accepts w PROFILE_KEY ->
  exists w' ms',
    LanguageContext.setLang supported l lang w = Some (l, w')
    /\ fst <$> getUserProfile w' = Some (JObject ms')
    /\ Props.get "language" ms' = Some (JString l)
    /\ (forall k, k <> "language" -> Props.get k ms' = field k stored)
    /\ accepts w' PROFILE_KEY.
Proof.
  intros Hsup Hstored Hshape Hacc.
  destruct (saved_fields [("language", Some (JString l))] stored w Hstored Hshape)
    as (w1 & ms' & Hrun & Hread & Hquota & Hls & Hgiven & Hothers);
    [reflexivity | apply NoDup_singleton | exact Hacc |].
  unfold LanguageContext.setLang. rewrite Hsup, bind_run, Hrun, bind_run.
  assert (exists w',
            (if String.eqb l lang then mret () else persistLanguage l) w1 = Some (tt, w')
            /\ quota w' = quota w1
            /\ localStorage w' !! PROFILE_KEY = localStorage w1 !! PROFILE_KEY)
    as (w' & -> & Hquota' & Hls').
  { destruct (String.eqb l lang).
    - exists w1. auto.
    - destruct (persistLanguage_run l w1) as (w' & Hp & Hq' & Hl' & _).
      exists w'. split; [exact Hp |]. split; [exact Hq' |]. now apply Hl'. }
  rewrite ret_run. exists w', ms'. split; [reflexivity |].
  split; [rewrite <- Hread; now apply getUserProfile_item |].
  split; [apply Hgiven; left |]. split.
  - intros k Hk. apply Hothers. cbn. intros Hin%list_elem_of_singleton. congruence.
  - intros v. rewrite Hquota', Hquota. apply Hacc.
Qed.

Lemma submit_run form stored w :
  fst <$> getUserProfile w = Some stored ->
  stored = JNull \/ (exists ms, stored = JObject ms) ->
  accepts w PROFILE_KEY ->
  exists w' ms',
    Profile.handleSubmit getUserProfile form w = Some (JObject ms', w')
    /\ fst <$> getUserProfile w' = Some (JObject ms')
    /\ Props.get "name" ms' = Some (JString (Profile.name form))
    /\ Props.get "defaultLocation" ms' = Some (JString (Profile.defaultLocation form))
    /\ Props.get "preferredUnit" ms' = Some (JString (Profile.preferredUnit form))
    /\ Props.get "profileImage" ms' = Some (JString (Profile.profileImage form))
    /\ (forall k, k ∉ ["name"; "defaultLocation"; "preferredUnit"; "profileImage"] ->
                  Props.get k ms' = field k stored)
    /\ accepts w' PROFILE_KEY.
Proof.
  intros Hstored Hshape Hacc.
  destruct (saved_fields (Profile.fields form) stored w Hstored Hshape)
    as (w1 & ms' & Hrun & Hread & Hquota & Hls & Hgiven & Hothers);
    [reflexivity | | exact Hacc |].
  { unfold Profile.fields, Props.keys. cbn [map fst]. decided. }
  destruct (getUserProfile_read w1 _ Hread) as (w2 & Hrun2 & Hquiet).
  unfold Profile.handleSubmit. rewrite bind_run, Hrun, Hrun2.
  exists w2, ms'. split; [reflexivity |]. split.
  { rewrite <- Hread. apply getUserProfile_store. now apply quiet_store. }
  split; [apply Hgiven; repeat constructor |]. split; [apply Hgiven; repeat constructor |].
  split; [apply Hgiven; repeat constructor |]. split; [apply Hgiven; repeat constructor |].
  split; [exact Hothers |].
  intros v. rewrite (quiet_quota _ _ Hquiet), Hquota. apply Hacc.
Qed.

Lemma load_run start ms w :
  fst <$> getUserProfile w = Some (JObject ms) ->
  typed_form_fields (JObject ms) ->
  fst <$> Profile.load start w
  = Some {| Profile.name :=
              match Props.get "name" ms with
              | Some (JString (String _ _ as s)) => s | _ => EmptyString end;
            Profile.defaultLocation :=
              match Props.get "defaultLocation" ms with
              | Some (JString (String _ _ as s)) => s | _ => EmptyString end;
            Profile.preferredUnit :=
              match Props.get "preferredUnit" ms with
              | Some (JString (String _ _ as s)) => s | _ => "quintal" end;
            Profile.profileImage :=
              match Props.get "profileImage" ms with
              | Some (JString (String _ _ as s)) => s | _ => EmptyString end |}.
Proof.
  intros Hread Htyped.
  destruct (getUserProfile_read w _ Hread) as (w1 & Hrun & _).
  unfold Profile.load. rewrite bind_run, Hrun. cbn [falsy].
  rewrite !bind_run.
  rewrite (or_default_run "name") by (apply Htyped; decided).
  rewrite bind_run.
  rewrite (or_default_run "defaultLocation") by (apply Htyped; decided).
  rewrite bind_run.
  rewrite (or_default_run "preferredUnit") by (apply Htyped; decided).
  rewrite bind_run.
  rewrite (or_default_run "profileImage") by (apply Htyped; decided).
  reflexivity.
Qed.

End LanguageFacts.

Module OracleFacts.
Import JSON Platform App geminiService locationService.

Lemma truthy_text_nonempty text s : truthy_text text = Some s -> s <> EmptyString.
Proof. destruct text as [[|c r]|]; [discriminate | | discriminate]. now intros [= <-]. Qed.

Lemma omap_truthy_nonempty texts :
  Forall (fun s => s <> EmptyString) (omap truthy_text texts).
Proof.
  induction texts as [|text texts IH]; [constructor |].
  change (omap truthy_text (text :: texts))
    with (match truthy_text text with
          | Some y => y :: omap truthy_text texts
          | None => omap truthy_text texts
          end).
  destruct (truthy_text text) eqn:E; [| exact IH].
  constructor; [eapply truthy_text_nonempty; exact E | exact IH].
Qed.

Lemma rethrown_nonempty e : rethrown e <> EmptyString.
Proof. destruct e as [[|c m]|]; discriminate. Qed.

Section Service.
Variable languageName : LanguageCode -> option string.
Variable readAsDataURL : File -> option string.
Variable generateContentStream : list Part -> Awaited ResponseStream.

(** What the generator yields is what the chunks of the client hold as
    texts that count as true, or nothing. *)
Lemma attempt_yielded prompt file lang :
  (attempt languageName readAsDataURL generateContentStream prompt file lang).1 = []
  \/ exists parts stream,
       generateContentStream parts = Resolved stream
       /\ (attempt languageName readAsDataURL generateContentStream prompt file lang).1
          = omap truthy_text (texts stream).
Proof.
  unfold attempt.
  set (parts := match file with None => _ | Some f => _ end).
  destruct parts as [parts|e]; [| now left].
  destruct (generateContentStream parts) as [stream|e] eqn:E; [| now left].
  right. exists parts, stream. split; [exact E |].
  destruct (failure stream); [reflexivity |].
  destruct (response stream) as [[r|]|]; [| | reflexivity].
  - destruct (_ && _); [| reflexivity].
    destruct (finishReason r) as [reason|]; [| reflexivity].
    destruct (String.eqb reason "SAFETY"); reflexivity.
  - destruct (omap truthy_text (texts stream)); reflexivity.
Qed.
End Service.

(** *** Texts *)

Lemma prefix_app (needle post : string) : String.prefix needle (needle +:+ post) = true.
Proof. apply JSONFacts.prefix_append. Qed.

Lemma prefix_inv (needle hay : string) :
  String.prefix needle hay = true -> exists post, hay = needle +:+ post.
Proof.
  revert hay. induction needle as [|c needle IH]; intros hay H.
  - exists hay. reflexivity.
  - destruct hay as [|c' hay]; [discriminate |]. cbn [String.prefix] in H.
    destruct (ascii_dec c c') as [-> |]; [| discriminate].
    destruct (IH hay H) as (post & ->). now exists post.
Qed.

(** [includes] is the test for a part of the text. *)
Lemma includes_spec (needle hay : string) :
  includes needle hay = true <-> exists pre post, hay = pre +:+ needle +:+ post.
Proof.
  split.
  - induction hay as [|c hay IH]; cbn [includes]; intros H.
    + apply orb_true_iff in H as [H | H]; [| discriminate].
      apply prefix_inv in H as (post & ->). now exists EmptyString, post.
    + apply orb_true_iff in H as [H | H].
      * apply prefix_inv in H as (post & ->). now exists EmptyString, post.
      * destruct (IH H) as (pre & post & ->). now exists (String c pre), post.
  - intros (pre & post & ->). induction pre as [|c pre IH].
    + change (EmptyString +:+ needle +:+ post) with (needle +:+ post).
      destruct (needle +:+ post) eqn:E; cbn [includes]; rewrite <- E, prefix_app;
        reflexivity.
    + change (String c pre +:+ needle +:+ post) with (String c (pre +:+ needle +:+ post)).
      cbn [includes]. rewrite IH. apply orb_true_r.
Qed.

End OracleFacts.
Module Claims.
Import JSON Platform Observing offlineService userProfileService Preferences App.
Import JSONFacts ViewFacts ServiceFacts DrainFacts MachineFacts QueueFacts ProfileFacts TranscriptFacts ChatFacts.
Import Runs PassFacts MarkFacts.

(** ** C6 *)

(** C6.  Saving a transcript and loading it again, with no write in
    between, gives the same list of messages, when the store takes the
    write. *)
Theorem saved_transcript_reloads (messages : list ChatMessage.t) (w : World) :
  accepts w (CACHE_PREFIX +:+ CHAT_HISTORY_KEY) ->
  fst <$> (saveChatHistory messages ≫= fun _ => getChatHistory) w = Some messages.
Proof.
  intros Hacc. rewrite bind_run.
  destruct (saveChatHistory_accepted messages w Hacc) as (w' & -> & _ & (ts & Hh) & _).
  now rewrite (getChatHistory_holds ts messages w' Hh).
Qed.

Lemma saved_transcript_reloads_witness :
  accepts Scenario.fresh (CACHE_PREFIX +:+ CHAT_HISTORY_KEY)
  /\ fst <$> (saveChatHistory
                [Scenario.user_message "a" "hello" ChatMessage.pending;
                 Scenario.model_reply "a-model" "Hello!"]
              ≫= fun _ => getChatHistory) Scenario.fresh
     = Some [Scenario.user_message "a" "hello" ChatMessage.pending;
             Scenario.model_reply "a-model" "Hello!"].
Proof.
  assert (accepts Scenario.fresh (CACHE_PREFIX +:+ CHAT_HISTORY_KEY)) as H
    by (intros value; reflexivity).
  split; [exact H |]. apply (saved_transcript_reloads _ _ H).
Defined.

(** ** C8 *)

(** C8.  For every key, the cache reader returns [null] when nothing is
    stored under the key and when what is stored does not parse; in both
    cases it returns, with the same value, and the store is as it was. *)
Theorem cache_reader_null (key : string) (w : World) :
  localStorage w !! (CACHE_PREFIX +:+ key) = None
  \/ (exists text, localStorage w !! (CACHE_PREFIX +:+ key) = Some text
                   /\ parse text = None) ->
  exists w', getCachedData key w = Some (JNull, w')
             /\ localStorage w' = localStorage w.
Proof.
  intros [Habsent | (text & Htext & Hparse)]; rewrite getCachedData_run.
  - rewrite Habsent. eexists. split; reflexivity.
  - rewrite Htext, Hparse. destruct text; eexists; split; reflexivity.
Qed.

Lemma cache_reader_null_witness :
  (localStorage (store (CACHE_PREFIX +:+ "riskAlerts") "{oops" Scenario.fresh)
     !! (CACHE_PREFIX +:+ "riskAlerts") = None
   \/ exists text,
        localStorage (store (CACHE_PREFIX +:+ "riskAlerts") "{oops" Scenario.fresh)
          !! (CACHE_PREFIX +:+ "riskAlerts") = Some text
        /\ parse text = None)
  /\ exists w',
       getCachedData "riskAlerts"
         (store (CACHE_PREFIX +:+ "riskAlerts") "{oops" Scenario.fresh)
       = Some (JNull, w')
       /\ localStorage w'
          = localStorage (store (CACHE_PREFIX +:+ "riskAlerts") "{oops" Scenario.fresh).
Proof.
  assert (localStorage (store (CACHE_PREFIX +:+ "riskAlerts") "{oops" Scenario.fresh)
            !! (CACHE_PREFIX +:+ "riskAlerts") = None
          \/ exists text,
               localStorage (store (CACHE_PREFIX +:+ "riskAlerts") "{oops" Scenario.fresh)
                 !! (CACHE_PREFIX +:+ "riskAlerts") = Some text
               /\ parse text = None) as H.
  { right. exists "{oops". split; reflexivity. }
  split; [exact H |]. apply (cache_reader_null _ _ H).
Defined.

(** ** C7 *)

(** C7.  When the conversion of the attached file fails, the message is
    still appended to the outbox, with [fileData = null], and the failure
    is a line on the console: the call returns. *)
Theorem enqueue_survives_conversion_failure
    (fileToBase64 : File -> option string) (f : File)
    (prompt id : string) (lang : LanguageCode)
    (outbox : list QueuedMessage.t) (w : World) :
  fileToBase64 f = None ->
  fst <$> getMessageQueue w = Some outbox ->
  accepts w (CACHE_PREFIX +:+ CHAT_OUTBOX_KEY) ->
  exists w',
    addMessageToQueue fileToBase64 prompt (Some f) id lang w = Some (tt, w')
    /\ fst <$> getMessageQueue w'
       = Some (outbox ++ [{| QueuedMessage.id := id;
                             QueuedMessage.prompt := prompt;
                             QueuedMessage.fileData := None;
                             QueuedMessage.fileName := or_null (name f);
                             QueuedMessage.fileMimeType := or_null (type f);
                             QueuedMessage.lang := lang |}])
    /\ ConsoleError "Could not convert file to Base64 for offline queue" ∈ trace w'.
Proof.
  intros Hconv Hq Hacc.
  destruct (getMessageQueue w) as [[outbox' wq]|] eqn:E; [| discriminate].
  injection Hq as ->.
  destruct (addMessageToQueue_spec fileToBase64 prompt (Some f) id lang outbox w wq E Hacc)
    as (w' & Hrun & Hread & _ & _ & Hlog & _).
  exists w'. split; [exact Hrun |]. split; [| now apply (Hlog f)].
  rewrite Hread. unfold queued. simpl. now rewrite Hconv.
Qed.

Lemma enqueue_survives_conversion_failure_witness :
  Scenario.no_conversion Scenario.photo = None
  /\ fst <$> getMessageQueue Scenario.one_offline
     = Some [Scenario.text_only "a" "hello" "en"]
  /\ accepts Scenario.one_offline (CACHE_PREFIX +:+ CHAT_OUTBOX_KEY)
  /\ exists w',
       addMessageToQueue Scenario.no_conversion "what is this?" (Some Scenario.photo)
         "b" "en" Scenario.one_offline = Some (tt, w')
       /\ fst <$> getMessageQueue w'
          = Some ([Scenario.text_only "a" "hello" "en"]
                  ++ [{| QueuedMessage.id := "b";
                         QueuedMessage.prompt := "what is this?";
                         QueuedMessage.fileData := None;
                         QueuedMessage.fileName := or_null (name Scenario.photo);
                         QueuedMessage.fileMimeType := or_null (type Scenario.photo);
                         QueuedMessage.lang := "en" |}])
       /\ ConsoleError "Could not convert file to Base64 for offline queue" ∈ trace w'.
Proof.
  assert (fst <$> getMessageQueue Scenario.one_offline
          = Some [Scenario.text_only "a" "hello" "en"]) as Hq by (vm_compute; reflexivity).
  assert (accepts Scenario.one_offline (CACHE_PREFIX +:+ CHAT_OUTBOX_KEY)) as Hacc
    by (intros value; reflexivity).
  split; [reflexivity |]. split; [exact Hq |]. split; [exact Hacc |].
  apply (enqueue_survives_conversion_failure _ _ _ _ _ _ _ eq_refl Hq Hacc).
Defined.

(** ** C10 *)

(** C10.  Saving a profile merges it into the stored one: a field that is
    not a property of the argument has, in the profile stored afterwards,
    the value it had in the profile stored before. *)
Theorem saved_profile_keeps_other_fields
    (profile : UserProfile) (k : string) (stored : json) (w : World) :
  fst <$> getUserProfile w = Some stored ->
  stored = JNull \/ (exists ms, stored = JObject ms) ->
  forallb (fun kv => storable kv.2) profile = true ->
  k ∉ Props.keys profile ->
  exists w' stored',
    saveUserProfile profile w = Some (tt, w')
    /\ fst <$> getUserProfile w' = Some stored'
    /\ field k stored' = field k stored.
Proof.
  intros Hstored Hshape Hprofile Hk.
  destruct (getUserProfile_quiet w) as (v & w1 & Hrun & Hquiet & Hwf).
  rewrite Hrun in Hstored. injection Hstored as ->.
  unfold saveUserProfile. rewrite bind_run, Hrun. cbv zeta.
  set (existing := if falsy (Some stored) then JObject [] else stored).
  set (newProfile := Props.spread (Props.spread [] (own_properties existing)) profile).
  assert ((setItem PROFILE_KEY (stringify (JObject (defined newProfile)))
           ≫= fun written : bool =>
                if written then mret ()
                else console_error "Failed to save user profile to localStorage") w1
          = Some (tt,
                  if quota w PROFILE_KEY (stringify (JObject (defined newProfile)))
                  then store PROFILE_KEY (stringify (JObject (defined newProfile)))
                         (extend [SetItem PROFILE_KEY
                                    (stringify (JObject (defined newProfile)))] w1)
                  else extend [ConsoleError "Failed to save user profile to localStorage"]
                         (extend [SetItem PROFILE_KEY
                                    (stringify (JObject (defined newProfile)))] w1)))
    as Hsave.
  { rewrite bind_run, setItem_run, (quiet_quota _ _ Hquiet).
    destruct (quota w PROFILE_KEY _); reflexivity. }
  rewrite Hsave. clear Hsave.
  destruct (quota w PROFILE_KEY _) eqn:Hquota.
  - (* the write is done *)
    eexists _, (JObject (defined newProfile)).
    split; [reflexivity |].
    assert (exists ms, existing = JObject ms
                       /\ forallb (fun kv => wf kv.2) ms = true
                       /\ NoDup (Props.keys ms)
                       /\ Props.get k ms = field k stored) as (ms & He & Hms & Hnd & Hget).
    { destruct Hshape as [-> | (ms & ->)].
      - exists []. repeat split; constructor.
      - exists ms. destruct Hwf as [[=] | Hwf']. cbn [wf] in Hwf'.
        apply andb_true_iff in Hwf' as [Hnd Hms].
        apply bool_decide_eq_true in Hnd. auto. }
    assert (NoDup (Props.keys newProfile)) as Hnd'.
    { apply spread_keys_nodup, spread_keys_nodup. constructor. }
    assert (wf (JObject (defined newProfile)) = true) as Hwf'.
    { cbn [wf]. apply andb_true_iff. split.
      - apply bool_decide_eq_true. now apply keys_defined_nodup.
      - apply defined_wf. apply spread_forallb; [| exact Hprofile].
        apply spread_forallb; [reflexivity |]. rewrite He. cbn [own_properties].
        now apply own_properties_storable. }
    split.
    + apply getUserProfile_holds; [exact Hwf' |]. simpl. now rewrite lookup_insert_eq.
    + cbn [field]. rewrite get_defined by exact Hnd'. unfold newProfile.
      rewrite get_spread_other by exact Hk. rewrite He. cbn [own_properties].
      rewrite spread_nodup by (cbn [app]; now rewrite keys_own_properties).
      cbn [app]. rewrite get_own_properties, <- Hget.
      now destruct (Props.get k ms).
  - (* the store refuses the write: nothing changed *)
    eexists _, stored.
    split; [reflexivity |]. split; [| reflexivity].
    rewrite (getUserProfile_store w); [now rewrite Hrun |].
    simpl. apply (quiet_store _ _ Hquiet).
Qed.

Lemma saved_profile_keeps_other_fields_witness :
  let w := Scenario.after
             (saveUserProfile [("name", Some (JString "Asha"));
                               ("preferredUnit", Some (JString "kg"))])
             Scenario.fresh in
  let stored := JObject [("name", JString "Asha"); ("preferredUnit", JString "kg")] in
  fst <$> getUserProfile w = Some stored
  /\ (stored = JNull \/ exists ms, stored = JObject ms)
  /\ forallb (fun kv => storable kv.2) [("language", Some (JString "hi"))] = true
  /\ ("name" ∉ Props.keys [("language", Some (JString "hi"))])
  /\ exists w' stored',
       saveUserProfile [("language", Some (JString "hi"))] w = Some (tt, w')
       /\ fst <$> getUserProfile w' = Some stored'
       /\ field "name" stored' = field "name" stored.
Proof.
  intros w stored.
  assert (fst <$> getUserProfile w = Some stored) as H1 by (vm_compute; reflexivity).
  assert (stored = JNull \/ exists ms, stored = JObject ms) as H2 by (right; eauto).
  assert ("name" ∉ Props.keys [("language", Some (JString "hi"))]) as H4.
  { intros H. apply list_elem_of_singleton in H. discriminate. }
  split; [exact H1 |]. split; [exact H2 |]. split; [reflexivity |]. split; [exact H4 |].
  apply (saved_profile_keeps_other_fields
           [("language", Some (JString "hi"))] "name" stored w H1 H2 eq_refl H4).
Defined.

(** ** C5 *)













(** ** C2 *)

(** C2.  While a pass is in progress a call of the resync trigger returns
    at once: the component and the world are as they were, so nothing was
    read, written or cleared, and the one pass is still the only one.  A
    change of connectivity in that state changes no more than the flag. *)
Theorem second_resync_is_dropped
    (atob : string -> option string) (c : Component) (w : World) :
  reachable atob c w ->
  passes c <> [] ->
  length (passes c) = 1
  /\ step atob Resync c w = Some (c, w)
  /\ forall online,
       exists c', step atob (Online online) c w = Some (c', w)
                  /\ passes c' = passes c.
Proof.
  intros Hreach Hpass.
  destruct (reachable_single_pass atob c w Hreach) as [Hlen Hflag].
  specialize (Hflag Hpass).
  split; [destruct (passes c); [congruence | simpl in *; lia] |].
  split; [apply call_guarded, Hflag |].
  intros online. cbn [step]. destruct (Bool.eqb online (isOnline c)); [eauto |].
  destruct online.
  - rewrite call_guarded by exact Hflag. eauto.
  - eauto.
Qed.

Lemma second_resync_is_dropped_witness :
  reachable Scenario.no_atob Scenario.draining.1 Scenario.draining.2
  /\ passes Scenario.draining.1 <> []
  /\ length (passes Scenario.draining.1) = 1
  /\ step Scenario.no_atob Resync Scenario.draining.1 Scenario.draining.2
     = Some (Scenario.draining.1, Scenario.draining.2).
Proof.
  assert (reachable Scenario.no_atob Scenario.draining.1 Scenario.draining.2) as Hreach.
  { apply (reachable_step Scenario.no_atob (Online true) Scenario.idle Scenario.offline).
    - apply reachable_mount.
    - vm_compute. reflexivity. }
  assert (passes Scenario.draining.1 <> []) as Hpass by (vm_compute; discriminate).
  split; [exact Hreach |]. split; [exact Hpass |].
  destruct (second_resync_is_dropped _ _ _ Hreach Hpass) as (Hlen & Hstep & _).
  split; [exact Hlen | exact Hstep].
Defined.

(** ** C3 *)

(** C3.  Messages sent while offline are appended to the stored list, so
    the outbox reads in the order of the sends.  After the connection
    comes back, whatever the streams deliver and whenever: the calls of
    the backend made so far are those of the queued messages up to the one
    whose stream is being consumed, in the order of the queue, and once
    the pass is over they are those of the whole queue.  The next item is
    not started before the stream of the current one is over: while that
    stream is being consumed, an event that is neither its return nor its
    failure (a chunk, a change of connectivity, another call of the pass)
    calls nothing and leaves the pass at its item, with the same items
    still to come.  The pass as the source writes it ends and has made
    exactly the calls of the queue, in its order; in its trace the call
    for a queued message is followed by a write of the transcript for
    every chunk of its stream, and only then comes the call for the next
    queued message. *)
Theorem queue_is_drained_in_order
    (fileToBase64 : File -> option string) (atob : string -> option string)
    (messages : list Sent) (w0 : World) :
  fst <$> getMessageQueue w0 = Some [] ->
  accepts w0 (CACHE_PREFIX +:+ CHAT_OUTBOX_KEY) ->
  exists w1,
    enqueue_all fileToBase64 messages w0 = Some (tt, w1)
    /\ fst <$> getMessageQueue w1 = Some (queued_all fileToBase64 messages)
    /\ (forall es c w,
          steps atob (Online true :: es)
            {| isOnline := false; isSyncing := false; passes := [] |} w1
          = Some (c, w) ->
          match passes c with
          | [] =>
              sends (trace w)
              = sends (trace w1) ++ calls atob (queued_all fileToBase64 messages)
          | p :: others =>
              others = []
              /\ (exists done,
                    queued_all fileToBase64 messages = done ++ current p :: rest p
                    /\ sends (trace w)
                       = sends (trace w1) ++ calls atob (done ++ [current p]))
              /\ (forall e c' w',
                    ends_stream e = false ->
                    step atob e c w = Some (c', w') ->
                    sends (trace w') = sends (trace w)
                    /\ exists p',
                         passes c' = [p']
                         /\ current p' = current p
                         /\ rest p' = rest p)
          end)
    /\ (forall sendChatMessage history,
          fst <$> getChatHistory w1 = Some history ->
          accepts w1 (CACHE_PREFIX +:+ CHAT_HISTORY_KEY) ->
          exists w',
            syncOfflineMessages atob sendChatMessage true false w1 = Some (false, w')
            /\ sends (trace w')
               = sends (trace w1) ++ calls atob (queued_all fileToBase64 messages)
            /\ marks (trace w')
               = marks (trace w1)
                 ++ marks_of_pass atob sendChatMessage
                      (queued_all fileToBase64 messages)).
Proof.
  intros Hq Hacc.
  destruct (getMessageQueue w0) as [[q0 wq0]|] eqn:E0; [| discriminate].
  injection Hq as ->.
  destruct (enqueue_all_spec fileToBase64 messages [] w0 wq0 E0 Hacc)
    as (w1 & wq1 & Hrun & Hq1 & _ & _).
  cbn [app] in Hq1.
  exists w1. split; [exact Hrun |]. split; [now rewrite Hq1 |]. split.
  - intros es c w. cbn [steps]. rewrite bind_run.
    destruct (step atob (Online true) _ w1) as [[c1 w2]|] eqn:Hstep; [| discriminate].
    cbn [step isOnline isSyncing passes Bool.eqb] in Hstep.
    pose proof (in_order_call atob _
                  {| isOnline := true; isSyncing := false; passes := [] |}
                  _ _ _ _ eq_refl eq_refl eq_refl Hq1 Hstep) as Hin.
    intros Hsteps.
    pose proof (in_order_steps atob _ _ _ _ _ _ _ Hin Hsteps) as Hfin.
    unfold in_order in Hfin.
    destruct (passes c) as [|p [|p' ps]] eqn:Hp; [| | destruct Hfin].
    + apply Hfin.
    + destruct Hfin as (Hflag & Hdone). split; [reflexivity |].
      split; [exact Hdone |].
      intros e c' w' He Hnext.
      exact (awaiting_step atob e c w c' w' p Hflag Hp He Hnext).
  - intros sendChatMessage history Hh Hacc'.
    destruct (getChatHistory w1) as [[h wh]|] eqn:Eh; [| discriminate].
    injection Hh as ->.
    destruct (queued_all fileToBase64 messages) as [|q queue] eqn:Equeue.
    + assert (syncOfflineMessages atob sendChatMessage true false w1
              = Some (false, wq1)) as Hsync.
      { unfold syncOfflineMessages. cbn [orb negb]. rewrite bind_run, Hq1. reflexivity. }
      exists wq1. split; [exact Hsync |]. split.
      * rewrite (quiet_sends w1 wq1); [now rewrite app_nil_r |].
        eapply getMessageQueue_quiet; eassumption.
      * exact (syncOfflineMessages_marks atob sendChatMessage [] w1 wq1 false wq1
                 Hq1 Hsync).
    + destruct (syncOfflineMessages_spec atob sendChatMessage (q :: queue) history
                  w1 wq1 wh Hq1 Eh) as (w' & Hsync & _ & _ & _ & Hsends);
        [discriminate | exact Hacc' |].
      exists w'. split; [exact Hsync |]. split; [exact Hsends |].
      exact (syncOfflineMessages_marks atob sendChatMessage (q :: queue) w1 wq1 false w'
               Hq1 Hsync).
Qed.

Lemma queue_is_drained_in_order_witness :
  fst <$> getMessageQueue Scenario.fresh = Some []
  /\ accepts Scenario.fresh (CACHE_PREFIX +:+ CHAT_OUTBOX_KEY)
  /\ exists w1,
       enqueue_all Scenario.no_conversion
         [("hello", None, "a", "en"); ("status?", None, "b", "en")] Scenario.fresh
       = Some (tt, w1)
       /\ fst <$> getMessageQueue w1
          = Some [Scenario.text_only "a" "hello" "en";
                  Scenario.text_only "b" "status?" "en"]
       /\ (forall c w c' w',
             steps Scenario.no_atob [Online true; Chunk 0 "Hel"] Scenario.idle w1
             = Some (c, w) ->
             step Scenario.no_atob (Chunk 0 "lo!") c w = Some (c', w') ->
             sends (trace w') = sends (trace w))
       /\ exists w',
            syncOfflineMessages Scenario.no_atob Scenario.answers_hello true false w1
            = Some (false, w')
            /\ marks (trace w')
               = marks (trace w1)
                 ++ [Called (SendChatMessage "hello" None "en"); Wrote; Wrote;
                     Called (SendChatMessage "status?" None "en"); Wrote].
Proof.
  assert (fst <$> getMessageQueue Scenario.fresh = Some []) as Hq
    by (vm_compute; reflexivity).
  assert (accepts Scenario.fresh (CACHE_PREFIX +:+ CHAT_OUTBOX_KEY)) as Hacc
    by (intros value; reflexivity).
  split; [exact Hq |]. split; [exact Hacc |].
  destruct (queue_is_drained_in_order Scenario.no_conversion Scenario.no_atob
              [("hello", None, "a", "en"); ("status?", None, "b", "en")]
              Scenario.fresh Hq Hacc) as (w1 & Hrun & Hread & Hmachine & Hloop).
  exists w1. split; [exact Hrun |]. split; [exact Hread |]. split.
  - intros c w c' w' Hsteps Hnext.
    specialize (Hmachine [Chunk 0 "Hel"] c w Hsteps).
    destruct (passes c) as [|p others] eqn:Hp.
    + cbn [step] in Hnext. rewrite Hp in Hnext. discriminate Hnext.
    + destruct Hmachine as (_ & _ & Hwait).
      exact (proj1 (Hwait (Chunk 0 "lo!") c' w' eq_refl Hnext)).
  - assert (fst <$> getChatHistory w1 = Some []) as Hh.
    { assert (fst <$> (enqueue_all Scenario.no_conversion
                         [("hello", None, "a", "en"); ("status?", None, "b", "en")]
                         ≫= fun _ => getChatHistory) Scenario.fresh = Some []) as H
        by (vm_compute; reflexivity).
      rewrite bind_run, Hrun in H. exact H. }
    assert (accepts w1 (CACHE_PREFIX +:+ CHAT_HISTORY_KEY)) as Hacc1.
    { assert (quota <$> (snd <$> enqueue_all Scenario.no_conversion
                           [("hello", None, "a", "en"); ("status?", None, "b", "en")]
                           Scenario.fresh) = Some (quota Scenario.fresh)) as H
        by (vm_compute; reflexivity).
      rewrite Hrun in H. injection H as H. intros value. rewrite H. reflexivity. }
    destruct (Hloop Scenario.answers_hello [] Hh Hacc1) as (w' & Hsync & _ & Hmarks).
    exists w'. split; [exact Hsync | exact Hmarks].
Defined.

(** ** C1 *)

(** C1, as the code has it.  With the pending messages "a" and "b" in the
    transcript and in the outbox, a pass in which the backend answers "a"
    and fails "b" ends with the transcript: "a" with status sent, "b" with
    status failed, and then the reply to "a", which was appended at the
    end of the transcript and so stands after "b".  When the stream of "b"
    fails before its first chunk, "b" has no reply; the chunks it yields
    before it fails stay as a reply of their own, after the reply to "a".
    The outbox reads empty. *)
Theorem two_queued_messages
    (atob : string -> option string)
    (sendChatMessage : string -> option File -> LanguageCode -> Stream)
    (lang_a lang_b first error : string) (more partial : list string) (w : World) :
  fst <$> getChatHistory w
  = Some [Scenario.user_message "a" "hello" ChatMessage.pending;
          Scenario.user_message "b" "status?" ChatMessage.pending] ->
  fst <$> getMessageQueue w
  = Some [Scenario.text_only "a" "hello" lang_a;
          Scenario.text_only "b" "status?" lang_b] ->
  accepts w (CACHE_PREFIX +:+ CHAT_HISTORY_KEY) ->
  sendChatMessage "hello" None lang_a
  = {| chunks := first :: more; ending := Completed |} ->
  sendChatMessage "status?" None lang_b
  = {| chunks := partial; ending := Threw error |} ->
  exists w',
    syncOfflineMessages atob sendChatMessage true false w = Some (false, w')
    /\ fst <$> getChatHistory w'
       = Some ([Scenario.user_message "a" "hello" ChatMessage.sent;
                Scenario.user_message "b" "status?" ChatMessage.failed;
                Scenario.model_reply "a-model" (accumulate (first :: more))]
               ++ match partial with
                  | [] => []
                  | _ => [Scenario.model_reply "b-model" (accumulate partial)]
                  end)
    /\ fst <$> getMessageQueue w' = Some [].
Proof.
  intros Hh Hq Hacc Ha Hb.
  destruct (pass_outcome atob sendChatMessage _ _ w Hq Hh) as (w' & Hsync & Hh' & Hq');
    [discriminate | exact Hacc |].
  exists w'. split; [exact Hsync |]. split; [| exact Hq'].
  rewrite Hh'. f_equal.
  unfold after_turns. cbn [fold_left]. unfold after_turn at 2.
  cbn [file_of Scenario.text_only QueuedMessage.fileData QueuedMessage.prompt
       QueuedMessage.lang].
  rewrite Ha. cbn [chunks ending].
  unfold after_turn.
  cbn [file_of Scenario.text_only QueuedMessage.fileData QueuedMessage.prompt
       QueuedMessage.lang].
  rewrite Hb. cbn [chunks ending]. destruct partial; reflexivity.
Qed.

Lemma two_queued_messages_witness :
  fst <$> getChatHistory Scenario.offline
  = Some [Scenario.user_message "a" "hello" ChatMessage.pending;
          Scenario.user_message "b" "status?" ChatMessage.pending]
  /\ fst <$> getMessageQueue Scenario.offline
     = Some [Scenario.text_only "a" "hello" "en";
             Scenario.text_only "b" "status?" "en"]
  /\ accepts Scenario.offline (CACHE_PREFIX +:+ CHAT_HISTORY_KEY)
  /\ Scenario.answers_hello "hello" None "en"
     = {| chunks := ["Hel"; "lo!"]; ending := Completed |}
  /\ Scenario.answers_hello "status?" None "en"
     = {| chunks := []; ending := Threw "Failed to fetch" |}
  /\ exists w',
       syncOfflineMessages Scenario.no_atob Scenario.answers_hello true false
         Scenario.offline = Some (false, w')
       /\ fst <$> getChatHistory w'
          = Some [Scenario.user_message "a" "hello" ChatMessage.sent;
                  Scenario.user_message "b" "status?" ChatMessage.failed;
                  Scenario.model_reply "a-model" "Hello!"]
       /\ fst <$> getMessageQueue w' = Some [].
Proof.
  assert (fst <$> getChatHistory Scenario.offline
          = Some [Scenario.user_message "a" "hello" ChatMessage.pending;
                  Scenario.user_message "b" "status?" ChatMessage.pending]) as Hh
    by (vm_compute; reflexivity).
  assert (fst <$> getMessageQueue Scenario.offline
          = Some [Scenario.text_only "a" "hello" "en";
                  Scenario.text_only "b" "status?" "en"]) as Hq
    by (vm_compute; reflexivity).
  assert (accepts Scenario.offline (CACHE_PREFIX +:+ CHAT_HISTORY_KEY)) as Hacc
    by (intros value; reflexivity).
  split; [exact Hh |]. split; [exact Hq |]. split; [exact Hacc |].
  split; [reflexivity |]. split; [reflexivity |].
  apply (two_queued_messages Scenario.no_atob Scenario.answers_hello
           "en" "en" "Hel" "Failed to fetch" ["lo!"] [] Scenario.offline
           Hh Hq Hacc eq_refl eq_refl).
Defined.

(** C1, as stated, fails: in that transcript the message after "a" is "b",
    a message of the user, and not the reply of the model. *)
Lemma reply_is_not_next :
  exists final,
    fst <$> (syncOfflineMessages Scenario.no_atob Scenario.answers_hello true false
             ≫= fun _ => getChatHistory) Scenario.offline = Some final
    /\ next_after "a" final
       = Some (Scenario.user_message "b" "status?" ChatMessage.failed)
    /\ ~ reply_follows "a" final.
Proof.
  eexists. split; [vm_compute; reflexivity |].
  split; [reflexivity |].
  intros (reply & Hnext & Hmodel). vm_compute in Hnext. injection Hnext as <-.
  discriminate Hmodel.
Qed.


(** ** C4 *)

(** C4.  A stream that yields chunks and ends well leaves exactly one
    message of the model in the transcript of a single prompt, and its
    text is the chunks put together: "Hello!" for "Hel" and "lo!".  This
    holds of the pass over a queue of one message and of a message sent
    while online, in the state of the component and in the store.  In
    both loops the first chunk appends the message, and a later chunk
    writes the text so far into that message, the last of the transcript,
    and appends nothing. *)
Theorem streamed_reply_is_one_message
    (atob : string -> option string)
    (trim : string -> string) (createObjectURL : File -> string)
    (fileToBase64 : File -> option string)
    (sendChatMessage : string -> option File -> LanguageCode -> Stream)
    (q : QueuedMessage.t) (file : option File) (history : list ChatMessage.t)
    (s : AIChat.State) (messageId : string)
    (first : string) (more : list string) (w : World) :
  accepts w (CACHE_PREFIX +:+ CHAT_HISTORY_KEY) ->
  sendChatMessage (QueuedMessage.prompt q) file (QueuedMessage.lang q)
  = {| chunks := first :: more; ending := Completed |} ->
  fst <$> getMessageQueue w = Some [q] ->
  fst <$> getChatHistory w = Some history ->
  file_of atob q = Some file ->
  List.filter is_model history = [] ->
  AIChat.blank trim (QueuedMessage.prompt q) = false ->
  List.filter is_model (AIChat.messages s) = [] ->
  (exists w' final,
     syncOfflineMessages atob sendChatMessage true false w = Some (false, w')
     /\ fst <$> getChatHistory w' = Some final
     /\ List.filter is_model final
        = [ChatMessage.set_text (accumulate (first :: more)) (model_message q)]
     /\ length final = S (length history))
  /\ (exists s' w',
        AIChat.sendMessage trim createObjectURL fileToBase64 sendChatMessage
          messageId true (QueuedMessage.lang q) (QueuedMessage.prompt q) file s w
        = Some (s', w')
        /\ fst <$> getChatHistory w' = Some (AIChat.messages s')
        /\ List.filter is_model (AIChat.messages s')
           = [ChatMessage.set_text (accumulate (first :: more))
                (AIChat.aiMessage messageId)]
        /\ length (AIChat.messages s') = S (S (length (AIChat.messages s))))
  /\ (exists w1,
        receive q first
          {| fullResponse := EmptyString; firstChunk := true;
             currentChatHistory := history |} w
        = Some ({| fullResponse := first; firstChunk := false;
                   currentChatHistory :=
                     history ++ [ChatMessage.set_text first (model_message q)] |}, w1))
  /\ (forall text chunk earlier reply w0,
        ChatMessage.role reply = ChatMessage.model ->
        exists w1,
          receive q chunk
            {| fullResponse := text; firstChunk := false;
               currentChatHistory := earlier ++ [reply] |} w0
          = Some ({| fullResponse := text +:+ chunk; firstChunk := false;
                     currentChatHistory :=
                       earlier ++ [ChatMessage.set_text (text +:+ chunk) reply] |}, w1))
  /\ (exists s1 w1,
        AIChat.receive messageId first
          {| AIChat.fullResponse := EmptyString; AIChat.firstChunkReceived := false |} s w
        = Some ({| AIChat.fullResponse := first; AIChat.firstChunkReceived := true |},
                s1, w1)
        /\ AIChat.messages s1
           = AIChat.messages s
             ++ [ChatMessage.set_text first (AIChat.aiMessage messageId)])
  /\ (forall text chunk earlier reply s0 w0,
        accepts w0 (CACHE_PREFIX +:+ CHAT_HISTORY_KEY) ->
        AIChat.messages s0 = earlier ++ [reply] ->
        ChatMessage.role reply = ChatMessage.model ->
        exists s1 w1,
          AIChat.receive messageId chunk
            {| AIChat.fullResponse := text; AIChat.firstChunkReceived := true |} s0 w0
          = Some ({| AIChat.fullResponse := text +:+ chunk;
                     AIChat.firstChunkReceived := true |}, s1, w1)
          /\ AIChat.messages s1
             = earlier ++ [ChatMessage.set_text (text +:+ chunk) reply])
  /\ accumulate ["Hel"; "lo!"] = "Hello!".
Proof.
  intros Hacc Hstream Hq Hh Hfile Hnone Hblank Hnone'.
  split; [| split; [| split; [| split; [| split; [| split; [| reflexivity]]]]]].
  - destruct (pass_outcome atob sendChatMessage [q] history w Hq Hh)
      as (w' & Hsync & Hh' & _); [discriminate | exact Hacc |].
    exists w', (after_turns atob sendChatMessage [q] history).
    split; [exact Hsync |]. split; [exact Hh' |].
    unfold after_turns. cbn [fold_left]. unfold after_turn. rewrite Hfile, Hstream.
    cbn [chunks ending with_reply].
    rewrite settle_snoc by apply findIndex_range. split.
    + rewrite List.filter_app, (settle_no_model _ _ _ Hnone). reflexivity.
    + rewrite length_app. unfold settle.
      destruct (_ >? _)%Z; rewrite ?length_alter; simpl; lia.
  - destruct (sendMessage_online trim createObjectURL fileToBase64 sendChatMessage
                messageId (QueuedMessage.lang q) (QueuedMessage.prompt q) file s
                first more w Hacc Hblank Hstream)
      as (s' & w' & Hsend & Hs' & Hholds).
    exists s', w'. split; [exact Hsend |].
    split; [now apply reads_history |]. rewrite Hs'. split.
    + rewrite List.filter_app, Hnone'. reflexivity.
    + rewrite length_app. simpl. lia.
  - apply (receive_locals q first
             {| fullResponse := EmptyString; firstChunk := true;
                currentChatHistory := history |} history (model_message q) w);
      reflexivity.
  - intros text chunk earlier reply w0 Hrole.
    apply (receive_locals q chunk
             {| fullResponse := text; firstChunk := false;
                currentChatHistory := earlier ++ [reply] |} earlier reply w0);
      [reflexivity | exact Hrole].
  - destruct (receive_first messageId first
                {| AIChat.fullResponse := EmptyString;
                   AIChat.firstChunkReceived := false |} s w Hacc eq_refl)
      as (s1 & w1 & Hrun & Hs1 & _).
    exists s1, w1. split; [exact Hrun | exact Hs1].
  - intros text chunk earlier reply s0 w0 Hacc0 Hs0 Hrole.
    destruct (receive_next messageId chunk
                {| AIChat.fullResponse := text; AIChat.firstChunkReceived := true |}
                s0 earlier reply w0 Hacc0 eq_refl Hs0 Hrole)
      as (s1 & w1 & Hrun & Hs1 & _).
    exists s1, w1. split; [exact Hrun | exact Hs1].
Qed.

Lemma streamed_reply_is_one_message_witness :
  accepts Scenario.one_offline (CACHE_PREFIX +:+ CHAT_HISTORY_KEY)
  /\ fst <$> getMessageQueue Scenario.one_offline
     = Some [Scenario.text_only "a" "hello" "en"]
  /\ fst <$> getChatHistory Scenario.one_offline
     = Some [Scenario.user_message "a" "hello" ChatMessage.pending]
  /\ (exists w' final,
        syncOfflineMessages Scenario.no_atob Scenario.answers_hello true false
          Scenario.one_offline = Some (false, w')
        /\ fst <$> getChatHistory w' = Some final
        /\ List.filter is_model final = [Scenario.model_reply "a-model" "Hello!"]
        /\ length final = 2)
  /\ (exists s' w',
        AIChat.sendMessage Scenario.trim_ascii Scenario.object_url
          Scenario.no_conversion Scenario.answers_hello
          "c" true "en" "hello" None Scenario.chat_opened Scenario.one_offline
        = Some (s', w')
        /\ fst <$> getChatHistory w' = Some (AIChat.messages s')
        /\ List.filter is_model (AIChat.messages s')
           = [Scenario.model_reply "c-model" "Hello!"]
        /\ length (AIChat.messages s') = 3).
Proof.
  assert (accepts Scenario.one_offline (CACHE_PREFIX +:+ CHAT_HISTORY_KEY)) as Hacc
    by (intros value; reflexivity).
  assert (fst <$> getMessageQueue Scenario.one_offline
          = Some [Scenario.text_only "a" "hello" "en"]) as Hq
    by (vm_compute; reflexivity).
  assert (fst <$> getChatHistory Scenario.one_offline
          = Some [Scenario.user_message "a" "hello" ChatMessage.pending]) as Hh
    by (vm_compute; reflexivity).
  split; [exact Hacc |]. split; [exact Hq |]. split; [exact Hh |].
  pose proof (streamed_reply_is_one_message Scenario.no_atob
                Scenario.trim_ascii Scenario.object_url Scenario.no_conversion
                Scenario.answers_hello
                (Scenario.text_only "a" "hello" "en") None
                [Scenario.user_message "a" "hello" ChatMessage.pending]
                Scenario.chat_opened "c" "Hel" ["lo!"] Scenario.one_offline
                Hacc eq_refl Hq Hh eq_refl eq_refl eq_refl eq_refl)
    as (Hdrain & Hsend & _).
  split; [exact Hdrain | exact Hsend].
Defined.

(** ** C9 *)

(** C9.  When the stream of a queued message yields chunks and then fails,
    wherever the message stands in the outbox, the transcript that is
    stored at the end of the pass has the reply streamed so far: a message
    of the model with the text of the chunks, which stands after the
    message of the user, behind the replies to the queued messages before
    it.  The message of the user has status failed; only a later queued
    message of the same id makes the pass set its status once more.  The
    other messages are there as they were, but for the status of those
    that have the id of a queued message. *)
Theorem partial_reply_is_kept
    (atob : string -> option string)
    (sendChatMessage : string -> option File -> LanguageCode -> Stream)
    (earlier later : list QueuedMessage.t) (q : QueuedMessage.t) (file : option File)
    (before after : list ChatMessage.t) (u : ChatMessage.t)
    (first error : string) (more : list string) (w : World) :
  fst <$> getMessageQueue w = Some (earlier ++ q :: later) ->
  fst <$> getChatHistory w = Some (before ++ u :: after) ->
  accepts w (CACHE_PREFIX +:+ CHAT_HISTORY_KEY) ->
  ChatMessage.id u = QueuedMessage.id q ->
  Forall (fun m => ChatMessage.id m <> QueuedMessage.id q) before ->
  file_of atob q = Some file ->
  sendChatMessage (QueuedMessage.prompt q) file (QueuedMessage.lang q)
  = {| chunks := first :: more; ending := Threw error |} ->
  exists w' before' u' after' answered1 replies1 reply answered2 replies2,
    syncOfflineMessages atob sendChatMessage true false w = Some (false, w')
    /\ fst <$> getChatHistory w'
       = Some (before' ++ u' :: after' ++ replies1 ++ reply :: replies2)
    /\ settled later
         (ChatMessage.set_text (accumulate (first :: more)) (model_message q)) reply
    /\ ChatMessage.text reply = accumulate (first :: more)
    /\ ChatMessage.role reply = ChatMessage.model
    /\ same_but_status u u'
    /\ (Forall (fun q' => QueuedMessage.id q' <> QueuedMessage.id q) later ->
        u' = ChatMessage.set_status ChatMessage.failed u)
    /\ Forall2 (settled (earlier ++ later)) before before'
    /\ Forall2 (settled (earlier ++ later)) after after'
    /\ sublist answered1 earlier
    /\ Forall2 reply_to answered1 replies1
    /\ sublist answered2 later
    /\ Forall2 reply_to answered2 replies2
    /\ fst <$> getMessageQueue w' = Some [].
Proof.
  intros Hq Hh Hacc Hid Hbefore Hfile Hstream.
  destruct (pass_outcome atob sendChatMessage _ _ w Hq Hh)
    as (w' & Hsync & Hh' & Hq'); [now destruct earlier | exact Hacc |].
  pose proof (fun h => after_turn_streamed atob sendChatMessage q file h Hfile) as Hturn.
  cbv zeta in Hturn. rewrite Hstream in Hturn. cbn [chunks ending] in Hturn.
  destruct (turn_in_pass atob sendChatMessage earlier q later before u after
              ChatMessage.failed (first :: more) Hturn Hid Hbefore)
    as (before' & u' & after' & answered1 & replies1 & own & answered2 & replies2
        & Hfinal & Hu' & Hb & Ha & Hsub1 & Hrep1 & Hown & Hsub2 & Hrep2).
  cbn [with_reply app] in Hown.
  inversion Hown as [|? reply ? own' Hreply Hnil]; subst. inversion Hnil; subst.
  exists w', before', u', after', answered1, replies1, reply, answered2, replies2.
  split; [exact Hsync |]. split; [now rewrite Hh', Hfinal |].
  split; [exact Hreply |].
  pose proof Hreply as ((_ & Hrole & Htext & _) & _).
  split; [exact Htext |]. split; [exact Hrole |].
  destruct Hu' as [Hsame Hkeep]. split.
  { eapply same_but_status_trans; [apply same_but_status_set | exact Hsame]. }
  split.
  { intros Hlater. apply Hkeep. eapply Forall_impl; [exact Hlater |].
    intros q' Hq''. destruct u. cbn in *. congruence. }
  repeat (split; [assumption |]). exact Hq'.
Qed.

Lemma partial_reply_is_kept_witness :
  fst <$> getMessageQueue Scenario.offline
  = Some ([] ++ Scenario.text_only "a" "hello" "en"
             :: [Scenario.text_only "b" "status?" "en"])
  /\ fst <$> getChatHistory Scenario.offline
     = Some ([] ++ Scenario.user_message "a" "hello" ChatMessage.pending
                :: [Scenario.user_message "b" "status?" ChatMessage.pending])
  /\ accepts Scenario.offline (CACHE_PREFIX +:+ CHAT_HISTORY_KEY)
  /\ exists w' before' u' after' replies1 reply replies2,
       syncOfflineMessages Scenario.no_atob Scenario.breaks_off true false
         Scenario.offline = Some (false, w')
       /\ fst <$> getChatHistory w'
          = Some (before' ++ u' :: after' ++ replies1 ++ reply :: replies2)
       /\ ChatMessage.text reply = "Hello!"
       /\ ChatMessage.role reply = ChatMessage.model
       /\ u' = Scenario.user_message "a" "hello" ChatMessage.failed
       /\ fst <$> getChatHistory w'
          = Some [Scenario.user_message "a" "hello" ChatMessage.failed;
                  Scenario.user_message "b" "status?" ChatMessage.failed;
                  Scenario.model_reply "a-model" "Hello!";
                  Scenario.model_reply "b-model" "Hello!"].
Proof.
  assert (fst <$> getMessageQueue Scenario.offline
          = Some ([] ++ Scenario.text_only "a" "hello" "en"
                     :: [Scenario.text_only "b" "status?" "en"])) as Hq
    by (vm_compute; reflexivity).
  assert (fst <$> getChatHistory Scenario.offline
          = Some ([] ++ Scenario.user_message "a" "hello" ChatMessage.pending
                     :: [Scenario.user_message "b" "status?" ChatMessage.pending])) as Hh
    by (vm_compute; reflexivity).
  assert (accepts Scenario.offline (CACHE_PREFIX +:+ CHAT_HISTORY_KEY)) as Hacc
    by (intros value; reflexivity).
  assert (Forall (fun q' => QueuedMessage.id q' <> "a")
            [Scenario.text_only "b" "status?" "en"]) as Hlater
    by (constructor; [discriminate | constructor]).
  split; [exact Hq |]. split; [exact Hh |]. split; [exact Hacc |].
  destruct (partial_reply_is_kept Scenario.no_atob Scenario.breaks_off
              [] [Scenario.text_only "b" "status?" "en"]
              (Scenario.text_only "a" "hello" "en") None
              [] [Scenario.user_message "b" "status?" ChatMessage.pending]
              (Scenario.user_message "a" "hello" ChatMessage.pending)
              "Hel" "network error" ["lo!"] Scenario.offline
              Hq Hh Hacc eq_refl (List.Forall_nil _) eq_refl eq_refl)
    as (w' & before' & u' & after' & answered1 & replies1 & reply & answered2 & replies2
        & Hsync & Hfinal & _ & Htext & Hrole & _ & Hu & _).
  exists w', before', u', after', replies1, reply, replies2.
  split; [exact Hsync |]. split; [exact Hfinal |]. split; [exact Htext |].
  split; [exact Hrole |]. split; [exact (Hu Hlater) |].
  assert (fst <$> (syncOfflineMessages Scenario.no_atob Scenario.breaks_off true false
                     ≫= fun _ => getChatHistory) Scenario.offline
          = Some [Scenario.user_message "a" "hello" ChatMessage.failed;
                  Scenario.user_message "b" "status?" ChatMessage.failed;
                  Scenario.model_reply "a-model" "Hello!";
                  Scenario.model_reply "b-model" "Hello!"]) as Hrun
    by (vm_compute; reflexivity).
  rewrite bind_run, Hsync in Hrun. exact Hrun.
Defined.

End Claims.

(* ===================================================================== *)
(** * More of [services/offlineService.ts] *)
(* ===================================================================== *)

Module CacheProps.
Import JSON Platform Observing Runs offlineService App.
Import JSONFacts ViewFacts ServiceFacts DrainFacts MachineFacts QueueFacts TranscriptFacts.
Import StoreFacts.



(** A write the store refuses is dropped: [setCachedData] returns, the
    store is as it was, the failure is a line on the console, and every
    key reads as before. *)
Theorem refused_write_changes_nothing (key : string) (data : json) (w : World) :
  quota w (CACHE_PREFIX +:+ key) (stringify (cacheEntry (clock w (ticks w)) data)) = false ->
  exists w',
    setCachedData key data w = Some (tt, w')
    /\ localStorage w' = localStorage w
    /\ ConsoleError ("Failed to cache data for key: " +:+ key) ∈ trace w'
    /\ forall k, fst <$> getCachedData k w' = fst <$> getCachedData k w.
Proof.
  intros Hq. rewrite setCachedData_run. cbv zeta. rewrite Hq.
  eexists. split; [reflexivity |]. split; [reflexivity |]. split.
  - simpl. apply elem_of_app. right. right. left.
  - intros k. now apply getCachedData_store.
Qed.

Lemma refused_write_changes_nothing_witness :
  let w := {| localStorage := localStorage Scenario.one_offline;
              quota := fun _ _ => false;
              clock := clock Scenario.one_offline;
              ticks := ticks Scenario.one_offline;
              trace := [] |} in
  quota w (CACHE_PREFIX +:+ "marketPrices")
    (stringify (cacheEntry (clock w (ticks w)) (JArray []))) = false
  /\ exists w',
       setCachedData "marketPrices" (JArray []) w = Some (tt, w')
       /\ localStorage w' = localStorage w
       /\ ConsoleError "Failed to cache data for key: marketPrices" ∈ trace w'.
Proof.
  intros w. split; [reflexivity |].
  destruct (refused_write_changes_nothing "marketPrices" (JArray []) w eq_refl)
    as (w' & Hrun & Hls & Hlog & _).
  exists w'. split; [exact Hrun |]. split; [exact Hls | exact Hlog].
Defined.

(** The transcript, the outbox and the harvest log read as the empty list
    when nothing usable is stored under their key: no item, text that is
    not JSON, or an entry whose [data] is missing or counts as false. *)
Theorem lists_default_to_empty (w : World) :
  (unusable w CHAT_HISTORY_KEY -> fst <$> getChatHistory w = Some [])
  /\ (unusable w CHAT_OUTBOX_KEY -> fst <$> getMessageQueue w = Some [])
  /\ (unusable w HARVEST_LOG_KEY -> fst <$> getHarvestLog w = Some []).
Proof.
  split; [| split]; intros H.
  - now apply (read_unusable ChatMessage.of_json).
  - now apply (read_unusable QueuedMessage.of_json).
  - now apply (read_unusable Some).
Qed.

Lemma lists_default_to_empty_witness :
  let w := store (CACHE_PREFIX +:+ CHAT_HISTORY_KEY) (stringify (cacheEntry "2025-03-01T08:00:00.000Z" JNull))
             (store (CACHE_PREFIX +:+ CHAT_OUTBOX_KEY) "[1,2" Scenario.fresh) in
  unusable w CHAT_HISTORY_KEY /\ unusable w CHAT_OUTBOX_KEY /\ unusable w HARVEST_LOG_KEY
  /\ fst <$> getChatHistory w = Some []
  /\ fst <$> getMessageQueue w = Some []
  /\ fst <$> getHarvestLog w = Some [].
Proof.
  intros w.
  assert (unusable w CHAT_HISTORY_KEY) as H1.
  { right. eexists. split; [reflexivity |]. vm_compute. reflexivity. }
  assert (unusable w CHAT_OUTBOX_KEY) as H2.
  { right. eexists. split; [reflexivity |]. vm_compute. exact I. }
  assert (unusable w HARVEST_LOG_KEY) as H3 by (left; reflexivity).
  destruct (lists_default_to_empty w) as (Hh & Hq & Hl).
  split; [exact H1 |]. split; [exact H2 |]. split; [exact H3 |].
  split; [exact (Hh H1) |]. split; [exact (Hq H2) | exact (Hl H3)].
Defined.

(** After [clearMessageQueue] the outbox reads empty, whatever it held, and
    every other key of the store is as it was; the transcript reads as
    before. *)
Theorem cleared_outbox_reads_empty (w : World) :
  exists w',
    clearMessageQueue w = Some (tt, w')
    /\ fst <$> getMessageQueue w' = Some []
    /\ (forall k, k <> CACHE_PREFIX +:+ CHAT_OUTBOX_KEY ->
                  localStorage w' !! k = localStorage w !! k)
    /\ fst <$> getChatHistory w' = fst <$> getChatHistory w.
Proof.
  eexists. split; [reflexivity |]. split; [| split].
  - apply reads_empty_queue. simpl. apply lookup_delete_eq.
  - intros k Hk. simpl. now rewrite lookup_delete_ne.
  - apply (read_item ChatMessage.list_of_json). simpl.
    rewrite lookup_delete_ne; [reflexivity |]. discriminate.
Qed.



(** The point total reads back: after [saveRewardsPoints] with a whole
    number [n] a double holds exactly, and a write the store takes,
    [getRewardsPoints] gives [n]. *)
Theorem reward_points_read_back (n : Z) (w : World) :
  safe_integer n ->
  quota w (CACHE_PREFIX +:+ TOTAL_POINTS_KEY) (pretty n) = true ->
  fst <$> (saveRewardsPoints (Integer n) ≫= fun _ => getRewardsPoints) w
  = Some (Integer n).
Proof.
  intros Hn Hq. unfold saveRewardsPoints, getRewardsPoints.
  rewrite (toString_safe n Hn).
  rewrite !bind_run, setItem_run, Hq, ret_run, bind_run, getItem_run, ret_run.
  cbn [fst fmap option_fmap option_map localStorage store extend].
  rewrite lookup_insert_eq.
  pose proof (pretty_nonempty n) as Hne.
  destruct (pretty n) eqn:E; [congruence |]. rewrite <- E.
  now rewrite parseInt_pretty.
Qed.

Lemma reward_points_read_back_witness :
  safe_integer 1250
  /\ quota Scenario.fresh (CACHE_PREFIX +:+ TOTAL_POINTS_KEY) (pretty 1250%Z) = true
  /\ fst <$> (saveRewardsPoints (Integer 1250) ≫= fun _ => getRewardsPoints)
               Scenario.fresh
     = Some (Integer 1250).
Proof.
  assert (safe_integer 1250) as H by (unfold safe_integer; lia).
  split; [exact H |]. split; [reflexivity |].
  apply (reward_points_read_back 1250 Scenario.fresh H eq_refl).
Defined.

End CacheProps.

(* ===================================================================== *)
(** * More of the drain pass of [App.tsx] *)
(* ===================================================================== *)

Module DrainProps.
Import JSON Platform Observing Runs offlineService App.
Import JSONFacts ViewFacts ServiceFacts DrainFacts MachineFacts QueueFacts TranscriptFacts.
Import StoreFacts PassFacts.

(** An attachment goes through the outbox: when the conversion gives a data
    URL and [atob] decodes what stands after its comma, the entry that
    [addMessageToQueue] stored is rebuilt by the pass into a file with the
    decoded bytes and with the name and the type of the attachment, an
    empty name or type replaced by "offline-file" and
    "application/octet-stream". *)
Theorem attachment_survives_outbox
    (fileToBase64 : File -> option string) (atob : string -> option string)
    (f : File) (prompt id : string) (lang : LanguageCode)
    (base64 payload decoded : string)
    (outbox : list QueuedMessage.t) (w : World) :
  fst <$> getMessageQueue w = Some outbox ->
  accepts w (CACHE_PREFIX +:+ CHAT_OUTBOX_KEY) ->
  fileToBase64 f = Some base64 ->
  split "," base64 !! 1 = Some payload ->
  atob payload = Some decoded ->
  exists w' q,
    addMessageToQueue fileToBase64 prompt (Some f) id lang w = Some (tt, w')
    /\ fst <$> getMessageQueue w' = Some (outbox ++ [q])
    /\ file_of atob q = Some (Some (rebuilt f decoded))
    /\ call_of atob q = Some (SendChatMessage prompt (Some (rebuilt f decoded)) lang).
Proof.
  intros Hq Hacc Hconv Hsplit Hatob.
  destruct (getMessageQueue w) as [[outbox' wq]|] eqn:E; [| discriminate].
  injection Hq as ->.
  destruct (addMessageToQueue_spec fileToBase64 prompt (Some f) id lang outbox w wq E Hacc)
    as (w' & Hrun & Hread & _).
  exists w', (queued fileToBase64 prompt (Some f) id lang).
  split; [exact Hrun |]. split; [now rewrite Hread |].
  assert (file_of atob (queued fileToBase64 prompt (Some f) id lang)
          = Some (Some (rebuilt f decoded))) as Hfile.
  { unfold file_of, queued. cbn [QueuedMessage.fileData QueuedMessage.fileName
      QueuedMessage.fileMimeType mbind option_bind]. rewrite Hconv.
    destruct base64 as [|c base64]; [discriminate Hsplit |].
    unfold base64ToFile. rewrite Hsplit. cbn [default from_option].
    unfold Datatypes.id. rewrite Hatob. unfold rebuilt.
    destruct f as [n t b]. cbn [name type mbind option_bind fmap option_fmap option_map].
    destruct n, t; reflexivity. }
  split; [exact Hfile |]. unfold call_of. rewrite Hfile. reflexivity.
Qed.

Lemma attachment_survives_outbox_witness :
  let convert := fun f : File => Some ("data:" +:+ type f +:+ ";base64,SkZJRg==") in
  let decode := fun s : string =>
    if String.eqb s "SkZJRg==" then Some "JFIF" else None in
  fst <$> getMessageQueue Scenario.fresh = Some []
  /\ accepts Scenario.fresh (CACHE_PREFIX +:+ CHAT_OUTBOX_KEY)
  /\ convert Scenario.photo = Some "data:image/jpeg;base64,SkZJRg=="
  /\ split "," "data:image/jpeg;base64,SkZJRg==" !! 1 = Some "SkZJRg=="
  /\ decode "SkZJRg==" = Some "JFIF"
  /\ exists w' q,
       addMessageToQueue convert "what is this?" (Some Scenario.photo) "p" "en"
         Scenario.fresh = Some (tt, w')
       /\ fst <$> getMessageQueue w' = Some ([] ++ [q])
       /\ file_of decode q = Some (Some (rebuilt Scenario.photo "JFIF"))
       /\ call_of decode q
          = Some (SendChatMessage "what is this?"
                    (Some (rebuilt Scenario.photo "JFIF")) "en").
Proof.
  intros convert decode.
  assert (accepts Scenario.fresh (CACHE_PREFIX +:+ CHAT_OUTBOX_KEY)) as Hacc
    by (intros v; reflexivity).
  split; [reflexivity |]. split; [exact Hacc |]. split; [reflexivity |].
  split; [reflexivity |]. split; [reflexivity |].
  apply (attachment_survives_outbox convert decode Scenario.photo "what is this?" "p" "en"
           "data:image/jpeg;base64,SkZJRg==" "SkZJRg==" "JFIF" [] Scenario.fresh
           eq_refl Hacc eq_refl eq_refl eq_refl).
Defined.

(** A queued message whose attachment cannot be rebuilt is given up without
    a call of the backend, and the pass goes on: wherever the message
    stands in the outbox, the backend is called for the queued messages
    before it and for those after it, in their order, and at the end its
    message in the transcript has status failed, provided no later queued
    message has its id.  The other messages are as they were, but for the
    status of those that have the id of a queued message; the replies to
    the other queued messages follow, and the outbox is cleared. *)
Theorem undecodable_attachment_fails_message
    (atob : string -> option string)
    (sendChatMessage : string -> option File -> LanguageCode -> Stream)
    (earlier later : list QueuedMessage.t) (q : QueuedMessage.t)
    (before after : list ChatMessage.t) (u : ChatMessage.t) (w : World) :
  fst <$> getMessageQueue w = Some (earlier ++ q :: later) ->
  fst <$> getChatHistory w = Some (before ++ u :: after) ->
  accepts w (CACHE_PREFIX +:+ CHAT_HISTORY_KEY) ->
  file_of atob q = None ->
  ChatMessage.id u = QueuedMessage.id q ->
  Forall (fun m => ChatMessage.id m <> QueuedMessage.id q) before ->
  Forall (fun q' => QueuedMessage.id q' <> QueuedMessage.id q) later ->
  exists w' before' after' answered replies,
    syncOfflineMessages atob sendChatMessage true false w = Some (false, w')
    /\ sends (trace w') = sends (trace w) ++ calls atob earlier ++ calls atob later
    /\ fst <$> getChatHistory w'
       = Some (before' ++ ChatMessage.set_status ChatMessage.failed u
                 :: after' ++ replies)
    /\ Forall2 (settled (earlier ++ later)) before before'
    /\ Forall2 (settled (earlier ++ later)) after after'
    /\ sublist answered (earlier ++ later)
    /\ Forall2 reply_to answered replies
    /\ fst <$> getMessageQueue w' = Some [].
Proof.
  intros Hq Hh Hacc Hfile Hid Hbefore Hlater.
  destruct (getMessageQueue w) as [[queue' wq]|] eqn:Eq; [| discriminate].
  destruct (getChatHistory w) as [[history' wh]|] eqn:Eh; [| discriminate].
  injection Hq as ->. injection Hh as ->.
  destruct (syncOfflineMessages_spec atob sendChatMessage (earlier ++ q :: later) _
              w wq wh Eq Eh) as (w' & Hsync & Hhist & Hout & _ & Hsends);
    [now destruct earlier | exact Hacc |].
  destruct (turn_in_pass atob sendChatMessage earlier q later before u after
              ChatMessage.failed []
              (fun h => after_turn_undecodable atob sendChatMessage q h Hfile)
              Hid Hbefore)
    as (before' & u' & after' & answered1 & replies1 & own & answered2 & replies2
        & Hfinal & Hu' & Hb & Ha & Hsub1 & Hrep1 & Hown & Hsub2 & Hrep2).
  cbn [with_reply] in Hown. inversion Hown; subst. cbn [app] in Hfinal.
  assert (u' = ChatMessage.set_status ChatMessage.failed u) as ->.
  { apply Hu'. eapply Forall_impl; [exact Hlater |]. intros q' Hq'.
    destruct u. cbn in *. congruence. }
  exists w', before', after', (answered1 ++ answered2), (replies1 ++ replies2).
  split; [exact Hsync |]. split.
  { rewrite Hsends, calls_app, calls_cons. unfold call_of. now rewrite Hfile. }
  split; [rewrite <- Hfinal; now apply reads_history |].
  split; [exact Hb |]. split; [exact Ha |].
  split; [now apply sublist_app |].
  split; [now apply Forall2_app | now apply reads_empty_queue].
Qed.

Lemma undecodable_attachment_fails_message_witness :
  let broken :=
    {| QueuedMessage.id := "a"; QueuedMessage.prompt := "what is this?";
       QueuedMessage.fileData := Some "data:image/jpeg;base64,@@";
       QueuedMessage.fileName := Some "leaf.jpg";
       QueuedMessage.fileMimeType := Some "image/jpeg";
       QueuedMessage.lang := "en" |} in
  let w :=
    Scenario.after
      (saveChatHistory [Scenario.user_message "a" "what is this?" ChatMessage.pending;
                        Scenario.user_message "b" "hello" ChatMessage.pending];;
       setCachedData CHAT_OUTBOX_KEY
         (QueuedMessage.list_to_json [broken; Scenario.text_only "b" "hello" "en"]))
      Scenario.fresh in
  fst <$> getMessageQueue w = Some ([] ++ broken :: [Scenario.text_only "b" "hello" "en"])
  /\ file_of Scenario.no_atob broken = None
  /\ exists w',
       syncOfflineMessages Scenario.no_atob Scenario.answers_hello true false w
       = Some (false, w')
       /\ sends (trace w')
          = sends (trace w) ++ calls Scenario.no_atob []
            ++ calls Scenario.no_atob [Scenario.text_only "b" "hello" "en"]
       /\ fst <$> getChatHistory w'
          = Some [Scenario.user_message "a" "what is this?" ChatMessage.failed;
                  Scenario.user_message "b" "hello" ChatMessage.sent;
                  Scenario.model_reply "b-model" "Hello!"]
       /\ fst <$> getMessageQueue w' = Some [].
Proof.
  intros broken w.
  assert (fst <$> getMessageQueue w
          = Some ([] ++ broken :: [Scenario.text_only "b" "hello" "en"])) as Hq
    by (vm_compute; reflexivity).
  assert (fst <$> getChatHistory w
          = Some ([] ++ Scenario.user_message "a" "what is this?" ChatMessage.pending
                     :: [Scenario.user_message "b" "hello" ChatMessage.pending]))
    as Hh by (vm_compute; reflexivity).
  assert (accepts w (CACHE_PREFIX +:+ CHAT_HISTORY_KEY)) as Hacc
    by (intros v; reflexivity).
  assert (Forall (fun q' => QueuedMessage.id q' <> QueuedMessage.id broken)
            [Scenario.text_only "b" "hello" "en"]) as Hlater
    by (constructor; [discriminate | constructor]).
  split; [exact Hq |]. split; [reflexivity |].
  destruct (undecodable_attachment_fails_message Scenario.no_atob Scenario.answers_hello
              [] [Scenario.text_only "b" "hello" "en"] broken
              [] [Scenario.user_message "b" "hello" ChatMessage.pending]
              (Scenario.user_message "a" "what is this?" ChatMessage.pending)
              w Hq Hh Hacc eq_refl eq_refl (List.Forall_nil _) Hlater)
    as (w' & before' & after' & answered & replies & Hsync & Hsends & _ & _ & _ & _ & _
        & Hempty).
  exists w'. split; [exact Hsync |]. split; [exact Hsends |]. split; [| exact Hempty].
  assert (fst <$> (syncOfflineMessages Scenario.no_atob Scenario.answers_hello true false
                     ≫= fun _ => getChatHistory) w
          = Some [Scenario.user_message "a" "what is this?" ChatMessage.failed;
                  Scenario.user_message "b" "hello" ChatMessage.sent;
                  Scenario.model_reply "b-model" "Hello!"]) as Hrun
    by (vm_compute; reflexivity).
  rewrite bind_run, Hsync in Hrun. exact Hrun.
Defined.

(** Nothing to do.  While offline a call of the pass returns at once,
    leaving the world as it is, whatever the flag.  Online, over an outbox
    that reads empty, the pass reads the outbox and does nothing else: the
    store is as it was, nothing is written, no event is dispatched, the
    backend is not called, and the flag is down again. *)
Theorem nothing_to_sync
    (atob : string -> option string)
    (sendChatMessage : string -> option File -> LanguageCode -> Stream) (w : World) :
  (forall isSyncing,
     syncOfflineMessages atob sendChatMessage false isSyncing w = Some (isSyncing, w))
  /\ (fst <$> getMessageQueue w = Some [] ->
      exists w',
        syncOfflineMessages atob sendChatMessage true false w = Some (false, w')
        /\ localStorage w' = localStorage w
        /\ writes (trace w') = writes (trace w)
        /\ sends (trace w') = sends (trace w)
        /\ forall key, DispatchStorageEvent key ∈ trace w' ->
                       DispatchStorageEvent key ∈ trace w).
Proof.
  split.
  - intros isSyncing. unfold syncOfflineMessages. cbn [negb]. rewrite orb_true_r.
    reflexivity.
  - intros Hq. destruct (empty_pass atob sendChatMessage w Hq) as (w' & Hsync & Hquiet).
    destruct (quiet_trace w w' Hquiet) as (Hls & Hwrites & Hsends & Honly).
    exists w'. split; [exact Hsync |]. split; [exact Hls |]. split; [exact Hwrites |].
    split; [exact Hsends |]. intros key Hin.
    destruct (Honly _ Hin) as [Hold | Hq']; [exact Hold | discriminate Hq'].
Qed.

Lemma nothing_to_sync_witness :
  fst <$> getMessageQueue Scenario.fresh = Some []
  /\ exists w',
       syncOfflineMessages Scenario.no_atob Scenario.answers_hello true false
         Scenario.fresh = Some (false, w')
       /\ localStorage w' = localStorage Scenario.fresh
       /\ writes (trace w') = writes (trace Scenario.fresh).
Proof.
  split; [reflexivity |].
  destruct (nothing_to_sync Scenario.no_atob Scenario.answers_hello Scenario.fresh)
    as (_ & Hempty).
  destruct (Hempty eq_refl) as (w' & Hsync & Hls & Hwrites & _).
  exists w'. split; [exact Hsync |]. split; [exact Hls | exact Hwrites].
Defined.

(** The pass removes no message of the transcript and moves none: the
    transcript it stores begins with the messages that were there, in
    their order, each as it was but for its status, and ends with replies
    of the model, at most one for a queued message, in the order of the
    outbox, the id of a reply being the id of its message followed by
    "-model". *)
Theorem pass_keeps_transcript
    (atob : string -> option string)
    (sendChatMessage : string -> option File -> LanguageCode -> Stream)
    (queue : list QueuedMessage.t) (history : list ChatMessage.t) (w : World) :
  fst <$> getMessageQueue w = Some queue ->
  fst <$> getChatHistory w = Some history ->
  accepts w (CACHE_PREFIX +:+ CHAT_HISTORY_KEY) ->
  exists w' kept replies answered,
    syncOfflineMessages atob sendChatMessage true false w = Some (false, w')
    /\ fst <$> getChatHistory w' = Some (kept ++ replies)
    /\ Forall2 same_but_status history kept
    /\ sublist answered queue
    /\ Forall2 reply_to answered replies.
Proof.
  intros Hq Hh Hacc. destruct queue as [|q queue].
  - destruct (empty_pass atob sendChatMessage w Hq) as (w' & Hsync & Hquiet).
    exists w', history, [], []. split; [exact Hsync |]. rewrite app_nil_r.
    split; [| split; [apply Forall2_same_refl | split; constructor]].
    rewrite <- Hh. apply (read_item ChatMessage.list_of_json).
    now rewrite (quiet_store _ _ Hquiet).
  - destruct (pass_outcome atob sendChatMessage (q :: queue) history w Hq Hh)
      as (w' & Hsync & Hfinal & _); [discriminate | exact Hacc |].
    destruct (after_turns_shape atob sendChatMessage (q :: queue) history)
      as (kept & replies & answered & Hshape & Hkept & Hsub & Hrep).
    exists w', kept, replies, answered. rewrite <- Hshape. auto.
Qed.

Lemma pass_keeps_transcript_witness :
  fst <$> getMessageQueue Scenario.offline
  = Some [Scenario.text_only "a" "hello" "en"; Scenario.text_only "b" "status?" "en"]
  /\ fst <$> getChatHistory Scenario.offline
     = Some [Scenario.user_message "a" "hello" ChatMessage.pending;
             Scenario.user_message "b" "status?" ChatMessage.pending]
  /\ accepts Scenario.offline (CACHE_PREFIX +:+ CHAT_HISTORY_KEY)
  /\ exists w' kept replies answered,
       syncOfflineMessages Scenario.no_atob Scenario.answers_hello true false
         Scenario.offline = Some (false, w')
       /\ fst <$> getChatHistory w' = Some (kept ++ replies)
       /\ Forall2 same_but_status
            [Scenario.user_message "a" "hello" ChatMessage.pending;
             Scenario.user_message "b" "status?" ChatMessage.pending] kept
       /\ sublist answered
            [Scenario.text_only "a" "hello" "en"; Scenario.text_only "b" "status?" "en"]
       /\ Forall2 reply_to answered replies.
Proof.
  assert (fst <$> getMessageQueue Scenario.offline
          = Some [Scenario.text_only "a" "hello" "en";
                  Scenario.text_only "b" "status?" "en"]) as Hq
    by (vm_compute; reflexivity).
  assert (fst <$> getChatHistory Scenario.offline
          = Some [Scenario.user_message "a" "hello" ChatMessage.pending;
                  Scenario.user_message "b" "status?" ChatMessage.pending]) as Hh
    by (vm_compute; reflexivity).
  assert (accepts Scenario.offline (CACHE_PREFIX +:+ CHAT_HISTORY_KEY)) as Hacc
    by (intros v; reflexivity).
  split; [exact Hq |]. split; [exact Hh |]. split; [exact Hacc |].
  apply (pass_keeps_transcript Scenario.no_atob Scenario.answers_hello _ _ _ Hq Hh Hacc).
Defined.

(** A queued message that has no message of its id in the transcript: the
    pass sets no status at all.  What its stream yields is appended as a
    reply all the same; when the stream yields nothing, the transcript is
    stored as it was, and the outbox is cleared. *)
Theorem unmatched_message_sets_no_status
    (atob : string -> option string)
    (sendChatMessage : string -> option File -> LanguageCode -> Stream)
    (q : QueuedMessage.t) (file : option File) (history : list ChatMessage.t)
    (w : World) :
  fst <$> getMessageQueue w = Some [q] ->
  fst <$> getChatHistory w = Some history ->
  accepts w (CACHE_PREFIX +:+ CHAT_HISTORY_KEY) ->
  Forall (fun m => ChatMessage.id m <> QueuedMessage.id q) history ->
  file_of atob q = Some file ->
  exists w',
    syncOfflineMessages atob sendChatMessage true false w = Some (false, w')
    /\ fst <$> getChatHistory w'
       = Some (history
               ++ match chunks (sendChatMessage (QueuedMessage.prompt q) file
                                  (QueuedMessage.lang q)) with
                  | [] => []
                  | received =>
                      [ChatMessage.set_text (accumulate received) (model_message q)]
                  end)
    /\ fst <$> getMessageQueue w' = Some [].
Proof.
  intros Hq Hh Hacc Hnone Hfile.
  destruct (pass_outcome atob sendChatMessage [q] history w Hq Hh)
    as (w' & Hsync & Hfinal & Hempty); [discriminate | exact Hacc |].
  exists w'. split; [exact Hsync |]. split; [| exact Hempty].
  rewrite Hfinal. f_equal. unfold after_turns. cbn [fold_left]. unfold after_turn.
  rewrite Hfile. unfold userMessageIndex_of. rewrite findIndex_none.
  - unfold settle. cbn. unfold with_reply.
    destruct (chunks _); [now rewrite app_nil_r | reflexivity].
  - eapply Forall_impl; [exact Hnone |]. intros m Hm. now apply String.eqb_neq.
Qed.

Lemma unmatched_message_sets_no_status_witness :
  let w := Scenario.after (saveChatHistory []) Scenario.one_offline in
  fst <$> getMessageQueue w = Some [Scenario.text_only "a" "hello" "en"]
  /\ fst <$> getChatHistory w = Some []
  /\ exists w',
       syncOfflineMessages Scenario.no_atob Scenario.answers_hello true false w
       = Some (false, w')
       /\ fst <$> getChatHistory w' = Some [Scenario.model_reply "a-model" "Hello!"]
       /\ fst <$> getMessageQueue w' = Some [].
Proof.
  intros w.
  assert (fst <$> getMessageQueue w = Some [Scenario.text_only "a" "hello" "en"]) as Hq
    by (vm_compute; reflexivity).
  assert (fst <$> getChatHistory w = Some []) as Hh by (vm_compute; reflexivity).
  assert (accepts w (CACHE_PREFIX +:+ CHAT_HISTORY_KEY)) as Hacc
    by (intros v; reflexivity).
  split; [exact Hq |]. split; [exact Hh |].
  apply (unmatched_message_sets_no_status Scenario.no_atob Scenario.answers_hello
           (Scenario.text_only "a" "hello" "en") None [] w Hq Hh Hacc
           (List.Forall_nil _) eq_refl).
Defined.

End DrainProps.

(* ===================================================================== *)
(** * More of [sendMessage] of [components/features/AIChat.tsx] *)
(* ===================================================================== *)

Module ChatProps.
Import JSON Platform Observing Runs offlineService App.
Import JSONFacts ViewFacts ServiceFacts DrainFacts MachineFacts QueueFacts TranscriptFacts.
Import ChatFacts StoreFacts PassFacts SendFacts.

(** A message sent while offline is shown and stored as the last message of
    the transcript, with status pending, and the outbox gets one more
    entry, at its end, with the id, the prompt and the language of that
    message; the backend is not called. *)
Theorem offline_send_is_queued
    (trim : string -> string) (createObjectURL : File -> string)
    (fileToBase64 : File -> option string)
    (sendChatMessage : string -> option File -> LanguageCode -> Stream)
    (messageId : string) (lang : LanguageCode) (prompt : string) (file : option File)
    (s : AIChat.State) (outbox : list QueuedMessage.t) (w : World) :
  accepts w (CACHE_PREFIX +:+ CHAT_HISTORY_KEY) ->
  accepts w (CACHE_PREFIX +:+ CHAT_OUTBOX_KEY) ->
  fst <$> getMessageQueue w = Some outbox ->
  AIChat.blank trim prompt && negb (bool_decide (is_Some file)) = false ->
  exists s' w' u q,
    AIChat.sendMessage trim createObjectURL fileToBase64 sendChatMessage
      messageId false lang prompt file s w = Some (s', w')
    /\ AIChat.messages s' = AIChat.messages s ++ [u]
    /\ fst <$> getChatHistory w' = Some (AIChat.messages s ++ [u])
    /\ fst <$> getMessageQueue w' = Some (outbox ++ [q])
    /\ ChatMessage.status u = Some ChatMessage.pending
    /\ ChatMessage.role u = ChatMessage.user
    /\ ChatMessage.text u = prompt
    /\ ChatMessage.id u = messageId
    /\ QueuedMessage.id q = messageId
    /\ QueuedMessage.prompt q = prompt
    /\ QueuedMessage.lang q = lang
    /\ sends (trace w') = sends (trace w).
Proof.
  intros Hacc Hacc' Hq Hsendable.
  destruct (sendMessage_offline_run trim createObjectURL fileToBase64 sendChatMessage
              messageId lang prompt file s outbox w Hacc Hacc' Hq Hsendable)
    as (s' & w' & Hrun & Hs' & _ & Hholds & Hqueue & _ & Hsends).
  exists s', w', (AIChat.userMessage createObjectURL messageId prompt file false),
    (queued fileToBase64 prompt file messageId lang).
  split; [exact Hrun |]. split; [exact Hs' |].
  split; [rewrite <- Hs'; now apply reads_history |].
  split; [exact Hqueue |]. repeat (split; [reflexivity |]). exact Hsends.
Qed.

Lemma offline_send_is_queued_witness :
  accepts Scenario.one_offline (CACHE_PREFIX +:+ CHAT_HISTORY_KEY)
  /\ accepts Scenario.one_offline (CACHE_PREFIX +:+ CHAT_OUTBOX_KEY)
  /\ fst <$> getMessageQueue Scenario.one_offline
     = Some [Scenario.text_only "a" "hello" "en"]
  /\ exists s' w',
       AIChat.sendMessage Scenario.trim_ascii Scenario.object_url Scenario.no_conversion
         Scenario.answers_hello "b" false "en" "status?" None
         Scenario.chat_opened Scenario.one_offline = Some (s', w')
       /\ AIChat.messages s'
          = [Scenario.user_message "a" "hello" ChatMessage.pending;
             Scenario.user_message "b" "status?" ChatMessage.pending]
       /\ fst <$> getMessageQueue w'
          = Some [Scenario.text_only "a" "hello" "en";
                  Scenario.text_only "b" "status?" "en"].
Proof.
  assert (accepts Scenario.one_offline (CACHE_PREFIX +:+ CHAT_HISTORY_KEY)) as Hacc
    by (intros v; reflexivity).
  assert (accepts Scenario.one_offline (CACHE_PREFIX +:+ CHAT_OUTBOX_KEY)) as Hacc'
    by (intros v; reflexivity).
  assert (fst <$> getMessageQueue Scenario.one_offline
          = Some [Scenario.text_only "a" "hello" "en"]) as Hq
    by (vm_compute; reflexivity).
  split; [exact Hacc |]. split; [exact Hacc' |]. split; [exact Hq |].
  destruct (offline_send_is_queued Scenario.trim_ascii Scenario.object_url
              Scenario.no_conversion Scenario.answers_hello "b" "en" "status?" None
              Scenario.chat_opened _ Scenario.one_offline Hacc Hacc' Hq eq_refl)
    as (s' & w' & u & q & Hrun & Hs' & _ & Hqueue & _).
  exists s', w'. split; [exact Hrun |].
  vm_compute in Hrun. injection Hrun as <- <-.
  split; [reflexivity | vm_compute; reflexivity].
Defined.

(** For a text message with a fresh id, sending it while offline and then
    running the pass ends, in the store, with the transcript that sending
    it while online ends with: the messages there were, the message with
    status sent, and the reply put together from the chunks.  The outbox
    is empty afterwards. *)
Theorem offline_send_then_pass_matches_online
    (trim : string -> string) (createObjectURL : File -> string)
    (fileToBase64 : File -> option string) (atob : string -> option string)
    (sendChatMessage : string -> option File -> LanguageCode -> Stream)
    (messageId : string) (lang : LanguageCode) (prompt first : string)
    (more : list string) (s : AIChat.State) (w : World) :
  accepts w (CACHE_PREFIX +:+ CHAT_HISTORY_KEY) ->
  accepts w (CACHE_PREFIX +:+ CHAT_OUTBOX_KEY) ->
  fst <$> getMessageQueue w = Some [] ->
  AIChat.blank trim prompt = false ->
  Forall (fun m => ChatMessage.id m <> messageId) (AIChat.messages s) ->
  sendChatMessage prompt None lang = {| chunks := first :: more; ending := Completed |} ->
  exists final s1 w1 w2 s3 w3,
    AIChat.sendMessage trim createObjectURL fileToBase64 sendChatMessage
      messageId false lang prompt None s w = Some (s1, w1)
    /\ syncOfflineMessages atob sendChatMessage true false w1 = Some (false, w2)
    /\ fst <$> getChatHistory w2 = Some final
    /\ fst <$> getMessageQueue w2 = Some []
    /\ AIChat.sendMessage trim createObjectURL fileToBase64 sendChatMessage
         messageId true lang prompt None s w = Some (s3, w3)
    /\ fst <$> getChatHistory w3 = Some final
    /\ AIChat.messages s3 = final
    /\ final = AIChat.messages s
               ++ [AIChat.userMessage createObjectURL messageId prompt None true;
                   ChatMessage.set_text (accumulate (first :: more))
                     (AIChat.aiMessage messageId)].
Proof.
  intros Hacc Hacc' Hq Hblank Hfresh Hstream.
  assert (AIChat.blank trim prompt && negb (bool_decide (is_Some (@None File))) = false)
    as Hsendable by now rewrite Hblank.
  destruct (sendMessage_offline_run trim createObjectURL fileToBase64 sendChatMessage
              messageId lang prompt None s [] w Hacc Hacc' Hq Hsendable)
    as (s1 & w1 & Hrun1 & Hs1 & _ & Hholds1 & Hqueue1 & Hquota1 & _).
  cbn [app] in Hqueue1.
  destruct (pass_outcome atob sendChatMessage _ _ w1 Hqueue1 (reads_history _ _ Hholds1))
    as (w2 & Hsync & Hfinal & Hempty); [discriminate | |].
  { intros v. rewrite Hquota1. apply Hacc. }
  destruct (sendMessage_online_run trim createObjectURL fileToBase64 sendChatMessage
              messageId lang prompt None s w prompt Hacc Hsendable)
    as (s3 & w3 & Hrun3 & Hs3 & _ & _ & Hholds3 & _).
  { now rewrite andb_false_l. }
  rewrite Hstream in Hs3. cbn [chunks reply_of] in Hs3.
  eexists _, s1, w1, w2, s3, w3.
  split; [exact Hrun1 |]. split; [exact Hsync |]. split; [exact Hfinal |].
  split; [exact Hempty |]. split; [exact Hrun3 |].
  assert (after_turns atob sendChatMessage [queued fileToBase64 prompt None messageId lang]
            (AIChat.messages s1)
          = AIChat.messages s
            ++ [AIChat.userMessage createObjectURL messageId prompt None true;
                ChatMessage.set_text (accumulate (first :: more))
                  (AIChat.aiMessage messageId)]) as Hsame.
  { unfold after_turns. cbn [fold_left]. unfold after_turn.
    cbn [file_of queued QueuedMessage.fileData QueuedMessage.prompt QueuedMessage.lang
         mbind option_bind]. rewrite Hstream. cbn [chunks ending with_reply].
    unfold userMessageIndex_of. cbn [queued QueuedMessage.id]. rewrite Hs1.
    rewrite <- app_assoc. cbn [app]. rewrite findIndex_first.
    - rewrite settle_at. reflexivity.
    - eapply Forall_impl; [exact Hfresh |]. intros m Hm. now apply String.eqb_neq.
    - apply String.eqb_refl. }
  rewrite Hsame. split; [rewrite <- Hs3; now apply reads_history |].
  split; [exact Hs3 | reflexivity].
Qed.

Lemma offline_send_then_pass_matches_online_witness :
  accepts Scenario.fresh (CACHE_PREFIX +:+ CHAT_HISTORY_KEY)
  /\ accepts Scenario.fresh (CACHE_PREFIX +:+ CHAT_OUTBOX_KEY)
  /\ fst <$> getMessageQueue Scenario.fresh = Some []
  /\ exists final s1 w1 w2 s3 w3,
       AIChat.sendMessage Scenario.trim_ascii Scenario.object_url Scenario.no_conversion
         Scenario.answers_hello "c" false "en" "hello" None
         Scenario.chat_opened Scenario.fresh = Some (s1, w1)
       /\ syncOfflineMessages Scenario.no_atob Scenario.answers_hello true false w1
          = Some (false, w2)
       /\ fst <$> getChatHistory w2 = Some final
       /\ fst <$> getMessageQueue w2 = Some []
       /\ AIChat.sendMessage Scenario.trim_ascii Scenario.object_url
            Scenario.no_conversion Scenario.answers_hello "c" true "en" "hello" None
            Scenario.chat_opened Scenario.fresh = Some (s3, w3)
       /\ fst <$> getChatHistory w3 = Some final
       /\ AIChat.messages s3 = final
       /\ final = [Scenario.user_message "a" "hello" ChatMessage.pending;
                   Scenario.user_message "c" "hello" ChatMessage.sent;
                   Scenario.model_reply "c-model" "Hello!"].
Proof.
  assert (accepts Scenario.fresh (CACHE_PREFIX +:+ CHAT_HISTORY_KEY)) as Hacc
    by (intros v; reflexivity).
  assert (accepts Scenario.fresh (CACHE_PREFIX +:+ CHAT_OUTBOX_KEY)) as Hacc'
    by (intros v; reflexivity).
  split; [exact Hacc |]. split; [exact Hacc' |]. split; [reflexivity |].
  apply (offline_send_then_pass_matches_online Scenario.trim_ascii Scenario.object_url
           Scenario.no_conversion Scenario.no_atob Scenario.answers_hello
           "c" "en" "hello" "Hel" ["lo!"] Scenario.chat_opened Scenario.fresh
           Hacc Hacc' eq_refl eq_refl).
  - repeat constructor. discriminate.
  - reflexivity.
Defined.

(** A message sent while online whose stream fails: the error is shown,
    the message is in the transcript with status sent all the same, what
    the stream yielded before it failed stays as the reply, and the
    transcript is stored so. *)
Theorem failed_online_send_keeps_message
    (trim : string -> string) (createObjectURL : File -> string)
    (fileToBase64 : File -> option string)
    (sendChatMessage : string -> option File -> LanguageCode -> Stream)
    (messageId : string) (lang : LanguageCode) (prompt message : string)
    (received : list string) (s : AIChat.State) (w : World) :
  accepts w (CACHE_PREFIX +:+ CHAT_HISTORY_KEY) ->
  AIChat.blank trim prompt = false ->
  sendChatMessage prompt None lang = {| chunks := received; ending := Threw message |} ->
  exists s' w' u,
    AIChat.sendMessage trim createObjectURL fileToBase64 sendChatMessage
      messageId true lang prompt None s w = Some (s', w')
    /\ AIChat.error s' = Some message
    /\ AIChat.loading s' = false
    /\ AIChat.messages s' = AIChat.messages s ++ u :: reply_of messageId received
    /\ ChatMessage.id u = messageId
    /\ ChatMessage.text u = prompt
    /\ ChatMessage.status u = Some ChatMessage.sent
    /\ fst <$> getChatHistory w' = Some (AIChat.messages s')
    /\ sends (trace w') = sends (trace w) ++ [SendChatMessage prompt None lang].
Proof.
  intros Hacc Hblank Hstream.
  destruct (sendMessage_online_run trim createObjectURL fileToBase64 sendChatMessage
              messageId lang prompt None s w prompt Hacc)
    as (s' & w' & Hrun & Hs' & Herr & Hload & Hholds & Hsends).
  { now rewrite Hblank. }
  { now rewrite andb_false_l. }
  rewrite Hstream in Hs', Herr. cbn [chunks ending] in Hs', Herr.
  exists s', w', (AIChat.userMessage createObjectURL messageId prompt None true).
  split; [exact Hrun |]. split; [exact Herr |]. split; [exact Hload |].
  split; [exact Hs' |]. repeat (split; [reflexivity |]).
  split; [now apply reads_history | exact Hsends].
Qed.

Lemma failed_online_send_keeps_message_witness :
  accepts Scenario.one_offline (CACHE_PREFIX +:+ CHAT_HISTORY_KEY)
  /\ AIChat.blank Scenario.trim_ascii "status?" = false
  /\ Scenario.answers_hello "status?" None "en"
     = {| chunks := []; ending := Threw "Failed to fetch" |}
  /\ exists s' w',
       AIChat.sendMessage Scenario.trim_ascii Scenario.object_url Scenario.no_conversion
         Scenario.answers_hello "b" true "en" "status?" None
         Scenario.chat_opened Scenario.one_offline = Some (s', w')
       /\ AIChat.error s' = Some "Failed to fetch"
       /\ AIChat.messages s'
          = [Scenario.user_message "a" "hello" ChatMessage.pending;
             Scenario.user_message "b" "status?" ChatMessage.sent].
Proof.
  assert (accepts Scenario.one_offline (CACHE_PREFIX +:+ CHAT_HISTORY_KEY)) as Hacc
    by (intros v; reflexivity).
  split; [exact Hacc |]. split; [reflexivity |]. split; [reflexivity |].
  destruct (failed_online_send_keeps_message Scenario.trim_ascii Scenario.object_url
              Scenario.no_conversion Scenario.answers_hello "b" "en" "status?"
              "Failed to fetch" [] Scenario.chat_opened Scenario.one_offline
              Hacc eq_refl eq_refl)
    as (s' & w' & u & Hrun & Herr & _ & Hs' & _).
  exists s', w'. split; [exact Hrun |]. split; [exact Herr |].
  vm_compute in Hrun. injection Hrun as <- <-. reflexivity.
Defined.

(** What is sent for a prompt that is blank.  With no file, [sendMessage]
    does nothing at all.  With a file and online, the backend gets a fixed
    request to analyse the file, while the message of the transcript keeps
    the text as typed.  With a file and offline, the outbox keeps the
    prompt as typed, so that is what the pass will send. *)
Theorem blank_prompt_rules
    (trim : string -> string) (createObjectURL : File -> string)
    (fileToBase64 : File -> option string)
    (sendChatMessage : string -> option File -> LanguageCode -> Stream)
    (messageId : string) (lang : LanguageCode) (prompt : string) (f : File)
    (s : AIChat.State) (outbox : list QueuedMessage.t) (w : World) :
  AIChat.blank trim prompt = true ->
  accepts w (CACHE_PREFIX +:+ CHAT_HISTORY_KEY) ->
  accepts w (CACHE_PREFIX +:+ CHAT_OUTBOX_KEY) ->
  fst <$> getMessageQueue w = Some outbox ->
  (forall isOnline,
     AIChat.sendMessage trim createObjectURL fileToBase64 sendChatMessage
       messageId isOnline lang prompt None s w = Some (s, w))
  /\ (exists s' w' u replies,
        AIChat.sendMessage trim createObjectURL fileToBase64 sendChatMessage
          messageId true lang prompt (Some f) s w = Some (s', w')
        /\ sends (trace w')
           = sends (trace w)
             ++ [SendChatMessage
                   "Please analyze the attached file and provide a helpful response."
                   (Some f) lang]
        /\ AIChat.messages s' = AIChat.messages s ++ u :: replies
        /\ ChatMessage.id u = messageId
        /\ ChatMessage.text u = prompt)
  /\ (exists s' w' q,
        AIChat.sendMessage trim createObjectURL fileToBase64 sendChatMessage
          messageId false lang prompt (Some f) s w = Some (s', w')
        /\ fst <$> getMessageQueue w' = Some (outbox ++ [q])
        /\ QueuedMessage.id q = messageId
        /\ QueuedMessage.prompt q = prompt).
Proof.
  intros Hblank Hacc Hacc' Hq. split; [| split].
  - intros isOnline. unfold AIChat.sendMessage. rewrite Hblank. reflexivity.
  - destruct (sendMessage_online_run trim createObjectURL fileToBase64 sendChatMessage
                messageId lang prompt (Some f) s w
                "Please analyze the attached file and provide a helpful response." Hacc)
      as (s' & w' & Hrun & Hs' & _ & _ & _ & Hsends).
    { now rewrite andb_comm. }
    { now rewrite Hblank. }
    eexists s', w', _, _. split; [exact Hrun |]. split; [exact Hsends |].
    split; [exact Hs' |]. split; reflexivity.
  - destruct (sendMessage_offline_run trim createObjectURL fileToBase64 sendChatMessage
                messageId lang prompt (Some f) s outbox w Hacc Hacc' Hq)
      as (s' & w' & Hrun & _ & _ & _ & Hqueue & _).
    { now rewrite andb_comm. }
    eexists s', w', _. split; [exact Hrun |]. split; [exact Hqueue |].
    split; reflexivity.
Qed.

Lemma blank_prompt_rules_witness :
  AIChat.blank Scenario.trim_ascii "  " = true
  /\ accepts Scenario.fresh (CACHE_PREFIX +:+ CHAT_HISTORY_KEY)
  /\ accepts Scenario.fresh (CACHE_PREFIX +:+ CHAT_OUTBOX_KEY)
  /\ fst <$> getMessageQueue Scenario.fresh = Some []
  /\ (forall isOnline,
        AIChat.sendMessage Scenario.trim_ascii Scenario.object_url Scenario.no_conversion
          Scenario.answers_hello "d" isOnline "en" "  " None
          Scenario.chat_opened Scenario.fresh
        = Some (Scenario.chat_opened, Scenario.fresh)).
Proof.
  assert (accepts Scenario.fresh (CACHE_PREFIX +:+ CHAT_HISTORY_KEY)) as Hacc
    by (intros v; reflexivity).
  assert (accepts Scenario.fresh (CACHE_PREFIX +:+ CHAT_OUTBOX_KEY)) as Hacc'
    by (intros v; reflexivity).
  split; [reflexivity |]. split; [exact Hacc |]. split; [exact Hacc' |].
  split; [reflexivity |].
  exact (proj1 (blank_prompt_rules Scenario.trim_ascii Scenario.object_url
                  Scenario.no_conversion Scenario.answers_hello "d" "en" "  "
                  Scenario.photo Scenario.chat_opened [] Scenario.fresh
                  eq_refl Hacc Hacc' eq_refl)).
Defined.

End ChatProps.

(* ===================================================================== *)
(** * The profile, the language and the profile form *)
(* ===================================================================== *)

Module ProfileProps.
Import JSON Platform Observing Runs offlineService userProfileService Preferences App.
Import JSONFacts ViewFacts ServiceFacts DrainFacts ProfileFacts StoreFacts MergeFacts.
Import LanguageFacts.

(** [saveUserProfile] stores every field it is given as it is given: a
    field that holds a value has this value in the profile stored
    afterwards, whatever was stored before, and a field that holds
    [undefined] is not in the profile stored afterwards, even when it was
    stored before. *)
Theorem saved_profile_sets_given_fields
    (profile : UserProfile) (stored : json) (w : World) :
  fst <$> getUserProfile w = Some stored ->
  stored = JNull \/ (exists ms, stored = JObject ms) ->
  forallb (fun kv => storable kv.2) profile = true ->
  NoDup (Props.keys profile) ->
  accepts w PROFILE_KEY ->
  exists w' stored',
    saveUserProfile profile w = Some (tt, w')
    /\ fst <$> getUserProfile w' = Some stored'
    /\ forall k v, (k, v) ∈ profile -> field k stored' = v.
Proof.
  intros Hstored Hshape Hprofile Hnd Hacc.
  destruct (saved_fields profile stored w Hstored Hshape Hprofile Hnd Hacc)
    as (w' & ms' & Hrun & Hread & _ & _ & Hgiven & _).
  exists w', (JObject ms'). auto.
Qed.

Lemma saved_profile_sets_given_fields_witness :
  let w := Scenario.after
             (saveUserProfile [("name", Some (JString "Asha"));
                               ("preferredUnit", Some (JString "kg"))])
             Scenario.fresh in
  let stored := JObject [("name", JString "Asha"); ("preferredUnit", JString "kg")] in
  let profile := [("name", None); ("language", Some (JString "hi"))] in
  fst <$> getUserProfile w = Some stored
  /\ NoDup (Props.keys profile)
  /\ accepts w PROFILE_KEY
  /\ exists w' stored',
       saveUserProfile profile w = Some (tt, w')
       /\ fst <$> getUserProfile w' = Some stored'
       /\ field "name" stored' = None
       /\ field "language" stored' = Some (JString "hi").
Proof.
  intros w stored profile.
  assert (fst <$> getUserProfile w = Some stored) as H1 by (vm_compute; reflexivity).
  assert (NoDup (Props.keys profile)) as H2 by decided.
  assert (accepts w PROFILE_KEY) as H3 by (intros v; reflexivity).
  split; [exact H1 |]. split; [exact H2 |]. split; [exact H3 |].
  destruct (saved_profile_sets_given_fields profile stored w H1
              (or_intror (ex_intro _ _ eq_refl)) eq_refl H2 H3)
    as (w' & stored' & Hrun & Hread & Hgiven).
  exists w', stored'. split; [exact Hrun |]. split; [exact Hread |].
  split; apply Hgiven; repeat constructor.
Defined.

(** When no profile is stored, or what is stored is not JSON,
    [getUserProfile] gives [null], and [saveUserProfile] stores the fields
    it is given, those that hold a value, and nothing else. *)
Theorem lost_profile_is_replaced (profile : UserProfile) (w : World) :
  no_profile w ->
  forallb (fun kv => storable kv.2) profile = true ->
  NoDup (Props.keys profile) ->
  accepts w PROFILE_KEY ->
  fst <$> getUserProfile w = Some JNull
  /\ exists w',
       saveUserProfile profile w = Some (tt, w')
       /\ fst <$> getUserProfile w' = Some (JObject (defined profile)).
Proof. apply saved_over_nothing. Qed.

Lemma lost_profile_is_replaced_witness :
  let w := store PROFILE_KEY "{name:" Scenario.fresh in
  no_profile w
  /\ fst <$> getUserProfile w = Some JNull
  /\ exists w',
       saveUserProfile [("language", Some (JString "hi")); ("name", None)] w
       = Some (tt, w')
       /\ fst <$> getUserProfile w' = Some (JObject [("language", JString "hi")]).
Proof.
  intros w.
  assert (no_profile w) as H1.
  { right. exists "{name:". split; reflexivity. }
  split; [exact H1 |].
  apply (lost_profile_is_replaced [("language", Some (JString "hi")); ("name", None)]
           w H1 eq_refl).
  - decided.
  - intros v. reflexivity.
Defined.

(** The language in use is "en" or a code the lookup [languages[code]]
    accepts.  The lookups of the provider are plain ones, so that they
    accept the keys of the table and also a name the table inherits as an
    object, such as "constructor": [supported] stands for the lookup and
    not for the keys.  The provider mounts with "en" or a code the lookup
    accepts, taking the one of the stored profile before the one of the
    item "language", and reads the store without changing it; [setLang]
    changes the language only to a code the lookup accepts, and does
    nothing at all for another one. *)
Theorem language_in_use_is_supported
    (supported : string -> bool) (stored : json) (w : World) :
  fst <$> getUserProfile w = Some stored ->
  typed_language stored ->
  (exists l w',
     LanguageContext.initialLang supported w = Some (l, w')
     /\ (l = "en" \/ supported l = true)
     /\ localStorage w' = localStorage w
     /\ (forall c p, field "language" stored = Some (JString (String c p)) ->
                     supported (String c p) = true -> l = String c p))
  /\ (forall newLang lang,
        exists l w',
          LanguageContext.setLang supported newLang lang w = Some (l, w')
          /\ ((l = newLang /\ supported newLang = true)
              \/ (l = lang /\ w' = w /\ supported newLang = false))).
Proof.
  intros Hstored Htyped. split.
  - destruct (initialLang_run supported w stored Hstored Htyped) as (w' & Hrun & Hquiet).
    eexists _, w'. split; [exact Hrun |]. split; [| split].
    + destruct (from_profile supported (field "language" stored)) as [l|] eqn:E;
        cbn [default from_option].
      * right. unfold from_profile in E.
        destruct (field "language" stored) as [[| | |[|c p]| |]|]; try discriminate E.
        destruct (supported (String c p)) eqn:Hs; [| discriminate E].
        now injection E as <-.
      * unfold from_item. destruct (localStorage w !! "language") as [[|c p]|]; auto.
        destruct (supported (String c p)) eqn:Hs; auto.
    + now apply quiet_store.
    + intros c p Hfield Hsup. unfold from_profile. now rewrite Hfield, Hsup.
  - intros newLang lang. unfold LanguageContext.setLang.
    destruct (supported newLang) eqn:Hsup; [| exists lang, w; auto].
    destruct (saveUserProfile_total [("language", Some (JString newLang))] w)
      as (w1 & Hsave).
    rewrite bind_run, Hsave, bind_run.
    destruct (String.eqb newLang lang).
    + rewrite ret_run, ret_run. exists newLang, w1. auto.
    + destruct (persistLanguage_run newLang w1) as (w2 & -> & _).
      rewrite ret_run. exists newLang, w2. auto.
Qed.

Lemma language_in_use_is_supported_witness :
  let supported := fun code : string => String.eqb code "en" || String.eqb code "hi" in
  let w := store "language" "hi"
             (Scenario.after (saveUserProfile [("language", Some (JString "fr"))])
                Scenario.fresh) in
  fst <$> getUserProfile w = Some (JObject [("language", JString "fr")])
  /\ typed_language (JObject [("language", JString "fr")])
  /\ exists l w',
       LanguageContext.initialLang supported w = Some (l, w')
       /\ (l = "en" \/ supported l = true)
       /\ localStorage w' = localStorage w.
Proof.
  intros supported w.
  assert (fst <$> getUserProfile w = Some (JObject [("language", JString "fr")])) as H1
    by (vm_compute; reflexivity).
  split; [exact H1 |]. split; [exact I |].
  destruct (language_in_use_is_supported supported _ w H1 I)
    as ((l & w' & Hrun & Hl & Hls & _) & _).
  exists l, w'. auto.
Defined.

(** The choice of a language lasts: after [setLang] with a language of the
    table, a provider that mounts anew starts with this language, provided
    the store takes the profile. *)
Theorem language_choice_persists
    (supported : string -> bool) (c : ascii) (p : string) (lang : LanguageCode)
    (stored : json) (w : World) :
  supported (String c p) = true ->
  fst <$> getUserProfile w = Some stored ->
  stored = JNull \/ (exists ms, stored = JObject ms) ->
  accepts w PROFILE_KEY ->
  exists w',
    LanguageContext.setLang supported (String c p) lang w = Some (String c p, w')
    /\ fst <$> LanguageContext.mount supported w' = Some (String c p).
Proof.
  intros Hsup Hstored Hshape Hacc.
  destruct (setLang_run supported (String c p) lang stored w Hsup Hstored Hshape Hacc)
    as (w' & ms' & Hrun & Hread & Hlang & _ & _).
  exists w'. split; [exact Hrun |].
  destruct (initialLang_run supported w' (JObject ms') Hread) as (w2 & Hinit & _).
  { unfold typed_language. cbn [field]. now rewrite Hlang. }
  unfold LanguageContext.mount. rewrite bind_run, Hinit.
  cbn [field]. rewrite Hlang. cbn [from_profile]. rewrite Hsup.
  cbn [default from_option]. unfold id. rewrite bind_run.
  destruct (persistLanguage_run (String c p) w2) as (w3 & -> & _). reflexivity.
Qed.

Lemma language_choice_persists_witness :
  let supported := fun code : string => String.eqb code "en" || String.eqb code "hi" in
  supported "hi" = true
  /\ fst <$> getUserProfile Scenario.fresh = Some JNull
  /\ accepts Scenario.fresh PROFILE_KEY
  /\ exists w',
       LanguageContext.setLang supported "hi" "en" Scenario.fresh = Some ("hi", w')
       /\ fst <$> LanguageContext.mount supported w' = Some "hi".
Proof.
  intros supported.
  assert (accepts Scenario.fresh PROFILE_KEY) as Hacc by (intros v; reflexivity).
  split; [reflexivity |]. split; [reflexivity |]. split; [exact Hacc |].
  apply (language_choice_persists supported "h" "i" "en" JNull Scenario.fresh
           eq_refl eq_refl (or_introl eq_refl) Hacc).
Defined.

(** The form reads back what it saved: after [handleSubmit], the form that
    mounts shows the name, the location and the image that were saved, and
    the unit that was saved, or "quintal" when this was empty. *)
Theorem profile_form_reads_back
    (form start : Profile.Form) (stored : json) (w : World) :
  fst <$> getUserProfile w = Some stored ->
  stored = JNull \/ (exists ms, stored = JObject ms) ->
  accepts w PROFILE_KEY ->
  exists refreshed w',
    Profile.handleSubmit getUserProfile form w = Some (refreshed, w')
    /\ fst <$> getUserProfile w' = Some refreshed
    /\ fst <$> Profile.load start w' = Some (shown form).
Proof.
  intros Hstored Hshape Hacc.
  destruct (submit_run form stored w Hstored Hshape Hacc)
    as (w' & ms' & Hrun & Hread & Hname & Hloc & Hunit & Himage & _).
  exists (JObject ms'), w'. split; [exact Hrun |]. split; [exact Hread |].
  rewrite (load_run start ms' w' Hread).
  - rewrite Hname, Hloc, Hunit, Himage. unfold shown.
    destruct form as [[|? ?] [|? ?] [|? ?] [|? ?]]; reflexivity.
  - intros k Hk. right. cbn [field].
    repeat (apply elem_of_cons in Hk as [-> | Hk]; [eauto |]). inversion Hk.
Qed.

Lemma profile_form_reads_back_witness :
  let form := {| Profile.name := "Asha"; Profile.defaultLocation := "Pune";
                 Profile.preferredUnit := EmptyString;
                 Profile.profileImage := EmptyString |} in
  fst <$> getUserProfile Scenario.fresh = Some JNull
  /\ accepts Scenario.fresh PROFILE_KEY
  /\ exists refreshed w',
       Profile.handleSubmit getUserProfile form Scenario.fresh = Some (refreshed, w')
       /\ fst <$> getUserProfile w' = Some refreshed
       /\ fst <$> Profile.load Profile.initial w'
          = Some {| Profile.name := "Asha"; Profile.defaultLocation := "Pune";
                    Profile.preferredUnit := "quintal";
                    Profile.profileImage := EmptyString |}.
Proof.
  intros form.
  assert (accepts Scenario.fresh PROFILE_KEY) as Hacc by (intros v; reflexivity).
  split; [reflexivity |]. split; [exact Hacc |].
  apply (profile_form_reads_back form Profile.initial JNull Scenario.fresh
           eq_refl (or_introl eq_refl) Hacc).
Defined.

(** The form and the language share the stored profile without undoing
    each other.  A language chosen with [setLang] is the language a
    provider mounts with after the form was saved; and a form that was
    saved is what the form shows after a language was chosen. *)
Theorem form_and_language_keep_each_other
    (supported : string -> bool) (c : ascii) (p : string) (lang : LanguageCode)
    (form start : Profile.Form) (stored : json) (w : World) :
  supported (String c p) = true ->
  fst <$> getUserProfile w = Some stored ->
  stored = JNull \/ (exists ms, stored = JObject ms) ->
  accepts w PROFILE_KEY ->
  (exists w1 refreshed w2,
     LanguageContext.setLang supported (String c p) lang w = Some (String c p, w1)
     /\ Profile.handleSubmit getUserProfile form w1 = Some (refreshed, w2)
     /\ fst <$> LanguageContext.initialLang supported w2 = Some (String c p))
  /\ (exists refreshed w1 w2,
        Profile.handleSubmit getUserProfile form w = Some (refreshed, w1)
        /\ LanguageContext.setLang supported (String c p) lang w1
           = Some (String c p, w2)
        /\ fst <$> Profile.load start w2 = Some (shown form)).
Proof.
  intros Hsup Hstored Hshape Hacc. split.
  - destruct (setLang_run supported (String c p) lang stored w Hsup Hstored Hshape Hacc)
      as (w1 & ms1 & Hrun1 & Hread1 & Hlang1 & _ & Hacc1).
    destruct (submit_run form (JObject ms1) w1 Hread1 (or_intror (ex_intro _ _ eq_refl))
                Hacc1)
      as (w2 & ms2 & Hrun2 & Hread2 & _ & _ & _ & _ & Hothers & _).
    exists w1, (JObject ms2), w2. split; [exact Hrun1 |]. split; [exact Hrun2 |].
    assert (Props.get "language" ms2 = Some (JString (String c p))) as Hlang2.
    { rewrite Hothers; [exact Hlang1 |]. intros Hin.
      repeat (apply elem_of_cons in Hin as [Hin | Hin]; [discriminate Hin |]).
      inversion Hin. }
    destruct (initialLang_run supported w2 (JObject ms2) Hread2) as (w3 & -> & _).
    { unfold typed_language. cbn [field]. now rewrite Hlang2. }
    cbn [field]. rewrite Hlang2. cbn [from_profile]. now rewrite Hsup.
  - destruct (submit_run form stored w Hstored Hshape Hacc)
      as (w1 & ms1 & Hrun1 & Hread1 & Hname & Hloc & Hunit & Himage & _ & Hacc1).
    destruct (setLang_run supported (String c p) lang (JObject ms1) w1 Hsup Hread1
                (or_intror (ex_intro _ _ eq_refl)) Hacc1)
      as (w2 & ms2 & Hrun2 & Hread2 & _ & Hothers & _).
    exists (JObject ms1), w1, w2. split; [exact Hrun1 |]. split; [exact Hrun2 |].
    cbn [field] in Hothers.
    rewrite (load_run start ms2 w2 Hread2).
    + rewrite !Hothers by discriminate. rewrite Hname, Hloc, Hunit, Himage.
      unfold shown. destruct form as [[|? ?] [|? ?] [|? ?] [|? ?]]; reflexivity.
    + intros k Hk. right. cbn [field].
      repeat (apply elem_of_cons in Hk as [-> | Hk];
              [rewrite Hothers by discriminate; eauto |]).
      inversion Hk.
Qed.

Lemma form_and_language_keep_each_other_witness :
  let supported := fun code : string => String.eqb code "en" || String.eqb code "hi" in
  let form := {| Profile.name := "Asha"; Profile.defaultLocation := "Pune";
                 Profile.preferredUnit := "kg"; Profile.profileImage := EmptyString |} in
  supported "hi" = true
  /\ fst <$> getUserProfile Scenario.fresh = Some JNull
  /\ accepts Scenario.fresh PROFILE_KEY
  /\ exists w1 refreshed w2,
       LanguageContext.setLang supported "hi" "en" Scenario.fresh = Some ("hi", w1)
       /\ Profile.handleSubmit getUserProfile form w1 = Some (refreshed, w2)
       /\ fst <$> LanguageContext.initialLang supported w2 = Some "hi".
Proof.
  intros supported form.
  assert (accepts Scenario.fresh PROFILE_KEY) as Hacc by (intros v; reflexivity).
  split; [reflexivity |]. split; [reflexivity |]. split; [exact Hacc |].
  exact (proj1 (form_and_language_keep_each_other supported "h" "i" "en" form
                  Profile.initial JNull Scenario.fresh
                  eq_refl eq_refl (or_introl eq_refl) Hacc)).
Defined.

End ProfileProps.

(* ===================================================================== *)
(** * [services/geminiService.ts] and [services/locationService.ts] *)
(* ===================================================================== *)

Module ServiceProps.
Import JSON Platform App geminiService locationService.
Import OracleFacts.

(** What the stream of [sendChatMessage] delivers is never empty: every
    text it yields has a character, and when it fails the message of the
    error has one, whatever the file, the reader and the backend do. *)
Theorem stream_delivers_no_empty_text
    (languageName : LanguageCode -> option string)
    (readAsDataURL : File -> option string)
    (generateContentStream : list Part -> Awaited ResponseStream)
    (prompt : string) (file : option File) (lang : LanguageCode) :
  let stream :=
    sendChatMessage languageName readAsDataURL generateContentStream prompt file lang in
  Forall (fun text => text <> EmptyString) (chunks stream)
  /\ forall message, ending stream = Threw message -> message <> EmptyString.
Proof.
  cbv zeta. unfold sendChatMessage.
  pose proof (attempt_yielded languageName readAsDataURL generateContentStream
                prompt file lang) as Hyielded.
  destruct (attempt _ _ _ prompt file lang) as [yielded thrown].
  cbn [chunks ending fst] in *. split.
  - destruct Hyielded as [-> | (parts & stream & _ & ->)]; [constructor |].
    apply omap_truthy_nonempty.
  - intros message. destruct thrown as [e|]; [| discriminate].
    intros [= <-]. apply rethrown_nonempty.
Qed.

(** A reply that says nothing is an error, unless the backend finished in
    order: when the stream ends well without a text, the backend gave a
    response whose finish reason is STOP or MAX_TOKENS. *)
Theorem empty_reply_needs_a_stop
    (languageName : LanguageCode -> option string)
    (readAsDataURL : File -> option string)
    (generateContentStream : list Part -> Awaited ResponseStream)
    (prompt : string) (file : option File) (lang : LanguageCode) :
  sendChatMessage languageName readAsDataURL generateContentStream prompt file lang
  = {| chunks := []; ending := Completed |} ->
  exists parts stream r reason,
    generateContentStream parts = Resolved stream
    /\ response stream = Resolved (Some r)
    /\ finishReason r = Some reason
    /\ (reason = "STOP" \/ reason = "MAX_TOKENS").
Proof.
  unfold sendChatMessage, attempt.
  set (parts := match file with None => _ | Some f => _ end).
  destruct parts as [parts|e]; [| discriminate].
  destruct (generateContentStream parts) as [stream|e] eqn:E; [| discriminate].
  destruct (failure stream); [discriminate |].
  destruct (response stream) as [[r|]|] eqn:Er; [| | discriminate].
  - destruct (omap truthy_text (texts stream)) as [|first more] eqn:Ey.
    + destruct (finishReason r) as [reason|] eqn:Ef.
      * destruct (String.eqb reason "STOP") eqn:E1.
        { intros _. apply String.eqb_eq in E1. eauto 10. }
        destruct (String.eqb reason "MAX_TOKENS") eqn:E2.
        { intros _. apply String.eqb_eq in E2. eauto 10. }
        cbn. destruct (String.eqb reason "SAFETY"); discriminate.
      * discriminate.
    + rewrite andb_false_r. discriminate.
  - destruct (omap truthy_text (texts stream)); discriminate.
Qed.

Lemma empty_reply_needs_a_stop_witness :
  sendChatMessage Samples.no_language_names Samples.reads Samples.silent
    "hello" None "en"
  = {| chunks := []; ending := Completed |}
  /\ exists parts stream r reason,
       Samples.silent parts = Resolved stream
       /\ response stream = Resolved (Some r)
       /\ finishReason r = Some reason
       /\ (reason = "STOP" \/ reason = "MAX_TOKENS").
Proof.
  split; [reflexivity |].
  apply (empty_reply_needs_a_stop Samples.no_language_names Samples.reads Samples.silent
           "hello" None "en" eq_refl).
Defined.

(** A file the backend cannot take is refused before anything is asked of
    the reader or of the backend: for a file whose type is none of image,
    video and audio the stream yields nothing and fails with the message
    about the file type.  For a file of such a type that cannot be read,
    the stream yields nothing and fails with the message for an unknown
    error. *)
Theorem unusable_file_fails_the_stream
    (languageName : LanguageCode -> option string)
    (readAsDataURL : File -> option string)
    (generateContentStream : list Part -> Awaited ResponseStream)
    (prompt : string) (f : File) (lang : LanguageCode) :
  (String.prefix "image/" (type f) = false ->
   String.prefix "video/" (type f) = false ->
   String.prefix "audio/" (type f) = false ->
   forall reader backend,
     sendChatMessage languageName reader backend prompt (Some f) lang
     = {| chunks := [];
          ending := Threw "Unsupported file type. Please upload an image, video, or audio file." |})
  /\ (String.prefix "image/" (type f) || String.prefix "video/" (type f)
      || String.prefix "audio/" (type f) = true ->
      readAsDataURL f = None ->
      forall backend,
        sendChatMessage languageName readAsDataURL backend prompt (Some f) lang
        = {| chunks := [];
             ending := Threw "An unknown error occurred while communicating with the AI assistant." |}).
Proof.
  split.
  - intros H1 H2 H3 reader backend. unfold sendChatMessage, attempt.
    rewrite H1, H2, H3. reflexivity.
  - intros Hsup Hread backend. unfold sendChatMessage, attempt, fileToGenerativePart.
    rewrite Hread.
    destruct (String.prefix "image/" (type f)), (String.prefix "video/" (type f)),
      (String.prefix "audio/" (type f)); try discriminate Hsup; reflexivity.
Qed.

Lemma unusable_file_fails_the_stream_witness :
  String.prefix "image/" (type Samples.spreadsheet) = false
  /\ String.prefix "video/" (type Samples.spreadsheet) = false
  /\ String.prefix "audio/" (type Samples.spreadsheet) = false
  /\ sendChatMessage Samples.no_language_names Samples.reads Samples.answers
       "what is this?" (Some Samples.spreadsheet) "en"
     = {| chunks := [];
          ending := Threw "Unsupported file type. Please upload an image, video, or audio file." |}.
Proof.
  split; [reflexivity |]. split; [reflexivity |]. split; [reflexivity |].
  exact (proj1 (unusable_file_fails_the_stream Samples.no_language_names Samples.reads
                  Samples.answers "what is this?" Samples.spreadsheet "en")
           eq_refl eq_refl eq_refl Samples.reads Samples.answers).
Defined.

(** Once a text was yielded, the stream of a text prompt ends well when
    the iteration does not fail and the response is awaited without
    failure: whether there is a response object, and whatever its finish
    reason is, a block for safety included, makes no difference. *)
Theorem yielded_text_hides_the_finish_reason
    (languageName : LanguageCode -> option string)
    (readAsDataURL : File -> option string)
    (generateContentStream : list Part -> Awaited ResponseStream)
    (prompt : string) (lang : LanguageCode)
    (stream : ResponseStream) (r : option Response) (first : string) (more : list string) :
  generateContentStream
    [TextPart (prompt +:+ line_feed +:+ line_feed
               +:+ "(Please provide the response in "
               +:+ getLanguageName languageName lang +:+ ")")]
  = Resolved stream ->
  failure stream = None ->
  response stream = Resolved r ->
  omap truthy_text (texts stream) = first :: more ->
  sendChatMessage languageName readAsDataURL generateContentStream prompt None lang
  = {| chunks := first :: more; ending := Completed |}.
Proof.
  intros Hcall Hfail Hresp Hyielded. unfold sendChatMessage, attempt.
  rewrite Hcall, Hfail, Hresp, Hyielded. destruct r as [r|]; [| reflexivity].
  rewrite andb_false_r. reflexivity.
Qed.

Lemma yielded_text_hides_the_finish_reason_witness :
  let unsafe (parts : list Part) : Awaited ResponseStream :=
    Resolved {| texts := [Some "Hel"; None; Some "lo!"];
                failure := None;
                response := Resolved (Some {| finishReason := Some "SAFETY";
                                              blockReason := None;
                                              safetyRatings := None |}) |} in
  sendChatMessage Samples.no_language_names Samples.reads unsafe "hello" None "en"
  = {| chunks := ["Hel"; "lo!"]; ending := Completed |}.
Proof.
  intros unsafe.
  apply (yielded_text_hides_the_finish_reason Samples.no_language_names Samples.reads
           unsafe "hello" "en" _ _ "Hel" ["lo!"] eq_refl eq_refl eq_refl eq_refl).
Defined.

(** [getMarketPriceForSale] gives a price only when the text of the
    response, trimmed, is JSON for an object whose [price] is a number, and
    then it gives this number; everything else, the error about the format
    of the price included, reaches the caller as one and the same message,
    which names the crop. *)
Theorem price_or_one_message
    (languageName : LanguageCode -> option string)
    (generateContent : string -> Awaited (option string)) (trim : string -> string)
    (crop location : string) (unit : option string) (lang : LanguageCode) :
  match getMarketPriceForSale languageName generateContent trim crop location unit lang with
  | inl price =>
      exists contents text members,
        generateContent contents = Resolved (Some text)
        /\ parse (trim text) = Some (JObject members)
        /\ Props.get "price" members = Some (JNumber price)
  | inr message => message = "Failed to get market price for " +:+ crop +:+ " from AI."
  end.
Proof.
  unfold getMarketPriceForSale, price_attempt.
  match goal with |- context [generateContent ?c] => set (contents := c) end.
  destruct (generateContent contents) as [[text|]|e] eqn:E; [| reflexivity | reflexivity].
  destruct (parse (trim text)) as [[| | | | |members]|] eqn:Ep; try reflexivity.
  destruct (Props.get "price" members) as [[| |price| | |]|] eqn:Eg; try reflexivity.
  eauto 10.
Qed.

(** A location that [getAccurateLocation] returns and that is not the one
    of the IP lookup is the name for the position of the device, and in
    no letter case does it hold one of the names "kolkata", "bengaluru"
    and "bangalore". *)
Theorem returned_position_is_not_simulated
    (Coordinates : Type) (getCurrentPosition : Coordinates + string)
    (coordsToLocationName : Coordinates -> LanguageCode -> string)
    (getLocationByIp : option string) (lang : LanguageCode) (location : string) :
  getAccurateLocation Coordinates getCurrentPosition coordsToLocationName
    getLocationByIp lang = inl location ->
  getLocationByIp <> Some location ->
  (exists position,
     getCurrentPosition = inl position
     /\ location = coordsToLocationName position lang)
  /\ forall simLocation pre post,
       simLocation ∈ simulatedLocations ->
       toLowerCase location <> pre +:+ simLocation +:+ post.
Proof.
  unfold getAccurateLocation. intros H Hip.
  destruct getCurrentPosition as [position|message].
  - destruct (coordsToLocationName position lang) as [|c name] eqn:En.
    + destruct getLocationByIp; [injection H as ->; congruence | discriminate].
    + destruct (isSimulated (String c name)) eqn:Es.
      * destruct getLocationByIp; [injection H as ->; congruence | discriminate].
      * injection H as <-. split; [eauto |].
        intros simLocation pre post Hin Heq.
        unfold isSimulated in Es.
        assert (existsb (fun s => includes s (toLowerCase (String c name)))
                  simulatedLocations = true) as Hex; [| congruence].
        apply existsb_exists. exists simLocation. split.
        -- now apply list_elem_of_In.
        -- apply includes_spec. eauto.
  - destruct getLocationByIp.
    + injection H as ->. congruence.
    + destruct (_ || _); discriminate.
Qed.

Lemma returned_position_is_not_simulated_witness :
  let place (position : unit) (lang : LanguageCode) := "Pune, Maharashtra, India" in
  getAccurateLocation unit (inl tt) place (Some "Mumbai, Maharashtra, IN") "en"
  = inl "Pune, Maharashtra, India"
  /\ Some "Mumbai, Maharashtra, IN" <> Some "Pune, Maharashtra, India"
  /\ exists position : unit,
       @inl unit string tt = inl position
       /\ "Pune, Maharashtra, India" = place position "en".
Proof.
  intros place.
  assert (Some "Mumbai, Maharashtra, IN" <> Some "Pune, Maharashtra, India") as Hne
    by discriminate.
  split; [reflexivity |]. split; [exact Hne |].
  exact (proj1 (returned_position_is_not_simulated unit (inl tt) place
                  (Some "Mumbai, Maharashtra, IN") "en" "Pune, Maharashtra, India"
                  eq_refl Hne)).
Defined.

(** A name for the position of the device that holds "kolkata",
    "bengaluru" or "bangalore", in whatever letter case, is not returned:
    the IP lookup decides.  So does it when the position is not to be had.
    When the IP lookup fails too, the error is the one of the position if
    its message holds "denied" or "blocked", and the general one
    otherwise. *)
Theorem fallback_to_ip_lookup
    (Coordinates : Type) (getCurrentPosition : Coordinates + string)
    (coordsToLocationName : Coordinates -> LanguageCode -> string)
    (getLocationByIp : option string) (lang : LanguageCode) :
  (match getCurrentPosition with
   | inl position =>
       exists simLocation pre post,
         simLocation ∈ simulatedLocations
         /\ toLowerCase (coordsToLocationName position lang)
            = pre +:+ simLocation +:+ post
   | inr _ => True
   end) ->
  getAccurateLocation Coordinates getCurrentPosition coordsToLocationName
    getLocationByIp lang
  = match getLocationByIp with
    | Some ipLocationName => inl ipLocationName
    | None =>
        match getCurrentPosition with
        | inr message =>
            if includes "denied" message || includes "blocked" message
            then inr message
            else inr "Could not determine your location automatically. Please enter it manually."
        | inl _ =>
            inr "Could not determine your location automatically. Please enter it manually."
        end
    end.
Proof.
  unfold getAccurateLocation. intros H.
  destruct getCurrentPosition as [position|message]; [| reflexivity].
  destruct H as (simLocation & pre & post & Hin & Heq).
  assert (isSimulated (coordsToLocationName position lang) = true) as Hsim.
  { unfold isSimulated. apply existsb_exists. exists simLocation. split.
    - now apply list_elem_of_In.
    - apply includes_spec. eauto. }
  destruct (coordsToLocationName position lang) as [|c name]; [reflexivity |].
  rewrite Hsim. reflexivity.
Qed.

Lemma fallback_to_ip_lookup_witness :
  let place (position : unit) (lang : LanguageCode) := "KOLKATA, West Bengal, India" in
  (exists simLocation pre post,
     simLocation ∈ simulatedLocations
     /\ toLowerCase (place tt "en") = pre +:+ simLocation +:+ post)
  /\ getAccurateLocation unit (inl tt) place (Some "Pune, Maharashtra, IN") "en"
     = inl "Pune, Maharashtra, IN"
  /\ getAccurateLocation unit (inr "You denied the location request.") place None "en"
     = inr "You denied the location request.".
Proof.
  intros place.
  assert (exists simLocation pre post,
            simLocation ∈ simulatedLocations
            /\ toLowerCase (place tt "en") = pre +:+ simLocation +:+ post) as H.
  { exists "kolkata", EmptyString, ", west bengal, india". split; [left | reflexivity]. }
  split; [exact H |]. split.
  - apply (fallback_to_ip_lookup unit (inl tt) place (Some "Pune, Maharashtra, IN") "en" H).
  - apply (fallback_to_ip_lookup unit (inr "You denied the location request.") place
             None "en" I).
Defined.

End ServiceProps.

(* ===================================================================== *)
(** * [components/features/AIChat.tsx]: the voice of a reply *)
(* ===================================================================== *)

Module VoiceProps.
Import Speech.

Lemma or_else_some (a b : option Voice) (v : Voice) :
  or_else a b = Some v -> a = Some v \/ (a = None /\ b = Some v).
Proof. destruct a; cbn; auto. Qed.

Lemma or_else_none (a b : option Voice) :
  or_else a b = None -> a = None /\ b = None.
Proof. destruct a; cbn; [discriminate | auto]. Qed.

Lemma head_in (l : list Voice) (v : Voice) : head l = Some v -> In v l.
Proof. destruct l; [discriminate |]. intros [= ->]. now left. Qed.

(** The voice given to the utterance is one of the voices of the browser,
    and the tag of its language starts with the language of the chat.  No
    voice is given only when no voice of the browser has such a tag. *)
Theorem chosen_voice_speaks_the_language (language : string) (voices : list Voice) :
  match pickVoice language voices with
  | Some v => In v voices /\ String.prefix language (lang v) = true
  | None => forall v, In v voices -> String.prefix language (lang v) = false
  end.
Proof.
  unfold pickVoice.
  set (matchingVoices := List.filter _ voices).
  assert (forall v, In v matchingVoices ->
                    In v voices /\ String.prefix language (lang v) = true) as Hin.
  { intros v Hv. now apply List.filter_In in Hv. }
  destruct (or_else _ _) as [v|] eqn:E.
  - apply Hin.
    apply or_else_some in E as [E | [_ E]]; [now apply List.find_some in E |].
    apply or_else_some in E as [E | [_ E]]; [now apply List.find_some in E |].
    apply or_else_some in E as [E | [_ E]]; [now apply List.find_some in E |].
    now apply head_in.
  - apply or_else_none in E as [_ E]. apply or_else_none in E as [_ E].
    apply or_else_none in E as [_ E].
    intros v Hv. destruct (String.prefix language (lang v)) eqn:Ep; [| reflexivity].
    assert (In v matchingVoices) as Hm by (apply List.filter_In; auto).
    destruct matchingVoices; [destruct Hm | discriminate E].
Qed.

(** When the browser has a voice whose tag is the language itself, the
    voice given to the utterance has this tag, also when voices of a
    longer tag come first; and when one of the voices of this tag is a
    network voice, the voice given is a network voice. *)
Theorem exact_voice_first (language : string) (voices : list Voice) (exact v : Voice) :
  In exact voices ->
  lang exact = language ->
  pickVoice language voices = Some v ->
  lang v = language /\ (localService exact = false -> localService v = false).
Proof.
  intros Hin Hlang. unfold pickVoice.
  set (matchingVoices := List.filter _ voices).
  assert (In exact matchingVoices) as Hm.
  { apply List.filter_In. split; [exact Hin |]. rewrite Hlang.
    clear. induction language as [|c s IH]; [reflexivity |].
    cbn. destruct (ascii_dec c c); [exact IH | congruence]. }
  assert (String.eqb (lang exact) language = true) as Hexact
    by now apply String.eqb_eq.
  intros E. apply or_else_some in E as [E | [Enone E]].
  - apply List.find_some in E as [_ E]. apply andb_true_iff in E as [E1 E2].
    apply String.eqb_eq in E1. apply negb_true_iff in E2. auto.
  - apply or_else_some in E as [E | [E _]].
    + apply List.find_some in E as [_ E]. apply String.eqb_eq in E. split; [exact E |].
      intros Hnet. pose proof (List.find_none _ _ Enone exact Hm) as H.
      cbn beta in H. rewrite Hexact, Hnet in H. discriminate H.
    + pose proof (List.find_none _ _ E exact Hm) as H. cbn beta in H.
      rewrite Hexact in H. discriminate H.
Qed.

Lemma exact_voice_first_witness :
  let network := {| name := "Network Hindi"; lang := "hi"; localService := false |} in
  In network Samples.voices
  /\ pickVoice "hi" Samples.voices = Some network
  /\ lang network = "hi"
  /\ (localService network = false -> localService network = false).
Proof.
  intros network.
  assert (In network Samples.voices) as Hin
    by (right; right; right; left; reflexivity).
  split; [exact Hin |]. split; [reflexivity |].
  exact (exact_voice_first "hi" Samples.voices network network Hin eq_refl eq_refl).
Defined.

End VoiceProps.
